(** * Feature-to-grid resolution and validation engine

    A shallow embedding of the aggregation, record-building, name-validation,
    superposition-check and process-trail code of the geolinkage project
    ([processors/FeatureProcessor.py], [postprocessors/SuperpositionCheck.py],
    [SummaryInfo.py]), with the properties the specification states about it.

    Conventions of the embedding:
    - a Python [dict] whose iteration order is observable is an insertion-ordered
      association list ([odict]); a [dict] or [set] that is only looked up is a
      [gmap] or [gset]; the order in which a [set] is iterated is taken from
      the interpreter run ([set_iter]);
    - Python values stored in the candidate dictionaries are [pyval]s: numbers
      (areas, lengths, ids), taken as integers, and strings;
    - a raised exception ([KeyError], [IndexError], [TypeError]) is [None] in
      the option monad; the partially updated object is not observed after it;
    - candidate dictionaries are held by value: the model shows what a call
      does to the dictionary it addresses, not to other references to the
      same object. *)

From stdpp Require Import base option list strings gmap pretty sorting.
From Stdlib Require Import ZArith Lia Ascii.

Open Scope Z_scope.

(** ** Python values *)

Inductive pyval :=
| VInt (z : Z)
| VStr (s : string).

#[global] Instance pyval_eq_dec : EqDecision pyval.
Proof. solve_decision. Defined.

(** [str(v)] as used by [str.format]. *)
Definition py_str (v : pyval) : string :=
  match v with
  | VInt z => pretty z
  | VStr s => s
  end.


(** [a + b]: integer addition, string concatenation, [TypeError] otherwise. *)
Definition py_add (a b : pyval) : option pyval :=
  match a, b with
  | VInt x, VInt y => Some (VInt (x + y))
  | VStr x, VStr y => Some (VStr (x +:+ y))
  | _, _ => None
  end.

(** [a < b]: integer order, lexicographic string order, [TypeError] otherwise. *)
Definition py_lt (a b : pyval) : option bool :=
  match a, b with
  | VInt x, VInt y => Some (x <? y)
  | VStr x, VStr y => Some (String.ltb x y)
  | _, _ => None
  end.

(** ** Insertion-ordered dictionaries *)

Section odict.
Context {K V : Type} `{EqDecision K}.

(** [d.get(k)] *)
Fixpoint od_get (k : K) (d : list (K * V)) : option V :=
  match d with
  | [] => None
  | (k', v) :: d' => if decide (k = k') then Some v else od_get k d'
  end.

(** [d[k] = v]: an existing key keeps its position, a new key goes last. *)
Fixpoint od_set (k : K) (v : V) (d : list (K * V)) : list (K * V) :=
  match d with
  | [] => [(k, v)]
  | (k', v') :: d' =>
      if decide (k = k') then (k, v) :: d' else (k', v') :: od_set k v d'
  end.

(** [dict(pairs)] *)
Definition od_of_list (l : list (K * V)) : list (K * V) :=
  foldl (fun d kv => od_set kv.1 kv.2 d) [] l.
End odict.

(** A [for] loop whose body may raise. *)
Fixpoint for_each {S A : Type} (body : S → A → option S) (s : S) (l : list A)
  : option S :=
  match l with
  | [] => Some s
  | x :: l' => s' ← body s x; for_each body s' l'
  end.

(** ** [sorted(items, key=..., reverse=True)]

    Python's sort is stable and [reverse=True] keeps the original order of
    items with equal keys. Keys are compared with [<] only, so a list that
    mixes integer and string keys raises [TypeError] as soon as it has two
    items. The functional model is a stable insertion sort over the keyed
    items. *)

Section py_sorted.
Context {A : Type}.

Fixpoint insert_desc (x : pyval * A) (l : list (pyval * A))
  : option (list (pyval * A)) :=
  match l with
  | [] => Some [x]
  | y :: l' =>
      lt ← py_lt x.1 y.1;
      if (lt : bool) then l'' ← insert_desc x l'; Some (y :: l'')
      else Some (x :: y :: l')
  end.

Fixpoint sort_desc (l : list (pyval * A)) : option (list (pyval * A)) :=
  match l with
  | [] => Some []
  | x :: l' => s ← sort_desc l'; insert_desc x s
  end.

Definition py_sorted_reverse (key : A → option pyval) (l : list A)
  : option (list A) :=
  keyed ← mapM (λ x, k ← key x; Some (k, x)) l;
  s ← sort_desc keyed;
  Some (s.*2).
End py_sorted.

(** ** What the interpreter decides

    Three behaviours of Python are not determined by the program text, or
    lie outside the fragment computed here; they are taken from the
    interpreter run:
    - [set_iter]: the order in which a [set] of strings is iterated. It
      follows the hashes of the elements, which change with the hash seed of
      the run, and the history of the object; it is given for the object
      (named by the attribute and the key that hold it) and its elements,
      and it is some order of the elements;
    - [str_repr]: [repr] of a string; [py_repr] below computes it for
      strings of printable ASCII characters and takes it from here
      otherwise;
    - [str_format]: [str.format] with keyword arguments only; [py_format]
      below computes it as far as the replacement fields are plain keyword
      names and takes it from here from the first other field on. *)
Class Interpreter := {
  set_iter : string → string → gset string → list string;
  set_iter_elements : ∀ owner key X, set_iter owner key X ≡ₚ elements X;
  str_repr : string → string;
  str_format : string → list (string * pyval) → option string
}.

(** ** [repr] of a string

    For printable ASCII characters: the string is quoted with single quotes,
    or with double quotes when it holds a single quote and no double quote;
    the quote character chosen and the backslash are escaped with a
    backslash. *)

Definition printable_ascii (c : ascii) : bool :=
  (32 <=? nat_of_ascii c)%nat && (nat_of_ascii c <=? 126)%nat.

Definition has_char (c : ascii) (s : string) : bool :=
  existsb (Ascii.eqb c) (String.list_ascii_of_string s).

Fixpoint escape_quoted (quote : ascii) (s : string) : string :=
  match s with
  | EmptyString => EmptyString
  | String c rest =>
      if Ascii.eqb c quote || Ascii.eqb c "092"%char
      then String "092"%char (String c (escape_quoted quote rest))
      else String c (escape_quoted quote rest)
  end.

Definition py_repr `{Interpreter} (s : string) : string :=
  if forallb printable_ascii (String.list_ascii_of_string s) then
    let quote :=
      if has_char "'"%char s && negb (has_char "034"%char s)
      then "034"%char else "'"%char in
    String quote (escape_quoted quote s +:+ String quote EmptyString)
  else str_repr s.

(** ** [str.format] with keyword arguments

    [{{] and [}}] are the escaped braces. A replacement field made of ASCII
    letters, digits and underscores only is a plain keyword name, unless it
    is empty or a number: the value of the key is inserted as [str] gives
    it, and a name that is not a key of [kwargs] raises. The empty field and
    a number address a positional argument, and none is passed, so they
    raise; so do an unterminated field, an opening brace inside a field name
    and a single closing brace. Any other field (an attribute or an index,
    a conversion, a format specification, a name with other characters) is
    left to the interpreter, together with the rest of the template. *)

Definition name_char (c : ascii) : bool :=
  let n := nat_of_ascii c in
  ((48 <=? n)%nat && (n <=? 57)%nat)
  || ((65 <=? n)%nat && (n <=? 90)%nat)
  || ((97 <=? n)%nat && (n <=? 122)%nat)
  || (n =? 95)%nat.

Definition digit_char (c : ascii) : bool :=
  (48 <=? nat_of_ascii c)%nat && (nat_of_ascii c <=? 57)%nat.

(** The field addresses a positional argument. *)
Definition positional_field (f : string) : bool :=
  forallb digit_char (String.list_ascii_of_string f).

Fixpoint format_go `{Interpreter} (tpl : string) (field : option string)
    (kwargs : list (string * pyval)) : option string :=
  match tpl with
  | EmptyString =>
      match field with
      | None => Some EmptyString
      | Some _ => None
      end
  | String c rest =>
      match field with
      | None =>
          if Ascii.eqb c "{"%char then
            match rest with
            | String "{"%char rest' => String "{"%char <$> format_go rest' None kwargs
            | _ => format_go rest (Some EmptyString) kwargs
            end
          else if Ascii.eqb c "}"%char then
            match rest with
            | String "}"%char rest' => String "}"%char <$> format_go rest' None kwargs
            | _ => None
            end
          else String c <$> format_go rest None kwargs
      | Some f =>
          if Ascii.eqb c "}"%char then
            if positional_field f then None
            else
              v ← od_get f kwargs;
              r ← format_go rest None kwargs;
              Some (py_str v +:+ r)
          else if Ascii.eqb c "{"%char then None
          else if name_char c then
            format_go rest (Some (f +:+ String c EmptyString)) kwargs
          else str_format ("{" +:+ f +:+ String c rest) kwargs
      end
  end.

Definition py_format `{Interpreter} (tpl : string)
    (kwargs : list (string * pyval)) : option string :=
  format_go tpl None kwargs.

(** [sep.join(parts)] *)
Fixpoint py_join (sep : string) (parts : list string) : string :=
  match parts with
  | [] => EmptyString
  | [p] => p
  | p :: ps => p +:+ sep +:+ py_join sep ps
  end.

(** ** Configuration

    Modelled from the spec: [ConfigApp] ([utils/Config.py]) is not part of the
    sources. The engine reads from it the message template of each named
    process step ("a named message template (configuration-provided)"), the
    feature type of each processor class and the number of export columns of
    each feature type. *)

Module ConfigApp.
Record t := {
  get_process_msg : string → string;
  type_names : list (string * string);
  get_columns_to_save : string → Z;
  get_order_criteria : string → string
}.
End ConfigApp.

(** ** Diagnostics ledger

    Modelled from the spec: [ErrorManager] ([utils/Errors.py]) is not part of
    the sources. An entry is [{type, code, message, severity}]; the ledger is
    append-only; a query returns, in append order, the messages of the entries
    whose type matches and whose code matches or the code filter is empty;
    errors and warnings are queried separately. *)

Module ErrorManager.
Record Entry := {
  e_typ : string;
  e_code : string;
  e_msg : string;
  e_warn : bool
}.

Abbreviation t := (list Entry).

Definition append (msg typ : string) (is_warn : bool) (code : string)
    (errs : t) : t :=
  errs ++ [{| e_typ := typ; e_code := code; e_msg := msg; e_warn := is_warn |}].

Definition code_matches (code : string) (e : Entry) : Prop :=
  code = EmptyString ∨ e_code e = code.

Definition query (warn : bool) (typ code : string) (errs : t) : list Entry :=
  filter (λ e, e_warn e = warn ∧ e_typ e = typ ∧ code_matches code e) errs.

Definition get_errors (typ code : string) (errs : t) : list string :=
  e_msg <$> query false typ code errs.

Definition get_warnings (typ code : string) (errs : t) : list string :=
  e_msg <$> query true typ code errs.

Definition type_matches (types : option (list string)) (e : Entry) : Prop :=
  match types with
  | None => True
  | Some ts => e_typ e ∈ ts
  end.

#[global] Instance type_matches_dec types e : Decision (type_matches types e).
Proof. destruct types; simpl; apply _. Defined.

(** [hasErrors(type|types|code)]: is there an error entry in the scope. *)
Definition has_errors (types : option (list string)) (code : string)
    (errs : t) : bool :=
  bool_decide
    (Exists (λ e, e_warn e = false ∧ type_matches types e ∧ code_matches code e)
       errs).
End ErrorManager.

(** ** Process trail and summary ([SummaryInfo.py]) *)

Module SummaryInfo.
Record ProcessLine := {
  line : string;
  status : string
}.

Record t := {
  prefix : string;
  config : ConfigApp.t;
  input_params : list (string * pyval);
  process_lines : list ProcessLine;
  errors : ErrorManager.t
}.

Definition with_input_params (p : list (string * pyval)) (s : t) : t :=
  {| prefix := prefix s; config := config s; input_params := p;
     process_lines := process_lines s; errors := errors s |}.

Definition with_process_lines (l : list ProcessLine) (s : t) : t :=
  {| prefix := prefix s; config := config s; input_params := input_params s;
     process_lines := l; errors := errors s |}.

Definition with_errors (e : ErrorManager.t) (s : t) : t :=
  {| prefix := prefix s; config := config s; input_params := input_params s;
     process_lines := process_lines s; errors := e |}.

(** [__init__] *)
Definition init (pre : string) (errs : ErrorManager.t) (cfg : ConfigApp.t) : t :=
  {| prefix := pre; config := cfg; input_params := [];
     process_lines := []; errors := errs |}.

Definition set_input_param (param_name : string) (param_value : pyval)
    (s : t) : t :=
  with_input_params (od_set param_name param_value (input_params s)) s.

Definition get_input_param (param_name : string) (s : t) : option pyval :=
  od_get param_name (input_params s).

Definition set_input_params (params : list (string * pyval)) (s : t) : t :=
  foldl (λ s kv, set_input_param kv.1 kv.2 s) s params.

Definition get_input_params (s : t) : list (string * pyval) :=
  input_params s.

Definition print_input_params (s : t) : string :=
  foldl
    (λ acc kv,
       acc +:+ ("     [" +:+ kv.1 +:+ "]: " +:+ py_str kv.2 +:+ " "
                +:+ String "010" EmptyString))
    EmptyString (input_params s).

Definition set_process_line `{Interpreter} (msg_name : string)
    (check_error : bool) (kwargs : list (string * pyval)) (s : t) : option t :=
  let msg_info := ConfigApp.get_process_msg (config s) msg_name in
  let status := if check_error then "ERROR"%string else "OK"%string in
  let args_dict := foldl (λ d kv, od_set kv.1 kv.2 d) [] kwargs in
  msg_info' ← py_format msg_info args_dict;
  let line := {| line := msg_info'; status := status |} in
  Some (with_process_lines (process_lines s ++ [line]) s).

(** The highlight colours of the [ui] module. *)
Inductive colour := darkred | green | red.

(** [insert_ui] is [Utils.insert_ui], the presentation layer's decorator. *)
Definition get_process_lines (insert_ui : string → colour → string)
    (with_ui : bool) (s : t) : list ProcessLine :=
  if with_ui then
    foldl
      (λ acc l,
         let msg_info := insert_ui (line l) darkred in
         let status' := ("[" +:+ status l +:+ "]")%string in
         let msg_status :=
           if bool_decide (status l = "OK"%string)
           then insert_ui status' green
           else insert_ui status' red in
         acc ++ [{| line := msg_info; status := msg_status |}])
      [] (process_lines s)
  else process_lines s.

Definition print_process_line (s : t) : string :=
  foldl
    (λ acc l,
       acc +:+ ("  " +:+ line l +:+ "  [" +:+ status l +:+ "] "
                +:+ String "010" EmptyString))
    EmptyString (process_lines s).

Definition get_errors (code : string) (s : t) : list string :=
  ErrorManager.get_errors (prefix s) code (errors s).

Definition get_warnings (code : string) (s : t) : list string :=
  ErrorManager.get_warnings (prefix s) code (errors s).

(** [msg] and [msgs] default to [None]; an empty string, an empty list and
    [None] are falsy. *)
Definition append_error (msg : option string) (msgs : option (list string))
    (typ : option string) (is_warn : bool) (code : string) (s : t) : t :=
  let typ :=
    match typ with
    | Some ty => if bool_decide (ty = EmptyString) then prefix s else ty
    | None => prefix s
    end in
  let msg_given :=
    match msg with
    | Some m => negb (bool_decide (m = EmptyString))
    | None => false
    end in
  if msg_given then
    with_errors
      (ErrorManager.append (default EmptyString msg) typ is_warn code (errors s)) s
  else
    match msgs with
    | Some ms =>
        with_errors
          (foldl (λ e m, ErrorManager.append m typ is_warn code e) (errors s) ms) s
    | None => s
    end.

(** The state-changing calls of the class, for reasoning about traces. *)
Inductive call :=
| SetInputParam (param_name : string) (param_value : pyval)
| SetInputParams (params : list (string * pyval))
| SetProcessLine (msg_name : string) (check_error : bool)
    (kwargs : list (string * pyval))
| AppendError (msg : option string) (msgs : option (list string))
    (typ : option string) (is_warn : bool) (code : string).

Definition exec `{Interpreter} (c : call) (s : t) : option t :=
  match c with
  | SetInputParam n v => Some (set_input_param n v s)
  | SetInputParams ps => Some (set_input_params ps s)
  | SetProcessLine n e kw => set_process_line n e kw s
  | AppendError m ms ty w c => Some (append_error m ms ty w c s)
  end.

Fixpoint run `{Interpreter} (cs : list call) (s : t) : option t :=
  match cs with
  | [] => Some s
  | c :: cs' => s' ← exec c s; run cs' s'
  end.

(** The line a call contributes to the trail, if any. *)
Definition line_of `{Interpreter} (cfg : ConfigApp.t) (c : call)
  : option ProcessLine :=
  match c with
  | SetProcessLine n e kw =>
      m ← py_format (ConfigApp.get_process_msg cfg n)
            (foldl (λ d kv, od_set kv.1 kv.2 d) [] kw);
      Some {| line := m; status := if e then "ERROR" else "OK" |}
  | _ => None
  end.
End SummaryInfo.

(** ** Grid cells and candidates *)

(** The [Cell] named tuple used as dictionary key. *)
Module Cell.
Record t := {
  row : Z;
  col : Z
}.

#[global] Instance eq_dec : EqDecision t.
Proof. solve_decision. Defined.
End Cell.

(** A candidate: the dictionary of one feature's data at a cell, with the
    keys ['name'], ['cell_id'], ['map_name'] and the metric field (['area']
    or ['length']). *)
Abbreviation Data := (list (string * pyval)).

(** [l[i]] for a Python list, negative indices counting from the end. *)
Definition py_getitem {A : Type} (l : list A) (i : Z) : option A :=
  let n := Z.of_nat (length l) in
  if bool_decide (0 ≤ i < n) then l !! Z.to_nat i
  else if bool_decide (- n ≤ i < 0) then l !! Z.to_nat (n + i)
  else None.

(** [range(n)] *)
Definition py_range (n : Z) : list Z := seqZ 0 n.

(** ** The feature processor ([processors/FeatureProcessor.py]) *)

Module FeatureProcess.
(** An entry of [cell_ids]. *)
Record CellRecord := {
  number_of_data : nat;
  cell_id : pyval;
  row : Z;
  col : Z;
  data : list Data
}.

(** An entry of [map_names]. *)
Record MapInfo := {
  name : string;
  imported : bool
}.

(** An area of a vector map as [viter('areas')] yields it: its category and
    the value of the main attribute field ([None] for a missing value). *)
Record Area := {
  cat : option Z;
  main_attr : option string
}.

Record t := {
  class_name : string;
  config : ConfigApp.t;
  feature_type : string;
  cells : list (Cell.t * list (string * Data));
  cell_ids : list (Cell.t * CellRecord);
  map_names : list (string * MapInfo);
  features_by_map : list (string * gset string);
  summary : SummaryInfo.t
}.

(** [_err] and [summary.errors] are the same ledger object. *)
Definition _err (s : t) : ErrorManager.t := SummaryInfo.errors (summary s).

Definition with_cells (c : list (Cell.t * list (string * Data))) (s : t) : t :=
  {| class_name := class_name s; config := config s;
     feature_type := feature_type s; cells := c; cell_ids := cell_ids s;
     map_names := map_names s; features_by_map := features_by_map s;
     summary := summary s |}.

Definition with_cell_ids (c : list (Cell.t * CellRecord)) (s : t) : t :=
  {| class_name := class_name s; config := config s;
     feature_type := feature_type s; cells := cells s; cell_ids := c;
     map_names := map_names s; features_by_map := features_by_map s;
     summary := summary s |}.


Definition with_summary (sm : SummaryInfo.t) (s : t) : t :=
  {| class_name := class_name s; config := config s;
     feature_type := feature_type s; cells := cells s; cell_ids := cell_ids s;
     map_names := map_names s; features_by_map := features_by_map s;
     summary := sm |}.

(** [__init__]; the feature type is [config.type_names[class name]]. *)
Definition init (cls : string) (cfg : ConfigApp.t) (err : ErrorManager.t)
  : option t :=
  ft ← od_get cls (ConfigApp.type_names cfg);
  Some {| class_name := cls; config := cfg; feature_type := ft;
          cells := []; cell_ids := []; map_names := [];
          features_by_map := []; summary := SummaryInfo.init ft err cfg |}.

Definition get_feature_type (s : t) : string := feature_type s.

Definition get_order_criteria_name (s : t) : string :=
  ConfigApp.get_order_criteria (config s) (get_feature_type s).

Definition get_columns_to_save (s : t) : Z :=
  ConfigApp.get_columns_to_save (config s) (get_feature_type s).

(** What the class takes from elsewhere: the abstract methods each processor
    implements ([set_data_from_geo], [get_feature_id_by_name], the latter a
    query of the reference topology, which the engine never modifies), the
    GRASS vector map reader ([viter_areas]: the areas of the named map), and
    the methods inherited from [MapFileManagerProtocol], which is not part
    of the sources: the imported main map's name, the export column names
    of the feature type, the informative column names and the imported
    secondary maps. *)
Class Processor := {
  set_data_from_geo : t → t;
  get_feature_id_by_name : string → option pyval;
  viter_areas : string → list Area;
  get_main_map_name : t → string;
  get_column_to_export : t → list string;
  get_info_columns_to_export : t → list string;
  get_secondary_map_names : t → list string
}.

(** Modelled from the spec: [append_error], [check_errors] and [get_errors]
    are inherited from [MapFileManagerProtocol], which is not part of the
    sources. [append_error] has the signature and documentation of
    [SummaryInfo.append_error] and records into the shared ledger;
    [check_errors] is the spec's [hasErrors(types|code)]; [get_errors] is the
    spec's [query] for the processor's feature type. *)
Definition append_error (msg : option string) (msgs : option (list string))
    (typ : option string) (is_warn : bool) (code : string) (s : t) : t :=
  with_summary (SummaryInfo.append_error msg msgs typ is_warn code (summary s)) s.

Definition check_errors (types : option (list string)) (code : string)
    (s : t) : bool :=
  ErrorManager.has_errors types code (_err s).

Definition get_errors (code : string) (s : t) : list string :=
  ErrorManager.get_errors (get_feature_type s) code (_err s).











Definition _cell_order_criteria_default (cell : Cell.t)
    (cells_dict : list (Cell.t * list (string * Data))) (by_field : string)
  : option (list Data) :=
  area_targets ← od_get cell cells_dict;
  area_targets_sorted ←
    py_sorted_reverse (λ x : string * Data, od_get by_field x.2) area_targets;
  Some (area_targets_sorted.*2).

(** For a name already present at the cell the metric is added in place to
    the stored dictionary; the model shows the dictionary of the cell and
    the name in [cells]. *)
Definition _set_cell (cell : Cell.t) (area_name : string) (data : Data)
    (by_field : string) (s : t) : option t :=
  match od_get cell (cells s) with
  | Some areas =>
      match od_get area_name areas with
      | Some stored =>
          area_area ← od_get by_field data;
          current ← od_get by_field stored;
          total ← py_add current area_area;
          Some (with_cells
                  (od_set cell
                     (od_set area_name (od_set by_field total stored) areas)
                     (cells s)) s)
      | None =>
          Some (with_cells (od_set cell (od_set area_name data areas) (cells s)) s)
      end
  | None =>
      Some (with_cells (od_set cell (od_set area_name data []) (cells s)) s)
  end.

(** The record the loop of [_set_cell_by_criteria] builds for a cell. *)
Definition cell_record
    (criteria_func : Cell.t → list (Cell.t * list (string * Data)) → string
                     → option (list Data))
    (by_field : string) (cells_dict : list (Cell.t * list (string * Data)))
    (cell : Cell.t) : option CellRecord :=
  area_targets_ordered ← criteria_func cell cells_dict by_field;
  first ← py_getitem area_targets_ordered 0;
  cid ← od_get "cell_id"%string first;
  Some {| number_of_data := length area_targets_ordered;
          cell_id := cid;
          row := Cell.row cell;
          col := Cell.col cell;
          data := area_targets_ordered |}.

(** The body of the loop of [_set_cell_by_criteria]. *)
Definition set_cell_record
    (criteria_func : Cell.t → list (Cell.t * list (string * Data)) → string
                     → option (list Data))
    (by_field : string) (s : t) (cell : Cell.t) : option t :=
  r ← cell_record criteria_func by_field (cells s) cell;
  Some (with_cell_ids (od_set cell r (cell_ids s)) s).

Definition _set_cell_by_criteria
    (criteria_func : Cell.t → list (Cell.t * list (string * Data)) → string
                     → option (list Data))
    (by_field : string) (s : t) : option t :=
  for_each (set_cell_record criteria_func by_field) s (cells s).*1.

Definition get_cell_keys (s : t) : list Cell.t := (cell_ids s).*1.

(** The result is Python's [None] for a cell without record. *)
Definition get_cell_id_data (cell : Cell.t) (s : t) : option CellRecord :=
  od_get cell (cell_ids s).

(** [[d for d in records if d['map_name'] == map_name]] *)
Fixpoint select_by_map (map_name : string) (records : list Data)
  : option (list Data) :=
  match records with
  | [] => Some []
  | d :: ds =>
      m ← od_get "map_name"%string d;
      rest ← select_by_map map_name ds;
      Some (if bool_decide (m = VStr map_name) then d :: rest else rest)
  end.

Definition get_cell_data_by_map (map_name : string) (cell : Cell.t) (s : t)
  : option (list Data) :=
  match od_get cell (cell_ids s) with
  | Some r => select_by_map map_name (data r)
  | None => Some []
  end.

Definition msg_error_capacity (cell : Cell.t) (main_map : string)
    (available : nat) (cols_number : Z) : string :=
  "Error en la [celda=(r=" +:+ pretty (Cell.row cell) +:+ ", c="
    +:+ pretty (Cell.col cell) +:+ ")] para mapa [" +:+ main_map
    +:+ "]. El numero a almacenar es [" +:+ pretty available
    +:+ "], pero no debe ser mayor que [" +:+ pretty cols_number
    +:+ "]. Se considera sólo [" +:+ pretty cols_number +:+ "]".

Definition msg_error_extra (map_name : string) (cell : Cell.t)
    (first_name : pyval) : string :=
  "El mapa [" +:+ map_name +:+ "] tiene mas de un valor en la [celda: ("
    +:+ pretty (Cell.row cell) +:+ ", " +:+ pretty (Cell.col cell)
    +:+ ")]. Se considera el primero: [" +:+ py_str first_name +:+ "]".

(** [dict([(col_names[i], col_data[i]['name']) for i in range(n)])] *)
Definition named_columns (col_names : list string) (col_data : list Data)
    (n : Z) : option (list (string * pyval)) :=
  pairs ← mapM
            (λ i, c ← py_getitem col_names i;
                  d ← py_getitem col_data i;
                  v ← od_get "name"%string d;
                  Some (c, v))
            (py_range n);
  Some (od_of_list pairs).

(** [dict([(col_names[i], '') for i in range(n)])] *)
Definition empty_columns (col_names : list string) (n : Z)
  : option (list (string * pyval)) :=
  pairs ← mapM (λ i, c ← py_getitem col_names i; Some (c, VStr EmptyString))
            (py_range n);
  Some (od_of_list pairs).

Definition get_data_to_save `{Processor} (cell : Cell.t) (main_data : bool)
    (s : t) : option (list (string * pyval) * t) :=
  if main_data then
    let main_map := get_main_map_name s in
    col_data ← get_cell_data_by_map main_map cell s;
    let col_names := get_column_to_export s in
    let cols_number := ConfigApp.get_columns_to_save (config s) (get_feature_type s) in
    match col_data with
    | _ :: _ =>
        s' ← (if bool_decide (cols_number < Z.of_nat (length col_data))
                 && bool_decide (class_name s = "DemandSiteProcess"%string)
              then
                typ ← od_get (class_name s) (ConfigApp.type_names (config s));
                Some (append_error
                        (Some (msg_error_capacity cell main_map
                                 (length col_data) cols_number))
                        None (Some typ) true EmptyString s)
              else Some s);
        let values_to_save := Z.min cols_number (Z.of_nat (length col_data)) in
        data ← named_columns col_names col_data values_to_save;
        data ← for_each
                 (λ data j,
                    c ← py_getitem col_names (cols_number - (j + 1));
                    Some (od_set c (VStr EmptyString) data))
                 data (py_range (cols_number - values_to_save));
        Some (data, s')
    | [] =>
        data ← empty_columns col_names cols_number;
        Some (data, s)
    end
  else
    let col_names := get_info_columns_to_export s in
    let map_names := get_secondary_map_names s in
    for_each
      (λ '(data, s) '(ind, map_name),
         cell_data ← get_cell_data_by_map map_name cell s;
         c ← py_getitem col_names (Z.of_nat ind);
         v ← match cell_data with
             | d :: _ => od_get "name"%string d
             | [] => Some (VStr EmptyString)
             end;
         let data := od_set c v data in
         if bool_decide (1 < length cell_data)%nat then
           typ ← od_get (class_name s) (ConfigApp.type_names (config s));
           Some (data,
                 append_error (Some (msg_error_extra map_name cell v)) None
                   (Some typ) false EmptyString s)
         else Some (data, s))
      ([], s) (imap (λ ind m, (ind, m)) map_names).

(** [make_grid_cell]. What it takes from elsewhere: the map table of
    [MapFileManagerProtocol], which is not part of the sources (the keys of
    the imported maps, main map included, the key of the main map, and the
    intersection map's name and geometry type of a map), and the two
    abstract methods each processor implements to accumulate the
    candidates of a map. The map list and the main map are read once,
    before the loop. *)
Section grid.
Variable get_imported_map_keys : t → list string.
Variable get_main_map_key : t → string.
Variable get_inter_map_name : string → t → string.
Variable get_inter_map_geo_type : string → t → string.
Variable make_cell_data_by_main_map : string → string → string → t → option t.
Variable make_cell_data_by_secondary_maps :
  string → string → string → t → option t.

Definition make_grid_cell (s : t) : option (bool * list string * t) :=
  let map_names := get_imported_map_keys s in
  let main_map_name := get_main_map_key s in
  s' ← for_each
         (λ s map_name,
            let inter_map_name := get_inter_map_name map_name s in
            let inter_map_geo_type := get_inter_map_geo_type map_name s in
            s ← (if bool_decide (map_name = main_map_name)
                 then make_cell_data_by_main_map map_name inter_map_name
                        inter_map_geo_type s
                 else make_cell_data_by_secondary_maps map_name inter_map_name
                        inter_map_geo_type s);
            _set_cell_by_criteria _cell_order_criteria_default
              (get_order_criteria_name s) s)
         s map_names;
  Some (check_errors (Some [get_feature_type s']) EmptyString s',
        get_errors EmptyString s', s').
End grid.

(** [_inter_map_with_linkage] and [inter_map_with_linkage]. What they take
    from elsewhere: the name of the main field of a feature type, from
    [get_needed_field_names] of [MapFileManagerProtocol] ([None] when the
    entry is empty); the GRASS overlay [GrassCoreAPI.inter_map_with_linkage]
    of a map with the linkage grid, which reports a flag and messages
    ([GrassCoreAPI.extract_map_with_condition] acts on the GRASS session
    only); and the imported maps with the names of their intersection
    maps. *)
Section linkage.
Context `{Interpreter}.
Variable get_main_field_name : string → option string.
Variable grass_inter_map_with_linkage :
  string → string → string → string → bool * list string.
Variable get_imported_maps : t → list (string * string).

Definition _inter_map_with_linkage
    (map_name linkage_name output_name snap : string) (s : t)
  : option ((bool * list string) * t) :=
  let map_name :=
    match get_main_field_name (get_feature_type s) with
    | Some _ => map_name +:+ "_extract"
    | None => map_name
    end in
  let '(_err, _errors) :=
    grass_inter_map_with_linkage map_name linkage_name output_name snap in
  let s :=
    if _err
    then append_error None (Some _errors) (Some (get_feature_type s)) false
           EmptyString s
    else s in
  sm ← SummaryInfo.set_process_line "_inter_map_with_linkage"
          (check_errors (Some [get_feature_type s]) EmptyString s)
          [("map_name"%string, VStr map_name);
           ("linkage_name"%string, VStr linkage_name);
           ("output_name"%string, VStr output_name)]
          (summary s);
  let s := with_summary sm s in
  Some ((check_errors (Some [get_feature_type s]) EmptyString s,
         get_errors EmptyString s), s).

Definition inter_map_with_linkage (linkage_name snap : string) (s : t)
  : option ((bool * list string) * t) :=
  let map_names := get_imported_maps s in
  s ← for_each
        (λ s '(map_name, inter_name),
           r ← _inter_map_with_linkage map_name linkage_name inter_name snap s;
           Some r.2)
        s map_names;
  Some ((check_errors (Some [get_feature_type s]) EmptyString s,
         get_errors EmptyString s), s).
End linkage.

(** [check_basic_columns]. What it takes from elsewhere: the fields of a
    feature type, from [get_needed_field_names] (a field key maps to [None]
    when its entry is empty, and to the column name and whether the column
    is needed otherwise), and the GRASS query
    [GrassCoreAPI.check_basic_columns] of a map for one column, which
    reports a flag and messages. *)
Section basic_columns.
Context `{Interpreter}.
Variable get_needed_field_names :
  string → list (string * option (string * bool)).
Variable grass_check_basic_columns :
  string → string → bool → bool * list string.

Definition check_basic_columns (map_name : string) (s : t)
  : option ((bool * list string) * t) :=
  let fields := get_needed_field_names (get_feature_type s) in
  s ← for_each
        (λ s field_key,
           field ← od_get field_key fields ≫= id;
           let field_name := field.1 in
           let needed := field.2 in
           let '(__err, __errors) :=
             grass_check_basic_columns map_name field_name needed in
           sm ← SummaryInfo.set_process_line "check_basic_columns" __err
                  [("map_name"%string, VStr map_name);
                   ("columns"%string, VStr field_name)]
                  (summary s);
           let s := with_summary sm s in
           Some (if needed
                 then append_error None (Some __errors)
                        (Some (get_feature_type s)) false "20" s
                 else append_error None (Some __errors)
                        (Some (get_feature_type s)) true "20" s))
        s (filter (λ f, is_Some f.2) fields).*1;
  Some ((check_errors None "20" s, get_errors "20" s), s).
End basic_columns.
End FeatureProcess.

(** ** The superposition check ([postprocessors/SuperpositionCheck.py]) *)

Module SuperpositionCheck.
(** A node of the reference topology, with the two keys the check reads. *)
Record Node := {
  type_id : Z;
  name : string
}.

(** An arc of the reference topology; an endpoint id may be [None]. *)
Record Arc := {
  src_id : option Z;
  dst_id : option Z
}.

(** [connections] and [nodes] are only looked up; [connection_error] is
    iterated in insertion order by [make_errors_dict]. *)
Record t := {
  base_feature : string;
  secondary_feature : string;
  base_feature_type_id : Z;
  secondary_feature_type_id : Z;
  connections : gmap string (list string);
  nodes : gmap Z Node;
  connection_error : list (string * gset string);
  errors : list string
}.

Definition with_connections (c : gmap string (list string)) (s : t) : t :=
  {| base_feature := base_feature s; secondary_feature := secondary_feature s;
     base_feature_type_id := base_feature_type_id s;
     secondary_feature_type_id := secondary_feature_type_id s;
     connections := c; nodes := nodes s;
     connection_error := connection_error s; errors := errors s |}.

Definition with_nodes (n : gmap Z Node) (s : t) : t :=
  {| base_feature := base_feature s; secondary_feature := secondary_feature s;
     base_feature_type_id := base_feature_type_id s;
     secondary_feature_type_id := secondary_feature_type_id s;
     connections := connections s; nodes := n;
     connection_error := connection_error s; errors := errors s |}.

Definition with_connection_error (e : list (string * gset string)) (s : t) : t :=
  {| base_feature := base_feature s; secondary_feature := secondary_feature s;
     base_feature_type_id := base_feature_type_id s;
     secondary_feature_type_id := secondary_feature_type_id s;
     connections := connections s; nodes := nodes s;
     connection_error := e; errors := errors s |}.

Definition with_errors (e : list string) (s : t) : t :=
  {| base_feature := base_feature s; secondary_feature := secondary_feature s;
     base_feature_type_id := base_feature_type_id s;
     secondary_feature_type_id := secondary_feature_type_id s;
     connections := connections s; nodes := nodes s;
     connection_error := connection_error s; errors := e |}.

(** [__init__]; [nodes_type_id] is the configuration's table of type ids. *)
Definition init (base secondary : string) (nodes_type_id : list (string * Z))
  : option t :=
  b ← od_get base nodes_type_id;
  c ← od_get secondary nodes_type_id;
  Some {| base_feature := base; secondary_feature := secondary;
          base_feature_type_id := b; secondary_feature_type_id := c;
          connections := ∅; nodes := ∅; connection_error := []; errors := [] |}.

Definition add_error (base_element super_element : string) (s : t) : t :=
  let current :=
    match od_get base_element (connection_error s) with
    | Some es => if bool_decide (es = ∅) then ∅ else es
    | None => ∅
    end in
  with_connection_error
    (od_set base_element (current ∪ {[super_element]}) (connection_error s)) s.

(** [str(secondaries)], for the set held under a key of
    [connection_error]: the [repr]s of the elements, in the order the set is
    iterated, between braces; [set()] for the empty set. *)
Definition py_str_set `{Interpreter} (key : string) (x : gset string) : string :=
  if bool_decide (x = ∅) then "set()"
  else "{" +:+ py_join ", " (py_repr <$> set_iter "connection_error" key x)
         +:+ "}".

Definition make_errors_dict `{Interpreter} (s : t) : t :=
  foldl
    (λ s bs,
       with_errors
         (errors s
            ++ ["El elemento " +:+ bs.1 +:+ " del tipo " +:+ base_feature s
                +:+ " no está conectado a los elementos "
                +:+ py_str_set bs.1 bs.2
                +:+ " de tipo " +:+ secondary_feature s +:+ "."]) s)
    s (connection_error s).

Definition set_connection (base_info secondary_info : Node) (s : t) : t :=
  match connections s !! name base_info with
  | Some (x :: l) =>
      with_connections
        (<[name base_info := (x :: l) ++ [name secondary_info]]> (connections s)) s
  | _ =>
      with_connections
        (<[name base_info := [name secondary_info]]> (connections s)) s
  end.

Definition check_connection (base_name secondary_name : string) (s : t) : bool :=
  match connections s !! base_name with
  | Some (x :: l) => bool_decide (secondary_name ∈ x :: l)
  | _ => false
  end.

Definition arc_init_operation (arc_id : Z) (arc : Arc) (s : t) : t := s.

Definition node_init_operation (node_id : Z) (node : Node) (s : t) : t :=
  if bool_decide (type_id node = base_feature_type_id s)
     || bool_decide (type_id node = secondary_feature_type_id s)
  then with_nodes (<[node_id := node]> (nodes s)) s
  else s.

(** [bool(id)] for an optional integer id. *)
Definition id_set (i : option Z) : bool :=
  match i with
  | Some z => negb (z =? 0)
  | None => false
  end.

Definition arc_check_operation (arc_id : Z) (arc : Arc) (s : t) : t :=
  if id_set (src_id arc) && id_set (dst_id arc) then
    match src_id arc ≫= (nodes s !!.), dst_id arc ≫= (nodes s !!.) with
    | Some src, Some dst =>
        if bool_decide (type_id src = base_feature_type_id s)
           && bool_decide (type_id dst = secondary_feature_type_id s)
        then set_connection src dst s
        else if bool_decide (type_id src = secondary_feature_type_id s)
                && bool_decide (type_id dst = base_feature_type_id s)
        then set_connection dst src s
        else s
    | _, _ => s
    end
  else s.

Definition node_check_operation (node_id : Z) (node : Node) (s : t) : t := s.

Section cells.
(** [get_cell_feature_names], inherited from [Check], yields the names of
    the features of a type present in a cell. *)
Context `{Interpreter} {GridCell : Type}.
Variable get_cell_feature_names : GridCell → string → list string.

Definition cell_init_operation (cell_id : Z) (cell : GridCell) (s : t) : t := s.

Definition cell_check_operation (cell_id : Z) (cell : GridCell) (s : t) : t :=
  let base_element := get_cell_feature_names cell (base_feature s) in
  let secondary_element := get_cell_feature_names cell (secondary_feature s) in
  foldl
    (λ s base_name,
       foldl
         (λ s secondary_name,
            if negb (check_connection base_name secondary_name s)
            then add_error base_name secondary_name s
            else s)
         s secondary_element)
    s base_element.

(** Modelled from the spec: the driver of the phases is in [Check], which
    is not part of the sources. INIT collects the elements, EDGE-SCAN
    visits every edge, CELL-SCAN visits every grid cell, and the terminal
    state holds one message per base name. *)
Definition run_phases (node_list : list (Z * Node)) (arc_list : list (Z * Arc))
    (cell_list : list (Z * GridCell)) (s : t) : t :=
  let s := foldl (λ s n, node_init_operation n.1 n.2 s) s node_list in
  let s := foldl (λ s a, arc_init_operation a.1 a.2 s) s arc_list in
  let s := foldl (λ s c, cell_init_operation c.1 c.2 s) s cell_list in
  let s := foldl (λ s a, arc_check_operation a.1 a.2 s) s arc_list in
  let s := foldl (λ s n, node_check_operation n.1 n.2 s) s node_list in
  let s := foldl (λ s c, cell_check_operation c.1 c.2 s) s cell_list in
  make_errors_dict s.
End cells.
End SuperpositionCheck.

(** ** Vocabulary of the statements *)

(** The integer held by the metric field of a candidate. *)
Definition metric_of (by_field : string) (d : Data) : Z :=
  match od_get by_field d with
  | Some (VInt z) => z
  | _ => 0
  end.

Definition has_metric (by_field : string) (d : Data) : Prop :=
  ∃ z, od_get by_field d = Some (VInt z).

(** ** Fixtures *)

(** A candidate as the processors build it, with the area as metric. *)
Definition candidate (name map_name : string) (cell_id metric : Z) : Data :=
  [("name"%string, VStr name); ("area"%string, VInt metric);
   ("cell_id"%string, VInt cell_id); ("map_name"%string, VStr map_name)].

Definition example_config : ConfigApp.t :=
  {| ConfigApp.get_process_msg :=
       λ msg_name,
         if bool_decide (msg_name = "_inter_map_with_linkage"%string)
         then "Intersect [{map_name}] with [{linkage_name}] into [{output_name}]"%string
         else msg_name;
     ConfigApp.type_names :=
       [("CatchmentProcess"%string, "catchment"%string);
        ("DemandSiteProcess"%string, "demand_site"%string);
        ("RiverProcess"%string, "river"%string)];
     ConfigApp.get_columns_to_save := λ _, 2;
     ConfigApp.get_order_criteria := λ _, "area"%string |}.

(** A processor with one main map, two export columns and one reference
    element, ["RiverA"]. *)
#[local] Instance example_processor : FeatureProcess.Processor :=
  {| FeatureProcess.set_data_from_geo := id;
     FeatureProcess.get_feature_id_by_name :=
       λ n, if bool_decide (n = "RiverA"%string) then Some (VInt 7) else None;
     FeatureProcess.viter_areas := λ _, [];
     FeatureProcess.get_main_map_name := λ _, "main"%string;
     FeatureProcess.get_column_to_export := λ _, ["DS1"%string; "DS2"%string];
     FeatureProcess.get_info_columns_to_export := λ _, [];
     FeatureProcess.get_secondary_map_names := λ _, [] |}.

Definition example_state (cls ft : string) : FeatureProcess.t :=
  {| FeatureProcess.class_name := cls;
     FeatureProcess.config := example_config;
     FeatureProcess.feature_type := ft;
     FeatureProcess.cells := [];
     FeatureProcess.cell_ids := [];
     FeatureProcess.map_names := [];
     FeatureProcess.features_by_map := [];
     FeatureProcess.summary := SummaryInfo.init ft [] example_config |}.

Definition example_cell : Cell.t := {| Cell.row := 3; Cell.col := 4 |}.

(** ** Vocabulary of the aggregator statements *)

(** An overlay fragment handed to [_set_cell]: cell, feature name, data. *)
Abbreviation Fragment := (Cell.t * string * Data)%type.

(** Accumulation of a stream of fragments. *)
Definition accumulate_all (by_field : string) (frags : list Fragment)
    (s : FeatureProcess.t) : option FeatureProcess.t :=
  for_each
    (λ s fr, FeatureProcess._set_cell fr.1.1 fr.1.2 fr.2 by_field s) s frags.

(** Resolution with the default ordering criteria. *)
Definition resolve (by_field : string) (s : FeatureProcess.t)
  : option FeatureProcess.t :=
  FeatureProcess._set_cell_by_criteria
    FeatureProcess._cell_order_criteria_default by_field s.

(** The records a resolution builds from an accumulated state alone: one per
    cell of the state, in the order of the cells. *)
Definition resolved_records (by_field : string)
    (cells_dict : list (Cell.t * list (string * Data)))
  : option (list (Cell.t * FeatureProcess.CellRecord)) :=
  mapM
    (λ cell,
       r ← FeatureProcess.cell_record
             FeatureProcess._cell_order_criteria_default by_field cells_dict cell;
       Some (cell, r))
    cells_dict.*1.

(** A candidate the aggregator can merge and resolve: its metric is an
    integer and it carries a cell id. *)
Definition wf_candidate (by_field : string) (d : Data) : Prop :=
  has_metric by_field d ∧ is_Some (od_get "cell_id"%string d).

(** Every cell of the accumulated state has a candidate, all of them
    well formed. *)
Definition wf_cells (by_field : string)
    (cells_dict : list (Cell.t * list (string * Data))) : Prop :=
  Forall (λ ca, ca.2 ≠ [] ∧ Forall (wf_candidate by_field) ca.2.*2) cells_dict.

(** The dictionaries have distinct keys and [cell_ids] was filled from an
    earlier state of [cells]. *)
Definition aggregator_inv (s : FeatureProcess.t) : Prop :=
  NoDup (FeatureProcess.cells s).*1
  ∧ (FeatureProcess.cell_ids s).*1 `prefix_of` (FeatureProcess.cells s).*1.

(** The calls of the aggregator. *)
Inductive agg_op :=
| Accumulate (cell : Cell.t) (area_name : string) (data : Data)
| Resolve.

Definition exec_op (by_field : string) (s : FeatureProcess.t) (o : agg_op)
  : option FeatureProcess.t :=
  match o with
  | Accumulate cell area_name data =>
      FeatureProcess._set_cell cell area_name data by_field s
  | Resolve => resolve by_field s
  end.


(** A state with two candidates accumulated at one cell. *)
Definition example_accumulated : FeatureProcess.t :=
  FeatureProcess.with_cells
    [(example_cell,
      [("A"%string, candidate "A" "main" 1 3);
       ("B"%string, candidate "B" "main" 1 8)])]
    (example_state "DemandSiteProcess" "demand_site").

Definition example_fragments : list Fragment :=
  [(example_cell, "A"%string, candidate "A" "main" 1 4);
   ({| Cell.row := 5; Cell.col := 6 |}, "C"%string, candidate "C" "main" 2 1)].

(** The accumulated example after resolution. *)
Definition example_resolved : FeatureProcess.t :=
  default example_accumulated (resolve "area" example_accumulated).





(** ** Vocabulary of the superposition statements *)

(** The pair (base name, secondary name) is in the error set. *)
Definition reported (base_name secondary_name : string)
    (s : SuperpositionCheck.t) : Prop :=
  ∃ missing,
    od_get base_name (SuperpositionCheck.connection_error s) = Some missing
    ∧ secondary_name ∈ missing.

(** A grid cell given by the names of its features, per feature type. *)
Abbreviation ExampleGridCell := (list (string * list string)).

Definition example_cell_feature_names (cell : ExampleGridCell)
    (feature : string) : list string :=
  default [] (od_get feature cell).

(** A check of catchments (type 21) against groundwater (type 3), with one
    element of each collected. *)
Definition example_check : SuperpositionCheck.t :=
  let s := default
             (SuperpositionCheck.with_errors []
                {| SuperpositionCheck.base_feature := "catchment";
                   SuperpositionCheck.secondary_feature := "groundwater";
                   SuperpositionCheck.base_feature_type_id := 21;
                   SuperpositionCheck.secondary_feature_type_id := 3;
                   SuperpositionCheck.connections := ∅;
                   SuperpositionCheck.nodes := ∅;
                   SuperpositionCheck.connection_error := [];
                   SuperpositionCheck.errors := [] |})
             (SuperpositionCheck.init "catchment" "groundwater"
                [("catchment"%string, 21); ("groundwater"%string, 3)]) in
  SuperpositionCheck.node_init_operation 2
    {| SuperpositionCheck.type_id := 3; SuperpositionCheck.name := "GW1" |}
    (SuperpositionCheck.node_init_operation 1
       {| SuperpositionCheck.type_id := 21; SuperpositionCheck.name := "CatchA" |}
       s).

(** ** Vocabulary of the further statements *)

(** The type an entry gets: the given one, or the prefix when none is given. *)
Definition effective_typ (typ : option string) (s : SummaryInfo.t) : string :=
  match typ with
  | Some ty => if bool_decide (ty = EmptyString) then SummaryInfo.prefix s else ty
  | None => SummaryInfo.prefix s
  end.

(** A status a trail line can carry. *)
Definition trail_status (l : SummaryInfo.ProcessLine) : Prop :=
  SummaryInfo.status l = "OK"%string ∨ SummaryInfo.status l = "ERROR"%string.

(** A presentation decorator for the examples: the text, tagged. *)
Definition example_insert_ui (text : string) (c : SummaryInfo.colour) : string :=
  match c with
  | SummaryInfo.darkred => "<b>" +:+ text +:+ "</b>"
  | SummaryInfo.green => "<g>" +:+ text +:+ "</g>"
  | SummaryInfo.red => "<r>" +:+ text +:+ "</r>"
  end.


(** The candidate stored for a feature name at a cell, if any. *)
Definition candidate_at (cell : Cell.t) (area_name : string)
    (s : FeatureProcess.t) : option Data :=
  od_get cell (FeatureProcess.cells s) ≫= od_get area_name.



(** The data of the fragments of a stream that fall on a cell and a name. *)
Definition fragments_for (cell : Cell.t) (area_name : string)
    (frags : list Fragment) : list Data :=
  (λ fr : Fragment, fr.2)
    <$> filter (λ fr : Fragment, fr.1.1 = cell ∧ fr.1.2 = area_name) frags.

Definition sum_metrics (by_field : string) (ds : list Data) : Z :=
  foldr (λ d acc, metric_of by_field d + acc) 0 ds.

(** What a further fragment makes of the candidate stored so far. *)
Definition merge_candidate (by_field : string) (stored : option Data)
    (data : Data) : option Data :=
  match stored with
  | None => Some data
  | Some st =>
      Some (od_set by_field
              (VInt (metric_of by_field st + metric_of by_field data)) st)
  end.

(** ** Vocabulary of the export statements *)

(** Columns left blank: each name with the empty string. *)
Definition blank_columns (names : list string) : list (string * pyval) :=
  (λ c, (c, VStr EmptyString)) <$> names.

(** The value an informative column takes from the candidates of its map:
    the first one's name, or the empty string when there is none. *)
Definition first_name (cell_data : list Data) : option pyval :=
  match cell_data with
  | d :: _ => od_get "name"%string d
  | [] => Some (VStr EmptyString)
  end.



(** A configuration with four export columns, and a processor with four
    export column names, two informative columns and two secondary maps. *)
Definition example_wide_config : ConfigApp.t :=
  {| ConfigApp.get_process_msg := λ msg_name, msg_name;
     ConfigApp.type_names := [("CatchmentProcess"%string, "catchment"%string)];
     ConfigApp.get_columns_to_save := λ _, 4;
     ConfigApp.get_order_criteria := λ _, "area"%string |}.

Definition example_wide : FeatureProcess.Processor :=
  {| FeatureProcess.set_data_from_geo := id;
     FeatureProcess.get_feature_id_by_name := λ _, None;
     FeatureProcess.viter_areas := λ _, [];
     FeatureProcess.get_main_map_name := λ _, "main"%string;
     FeatureProcess.get_column_to_export :=
       λ _, ["C1"%string; "C2"%string; "C3"%string; "C4"%string];
     FeatureProcess.get_info_columns_to_export :=
       λ _, ["SOIL"%string; "LAND"%string];
     FeatureProcess.get_secondary_map_names :=
       λ _, ["soil"%string; "land"%string] |}.

(** One main-map candidate and two soil candidates at one cell, resolved. *)
Definition example_wide_state : FeatureProcess.t :=
  let s0 :=
    {| FeatureProcess.class_name := "CatchmentProcess";
       FeatureProcess.config := example_wide_config;
       FeatureProcess.feature_type := "catchment";
       FeatureProcess.cells := [];
       FeatureProcess.cell_ids := [];
       FeatureProcess.map_names := [];
       FeatureProcess.features_by_map := [];
       FeatureProcess.summary :=
         SummaryInfo.init "catchment" [] example_wide_config |} in
  default s0
    (for_each (exec_op "area") s0
       [Accumulate example_cell "a" (candidate "a" "main" 1 9);
        Accumulate example_cell "s1" (candidate "s1" "soil" 1 2);
        Accumulate example_cell "s2" (candidate "s2" "soil" 1 6);
        Resolve]).

(** The message [make_errors_dict] writes for a base name and the set of
    its unmatched partners. *)
Definition error_message `{Interpreter} (base_feature secondary_feature : string)
    (bs : string * gset string) : string :=
  "El elemento " +:+ bs.1 +:+ " del tipo " +:+ base_feature
    +:+ " no está conectado a los elementos "
    +:+ SuperpositionCheck.py_str_set bs.1 bs.2
    +:+ " de tipo " +:+ secondary_feature +:+ ".".

(** A node of one of the two feature types of the check. *)
Definition of_checked_type (s : SuperpositionCheck.t)
    (n : SuperpositionCheck.Node) : Prop :=
  SuperpositionCheck.type_id n = SuperpositionCheck.base_feature_type_id s
  ∨ SuperpositionCheck.type_id n = SuperpositionCheck.secondary_feature_type_id s.

(** ** Vocabulary of the grid statements *)

(** What the loop of [make_grid_cell] maintains: the aggregator invariant,
    well-formed candidates, and the ordering field of the configuration. *)
Definition grid_inv (by_field : string) (s : FeatureProcess.t) : Prop :=
  aggregator_inv s
  ∧ wf_cells by_field (FeatureProcess.cells s)
  ∧ FeatureProcess.get_order_criteria_name s = by_field.

(** Processor steps for the examples: the main map contributes one
    candidate at the example cell, a secondary map one candidate named
    after the map. *)
Definition example_main_step (map_name inter_map_name inter_map_geo_type : string)
    (s : FeatureProcess.t) : option FeatureProcess.t :=
  FeatureProcess._set_cell example_cell "a" (candidate "a" map_name 1 9)
    "area" s.

Definition example_secondary_step
    (map_name inter_map_name inter_map_geo_type : string)
    (s : FeatureProcess.t) : option FeatureProcess.t :=
  FeatureProcess._set_cell example_cell map_name (candidate map_name map_name 1 2)
    "area" s.

(** ** Vocabulary of the GRASS step statements *)

Definition ledger_entry (typ code : string) (is_warn : bool) (msg : string)
  : ErrorManager.Entry :=
  {| ErrorManager.e_typ := typ; ErrorManager.e_code := code;
     ErrorManager.e_msg := msg; ErrorManager.e_warn := is_warn |}.

(** Two states that differ at most in the ledger and the trail. *)
Definition same_frame (s s' : FeatureProcess.t) : Prop :=
  FeatureProcess.class_name s' = FeatureProcess.class_name s
  ∧ FeatureProcess.config s' = FeatureProcess.config s
  ∧ FeatureProcess.feature_type s' = FeatureProcess.feature_type s
  ∧ FeatureProcess.cells s' = FeatureProcess.cells s
  ∧ FeatureProcess.cell_ids s' = FeatureProcess.cell_ids s
  ∧ FeatureProcess.map_names s' = FeatureProcess.map_names s
  ∧ FeatureProcess.features_by_map s' = FeatureProcess.features_by_map s
  ∧ SummaryInfo.prefix (FeatureProcess.summary s')
    = SummaryInfo.prefix (FeatureProcess.summary s)
  ∧ SummaryInfo.config (FeatureProcess.summary s')
    = SummaryInfo.config (FeatureProcess.summary s)
  ∧ SummaryInfo.input_params (FeatureProcess.summary s')
    = SummaryInfo.input_params (FeatureProcess.summary s).

(** The trail of a processor. *)
Definition trail (s : FeatureProcess.t) : list SummaryInfo.ProcessLine :=
  SummaryInfo.process_lines (FeatureProcess.summary s).

(** The entries the overlay of one imported map adds to the ledger: the
    messages of the GRASS call when it reports a failure. *)
Definition linkage_entries (get_main_field_name : string → option string)
    (grass : string → string → string → string → bool * list string)
    (linkage_name snap feature_type : string) (m : string * string)
  : list ErrorManager.Entry :=
  let map_name :=
    match get_main_field_name feature_type with
    | Some _ => m.1 +:+ "_extract"
    | None => m.1
    end in
  let r := grass map_name linkage_name m.2 snap in
  if r.1 then ledger_entry feature_type EmptyString false <$> r.2 else [].

(** The entries the query of one column adds to the ledger: the messages
    of the GRASS call, as errors for a needed column and as warnings for
    the others, with code 20. *)
Definition column_entries (grass : string → string → bool → bool * list string)
    (map_name feature_type : string) (field : string * bool)
  : list ErrorManager.Entry :=
  ledger_entry feature_type "20" (negb field.2)
    <$> (grass map_name field.1 field.2).2.

(** A GRASS overlay for the examples: the overlay of map [b] fails. *)
Definition example_overlay (map_name linkage_name output_name snap : string)
  : bool * list string :=
  if bool_decide (map_name = "b"%string)
  then (true, ["overlay of b failed"%string])
  else (false, []).

(** A column query for the examples: every column is missing. *)
Definition example_column_query (map_name column : string) (needed : bool)
  : bool * list string :=
  (true, ["column " +:+ column +:+ " missing in " +:+ map_name]).

Definition example_columns_config : ConfigApp.t :=
  {| ConfigApp.get_process_msg :=
       λ msg_name,
         if bool_decide (msg_name = "check_basic_columns"%string)
         then "Check columns [{columns}] in [{map_name}]"%string
         else msg_name;
     ConfigApp.type_names := [("RiverProcess"%string, "river"%string)];
     ConfigApp.get_columns_to_save := λ _, 1;
     ConfigApp.get_order_criteria := λ _, "length"%string |}.

Definition example_columns_state : FeatureProcess.t :=
  {| FeatureProcess.class_name := "RiverProcess";
     FeatureProcess.config := example_columns_config;
     FeatureProcess.feature_type := "river";
     FeatureProcess.cells := [];
     FeatureProcess.cell_ids := [];
     FeatureProcess.map_names := [];
     FeatureProcess.features_by_map := [];
     FeatureProcess.summary := SummaryInfo.init "river" [] example_columns_config |}.

(** ** An interpreter run for the examples

    Sets are iterated in the order of [elements]; the examples use names of
    printable ASCII characters and templates with plain keyword fields, for
    which [str_repr] and [str_format] are not consulted. *)
Definition example_interpreter : Interpreter :=
  {| set_iter := λ _ _ X, elements X;
     set_iter_elements := λ _ _ X, reflexivity (elements X);
     str_repr := λ s, "'" +:+ s +:+ "'";
     str_format := λ _ _, None |}.

(** * Properties *)

(** ** Ordered dictionaries *)

Section odict_facts.
Context {K V : Type} `{EqDecision K}.
Implicit Types (k : K) (v : V) (d : list (K * V)).

Lemma od_get_set_eq k v d : od_get k (od_set k v d) = Some v.
Proof.
  induction d as [|[k' v'] d IH]; csimpl.
  - by rewrite decide_True.
  - destruct (decide (k = k')) as [->|Hne]; csimpl.
    + by rewrite decide_True.
    + by rewrite decide_False.
Qed.

Lemma od_get_set_ne k k' v d : k ≠ k' → od_get k' (od_set k v d) = od_get k' d.
Proof.
  intros Hne. induction d as [|[k0 v0] d IH]; csimpl.
  - by rewrite decide_False.
  - destruct (decide (k = k0)) as [->|Hne0]; csimpl.
    + by rewrite !decide_False.
    + by rewrite IH.
Qed.

Lemma od_get_None k d : od_get k d = None ↔ k ∉ d.*1.
Proof.
  induction d as [|[k' v'] d IH]; csimpl.
  - split; [intros _; apply not_elem_of_nil | done].
  - rewrite not_elem_of_cons. destruct (decide (k = k')) as [->|Hne].
    + split; [done | intros [? _]; done].
    + rewrite IH. tauto.
Qed.

Lemma od_get_Some_elem k v d : od_get k d = Some v → (k, v) ∈ d.
Proof.
  induction d as [|[k' v'] d IH]; csimpl; [done|].
  destruct (decide (k = k')) as [->|Hne].
  - intros [= ->]. apply list_elem_of_here.
  - intros Hg. apply list_elem_of_further. by apply IH.
Qed.

Lemma od_get_is_Some k d : is_Some (od_get k d) ↔ k ∈ d.*1.
Proof.
  destruct (od_get k d) as [v|] eqn:Hg.
  - split; [intros _ | by eauto].
    apply od_get_Some_elem in Hg.
    apply (list_elem_of_fmap_2 fst) in Hg. done.
  - split; [by intros [? ?] | intros Hin].
    apply od_get_None in Hg. done.
Qed.

(** A new key goes last. *)
Lemma od_set_fresh k v d : k ∉ d.*1 → od_set k v d = d ++ [(k, v)].
Proof.
  induction d as [|[k' v'] d IH]; csimpl; [done|].
  rewrite not_elem_of_cons. intros [Hne Hnin].
  rewrite decide_False by done. by rewrite IH.
Qed.

(** An existing key keeps its place. *)
Lemma od_set_keys k v d : k ∈ d.*1 → (od_set k v d).*1 = d.*1.
Proof.
  induction d as [|[k' v'] d IH]; csimpl.
  - by intros ?%elem_of_nil.
  - destruct (decide (k = k')) as [->|Hne]; csimpl; [done|].
    rewrite elem_of_cons. intros [?|Hin]; [done|]. by rewrite IH.
Qed.

Lemma od_set_keys_cases k v d :
  (od_set k v d).*1 = if decide (k ∈ d.*1) then d.*1 else d.*1 ++ [k].
Proof.
  destruct (decide (k ∈ d.*1)) as [Hin|Hnin].
  - by apply od_set_keys.
  - rewrite od_set_fresh by done. by rewrite fmap_app.
Qed.

Lemma od_set_id k v d : od_get k d = Some v → od_set k v d = d.
Proof.
  induction d as [|[k' v'] d IH]; csimpl; [done|].
  destruct (decide (k = k')) as [->|Hne].
  - by intros [= ->].
  - intros Hg. by rewrite IH.
Qed.

(** Replacing the value of a key that sits after a prefix without it. *)
Lemma od_set_middle k v v0 d1 d2 :
  k ∉ d1.*1 → od_set k v (d1 ++ (k, v0) :: d2) = d1 ++ (k, v) :: d2.
Proof.
  induction d1 as [|[k' v'] d1 IH]; csimpl.
  - intros _. by rewrite decide_True.
  - rewrite not_elem_of_cons. intros [Hne Hnin].
    rewrite decide_False by done. by rewrite IH.
Qed.

Lemma od_set_NoDup k v d : NoDup d.*1 → NoDup (od_set k v d).*1.
Proof.
  intros Hnd. rewrite od_set_keys_cases. case_decide; [done|].
  apply NoDup_app. split_and!; [done| |apply NoDup_singleton].
  intros x Hx ->%list_elem_of_singleton. done.
Qed.

Lemma od_set_Forall (P : K * V → Prop) k v d :
  Forall P d → P (k, v) → Forall P (od_set k v d).
Proof.
  intros Hd Hkv. induction Hd as [|[k' v'] d Hx Hd IH]; csimpl.
  - by constructor.
  - case_decide; subst; constructor; auto.
Qed.

Lemma od_set_elem k v d x : x ∈ od_set k v d → x = (k, v) ∨ x ∈ d.
Proof.
  induction d as [|[k' v'] d IH]; csimpl.
  - intros ->%list_elem_of_singleton. by left.
  - destruct (decide (k = k')) as [->|Hne]; rewrite !elem_of_cons.
    + intros [->|?]; auto.
    + intros [->|Hx]; [auto|]. apply IH in Hx as [->|?]; auto.
Qed.

(** With distinct keys, [dict(pairs)] keeps the pairs as they are. *)
Lemma od_of_list_app_NoDup (acc l : list (K * V)) :
  NoDup (acc ++ l).*1 →
  foldl (λ d kv, od_set kv.1 kv.2 d) acc l = acc ++ l.
Proof.
  revert acc. induction l as [|[k v] l IH]; intros acc Hnd; csimpl.
  - by rewrite app_nil_r.
  - rewrite od_set_fresh.
    + rewrite IH; rewrite <- app_assoc; done.
    + rewrite fmap_app in Hnd. apply NoDup_app in Hnd as (_ & Hd & _).
      intros Hin. apply (Hd k Hin). csimpl. apply list_elem_of_here.
Qed.

Lemma od_of_list_NoDup (l : list (K * V)) : NoDup l.*1 → od_of_list l = l.
Proof. intros Hnd. unfold od_of_list. by rewrite od_of_list_app_NoDup. Qed.

(** Writing a sequence of distinct keys over a dictionary that holds a
    prefix of them rewrites the dictionary into that sequence. *)
Lemma foldl_od_set_prefix (rs pre ids : list (K * V)) :
  NoDup (pre.*1 ++ rs.*1) → ids.*1 `prefix_of` rs.*1 →
  foldl (λ d kv, od_set kv.1 kv.2 d) (pre ++ ids) rs = pre ++ rs.
Proof.
  revert pre ids. induction rs as [|[k v] rs IH]; intros pre ids Hnd Hpre.
  - apply prefix_nil_inv, fmap_nil_inv in Hpre as ->. by rewrite app_nil_r.
  - csimpl in *.
    assert (k ∉ pre.*1) as Hk.
    { apply NoDup_app in Hnd as (_ & Hd & _). intros Hin.
      apply (Hd k Hin), list_elem_of_here. }
    assert (NoDup ((pre ++ [(k, v)]).*1 ++ rs.*1)) as Hnd'.
    { rewrite fmap_app, <- app_assoc. done. }
    destruct ids as [|[k' v'] ids]; csimpl in *.
    + rewrite app_nil_r, od_set_fresh by done.
      rewrite <- (app_nil_r (pre ++ [(k, v)])).
      rewrite IH; [by rewrite <- app_assoc|done|apply prefix_nil].
    + pose proof (prefix_cons_inv_1 _ _ _ _ Hpre) as ->.
      apply prefix_cons_inv_2 in Hpre.
      rewrite od_set_middle by done.
      rewrite (cons_middle (k, v) pre ids), app_assoc.
      rewrite IH; [by rewrite <- app_assoc|done|done].
Qed.

Lemma foldl_od_set_get (rs : list (K * V)) d k v :
  od_get k d = Some v → (∀ v', (k, v') ∈ rs → v' = v) →
  od_get k (foldl (λ d kv, od_set kv.1 kv.2 d) d rs) = Some v.
Proof.
  revert d. induction rs as [|[k' v'] rs IH]; intros d Hg Hf; csimpl; [done|].
  apply IH.
  - destruct (decide (k' = k)) as [->|Hne].
    + rewrite od_get_set_eq. f_equal. apply Hf, list_elem_of_here.
    + by rewrite od_get_set_ne.
  - intros v0 Hin. by apply Hf, list_elem_of_further.
Qed.

(** After writing a sequence in which a key has one value, each key of the
    sequence holds its value. *)
Lemma foldl_od_set_all (rs : list (K * V)) d k v :
  (∀ k v v', (k, v) ∈ rs → (k, v') ∈ rs → v = v') → (k, v) ∈ rs →
  od_get k (foldl (λ d kv, od_set kv.1 kv.2 d) d rs) = Some v.
Proof.
  revert d. induction rs as [|[k' v'] rs IH]; intros d Hf Hin; csimpl.
  - by apply elem_of_nil in Hin.
  - apply elem_of_cons in Hin as [[= -> ->]|Hin].
    + apply foldl_od_set_get; [apply od_get_set_eq|].
      intros v0 Hv0. symmetry.
      eapply Hf; [apply list_elem_of_here|by apply list_elem_of_further].
    + apply IH; [|done]. intros k0 v0 v0' H1 H2.
      eapply Hf; by apply list_elem_of_further.
Qed.

(** Writing values a dictionary already holds changes nothing. *)
Lemma foldl_od_set_fixed (rs : list (K * V)) d :
  (∀ k v, (k, v) ∈ rs → od_get k d = Some v) →
  foldl (λ d kv, od_set kv.1 kv.2 d) d rs = d.
Proof.
  induction rs as [|[k v] rs IH]; intros Hall; csimpl; [done|].
  rewrite od_set_id by apply Hall, list_elem_of_here.
  apply IH. intros k' v' Hin. by apply Hall, list_elem_of_further.
Qed.
End odict_facts.

(** ** The stable descending sort *)

Lemma filter_fmap {A B : Type} (g : A → B) (P : B → Prop)
    `{∀ b, Decision (P b)} (l : list A) :
  filter P (g <$> l) = g <$> filter (λ a, P (g a)) l.
Proof.
  induction l as [|a l IH]; [done|]. csimpl.
  rewrite (filter_cons _ (g a)), (filter_cons _ a), IH.
  by case_decide.
Qed.

Section py_sorted_facts.
Context {A : Type} (f : A → Z).
Implicit Types (x y : pyval * A) (l : list (pyval * A)).

(** The key paired with an item is the integer [f] gives for it. *)
Let keyed (x : pyval * A) : Prop := x.1 = VInt (f x.2).
Let ge (x y : pyval * A) : Prop := f y.2 ≤ f x.2.

Lemma insert_desc_is_Some x l :
  keyed x → Forall keyed l → is_Some (insert_desc x l).
Proof.
  intros Ha Hl. induction Hl as [|y l Hb Hl IH]; simpl; [by eexists|].
  rewrite Ha, Hb. simpl. destruct (f x.2 <? f y.2); [|by eexists].
  destruct IH as [l'' ->]. by eexists.
Qed.

Lemma insert_desc_perm x l l' : insert_desc x l = Some l' → l' ≡ₚ x :: l.
Proof.
  revert l'. induction l as [|y l IH]; intros l'; simpl.
  - by intros [= <-].
  - destruct (py_lt x.1 y.1) as [[|]|]; simpl; [|by intros [= <-]|done].
    destruct (insert_desc x l) as [l''|]; simpl; [|done].
    intros [= <-]. rewrite (IH l'' eq_refl). apply Permutation_swap.
Qed.

Lemma insert_desc_sorted x l l' :
  keyed x → Forall keyed l → StronglySorted ge l →
  insert_desc x l = Some l' → StronglySorted ge l'.
Proof.
  intros Ha Hl. revert l'.
  induction Hl as [|y l Hb Hl IH]; intros l' Hs; simpl.
  - intros [= <-]. repeat constructor.
  - rewrite Ha, Hb. simpl.
    apply StronglySorted_inv in Hs as [Hs Hy].
    destruct (f x.2 <? f y.2) eqn:Hab; simpl.
    + destruct (insert_desc x l) as [l''|] eqn:Hins; simpl; [|done].
      intros [= <-]. constructor; [by apply IH|].
      rewrite (insert_desc_perm _ _ _ Hins). constructor; [|done].
      unfold ge. lia.
    + intros [= <-]. constructor; [by constructor|].
      assert (ge x y) as Hxy by (unfold ge; lia).
      constructor; [done|].
      eapply Forall_impl; [exact Hy|]. unfold ge in *. intros z ?; lia.
Qed.

(** Items with the same key stay in the order they had. *)
Lemma insert_desc_stable (m : Z) x l l' :
  keyed x → Forall keyed l → insert_desc x l = Some l' →
  filter (λ y, f y.2 = m) l' = filter (λ y, f y.2 = m) (x :: l).
Proof.
  intros Ha Hl. revert l'.
  induction Hl as [|y l Hb Hl IH]; intros l'; simpl.
  - by intros [= <-].
  - rewrite Ha, Hb. simpl.
    destruct (f x.2 <? f y.2) eqn:Hab; simpl; [|by intros [= <-]].
    destruct (insert_desc x l) as [l''|] eqn:Hins; simpl; [|done].
    intros [= <-]. specialize (IH l'' eq_refl).
    rewrite (filter_cons _ y l''), IH, !(filter_cons _ x), !(filter_cons _ y).
    apply Z.ltb_lt in Hab.
    repeat case_decide; try done; lia.
Qed.

Lemma sort_desc_is_Some l :
  Forall keyed l →
  ∃ l', sort_desc l = Some l' ∧ l' ≡ₚ l ∧ StronglySorted ge l'.
Proof.
  induction 1 as [|x l Hx Hl (s & Hs & Hp & Hsorted)]; simpl.
  - exists []. repeat split; constructor.
  - rewrite Hs. simpl.
    assert (Forall keyed s) as Hsi by (by rewrite Hp).
    destruct (insert_desc_is_Some x s Hx Hsi) as [l' Hl'].
    exists l'. split_and!; [done| |].
    + rewrite (insert_desc_perm _ _ _ Hl'). by constructor.
    + by eapply insert_desc_sorted.
Qed.

Lemma sort_desc_stable (m : Z) l l' :
  Forall keyed l → sort_desc l = Some l' →
  filter (λ y, f y.2 = m) l' = filter (λ y, f y.2 = m) l.
Proof.
  intros Hl. revert l'. induction Hl as [|x l Hx Hl IH]; intros l'; simpl.
  - by intros [= <-].
  - destruct (sort_desc_is_Some l Hl) as (s & Hs & Hp & _).
    rewrite Hs. simpl. intros Hins.
    assert (Forall keyed s) as Hsi by (by rewrite Hp).
    rewrite (insert_desc_stable m _ _ _ Hx Hsi Hins).
    rewrite !(filter_cons _ x). by rewrite (IH s Hs).
Qed.

(** [sorted(l, key=..., reverse=True)] when every key is an integer. *)
Lemma py_sorted_reverse_spec (key : A → option pyval) (items : list A) :
  Forall (λ a, key a = Some (VInt (f a))) items →
  ∃ out, py_sorted_reverse key items = Some out
         ∧ out ≡ₚ items
         ∧ StronglySorted (λ a b, f b ≤ f a) out
         ∧ ∀ m, filter (λ a, f a = m) out = filter (λ a, f a = m) items.
Proof.
  intros Hl. unfold py_sorted_reverse.
  set (kl := (λ a, (VInt (f a), a)) <$> items).
  assert (mapM (λ a, k ← key a; Some (k, a)) items = Some kl) as ->.
  { apply mapM_Some_2. unfold kl. apply Forall2_fmap_r.
    induction Hl as [|a items Ha Hl IH]; constructor; [|done].
    rewrite Ha. done. }
  simpl.
  assert (Forall keyed kl) as Hkl.
  { unfold kl. rewrite Forall_fmap. apply Forall_true. done. }
  assert (kl.*2 = items) as Hkl2.
  { unfold kl. rewrite <- list_fmap_compose. apply list_fmap_id. }
  destruct (sort_desc_is_Some kl Hkl) as (s & Hs & Hp & Hsorted).
  rewrite Hs. simpl. exists (s.*2). split_and!; [done| | |].
  - by rewrite Hp, Hkl2.
  - by apply (StronglySorted_fmap snd ge).
  - intros m. rewrite <- Hkl2.
    rewrite !(filter_fmap snd (λ a, f a = m)).
    f_equal. by apply sort_desc_stable.
Qed.
End py_sorted_facts.

(** ** Ordering of the candidates of a cell *)

(** With integer metrics the ordering returns a rearrangement of the
    candidates of the cell. *)
Lemma cell_order_criteria_default_is_Some cell cells_dict by_field area_targets :
  od_get cell cells_dict = Some area_targets →
  Forall (has_metric by_field) area_targets.*2 →
  ∃ ordered,
    FeatureProcess._cell_order_criteria_default cell cells_dict by_field
      = Some ordered
    ∧ ordered ≡ₚ area_targets.*2.
Proof.
  intros Hget Hm.
  unfold FeatureProcess._cell_order_criteria_default. rewrite Hget. simpl.
  destruct (py_sorted_reverse_spec (λ x : string * Data, metric_of by_field x.2)
              (λ x : string * Data, od_get by_field x.2) area_targets)
    as (out & Hout & Hp & _).
  { rewrite Forall_fmap in Hm. eapply Forall_impl; [exact Hm|].
    intros [n d] [z Hz]. unfold metric_of. simpl in *. by rewrite Hz. }
  rewrite Hout. simpl. exists (out.*2). split; [done|]. by rewrite Hp.
Qed.

(** C3. The list [_cell_order_criteria_default] returns for a cell holds the
    candidates of the cell, sorted by the metric field in descending order,
    and candidates with the same metric keep the order in which they were
    inserted; candidates "x", "y", "z" inserted in that order with metrics
    5, 5, 9 come out as "z", "x", "y". *)
Theorem cell_order_criteria_default_sorted_stable :
  (∀ cell cells_dict by_field area_targets,
      od_get cell cells_dict = Some area_targets →
      Forall (has_metric by_field) area_targets.*2 →
      ∃ ordered,
        FeatureProcess._cell_order_criteria_default cell cells_dict by_field
          = Some ordered
        ∧ ordered ≡ₚ area_targets.*2
        ∧ StronglySorted
            (λ a b, metric_of by_field b ≤ metric_of by_field a) ordered
        ∧ ∀ m, filter (λ d, metric_of by_field d = m) ordered
               = filter (λ d, metric_of by_field d = m) area_targets.*2)
  ∧ (s1 ← FeatureProcess._set_cell example_cell "x" (candidate "x" "main" 1 5)
            "area" (example_state "CatchmentProcess" "catchment");
     s2 ← FeatureProcess._set_cell example_cell "y" (candidate "y" "main" 1 5)
            "area" s1;
     s3 ← FeatureProcess._set_cell example_cell "z" (candidate "z" "main" 1 9)
            "area" s2;
     ordered ← FeatureProcess._cell_order_criteria_default example_cell
                 (FeatureProcess.cells s3) "area";
     mapM (od_get "name"%string) ordered)
    = Some [VStr "z"; VStr "x"; VStr "y"].
Proof.
  split; [|by vm_compute].
  intros cell cells_dict by_field area_targets Hget Hm.
  unfold FeatureProcess._cell_order_criteria_default. rewrite Hget. simpl.
  destruct (py_sorted_reverse_spec (λ x : string * Data, metric_of by_field x.2)
              (λ x : string * Data, od_get by_field x.2) area_targets)
    as (out & Hout & Hp & Hs & Hst).
  { rewrite Forall_fmap in Hm. eapply Forall_impl; [exact Hm|].
    intros [n d] [z Hz]. unfold metric_of. simpl in *. by rewrite Hz. }
  rewrite Hout. simpl. exists (out.*2). split_and!; [done| | |].
  - by rewrite Hp.
  - by apply (StronglySorted_fmap snd
                (λ a b : string * Data, metric_of by_field b.2 ≤ metric_of by_field a.2)).
  - intros m. rewrite !(filter_fmap snd (λ d, metric_of by_field d = m)).
    f_equal. apply Hst.
Qed.

Lemma cell_order_criteria_default_sorted_stable_witness :
  ∃ ordered,
    FeatureProcess._cell_order_criteria_default example_cell
      [(example_cell,
        [("x"%string, candidate "x" "main" 1 5);
         ("y"%string, candidate "y" "main" 1 5);
         ("z"%string, candidate "z" "main" 1 9)])] "area" = Some ordered
    ∧ StronglySorted (λ a b, metric_of "area" b ≤ metric_of "area" a) ordered.
Proof.
  destruct (proj1 cell_order_criteria_default_sorted_stable example_cell
              [(example_cell,
                [("x"%string, candidate "x" "main" 1 5);
                 ("y"%string, candidate "y" "main" 1 5);
                 ("z"%string, candidate "z" "main" 1 9)])] "area"%string
              [("x"%string, candidate "x" "main" 1 5);
               ("y"%string, candidate "y" "main" 1 5);
               ("z"%string, candidate "z" "main" 1 9)])
    as (ordered & H1 & _ & H3 & _).
  - reflexivity.
  - repeat constructor; eexists; reflexivity.
  - exists ordered. split; assumption.
Defined.

(** ** Accumulation of candidates *)

Lemma filter_key_absent {V : Type} (k : string) (d : list (string * V)) :
  k ∉ d.*1 → filter (λ kv, kv.1 = k) d = [].
Proof.
  induction d as [|[k' v] d IH]; [done|]. csimpl.
  rewrite not_elem_of_cons. intros [Hne Hnin].
  rewrite filter_cons_False by (simpl; congruence). by apply IH.
Qed.

Lemma set_cell_new cell area_name data by_field s :
  od_get cell (FeatureProcess.cells s) ≫= od_get area_name = None →
  FeatureProcess._set_cell cell area_name data by_field s
  = Some (FeatureProcess.with_cells
            (od_set cell
               (default [] (od_get cell (FeatureProcess.cells s))
                  ++ [(area_name, data)])
               (FeatureProcess.cells s)) s).
Proof.
  unfold FeatureProcess._set_cell.
  destruct (od_get cell (FeatureProcess.cells s)) as [areas|]; simpl; [|done].
  intros Hnone. rewrite Hnone. rewrite (od_set_fresh area_name); [done|].
  by apply od_get_None.
Qed.

Lemma set_cell_existing cell area_name data by_field s areas stored m0 m :
  od_get cell (FeatureProcess.cells s) = Some areas →
  od_get area_name areas = Some stored →
  od_get by_field stored = Some (VInt m0) →
  od_get by_field data = Some (VInt m) →
  FeatureProcess._set_cell cell area_name data by_field s
  = Some (FeatureProcess.with_cells
            (od_set cell
               (od_set area_name (od_set by_field (VInt (m0 + m)) stored) areas)
               (FeatureProcess.cells s)) s).
Proof.
  intros Hc Ha Hs Hd. unfold FeatureProcess._set_cell.
  rewrite Hc, Ha, Hd. simpl. rewrite Hs. done.
Qed.

(** C2. Accumulating a candidate for a (cell, name) pair that is not yet
    present creates an entry holding the given data; accumulating a second
    candidate for the same pair leaves exactly one entry for the name at the
    cell, whose metric field is the sum of the two metrics. *)
Theorem set_cell_accumulates_metric cell area_name data1 data2 by_field m1 m2 s :
  od_get cell (FeatureProcess.cells s) ≫= od_get area_name = None →
  od_get by_field data1 = Some (VInt m1) →
  od_get by_field data2 = Some (VInt m2) →
  ∃ s1 s2 areas1 areas2 merged,
    FeatureProcess._set_cell cell area_name data1 by_field s = Some s1
    ∧ od_get cell (FeatureProcess.cells s1) = Some areas1
    ∧ filter (λ kv, kv.1 = area_name) areas1 = [(area_name, data1)]
    ∧ FeatureProcess._set_cell cell area_name data2 by_field s1 = Some s2
    ∧ od_get cell (FeatureProcess.cells s2) = Some areas2
    ∧ filter (λ kv, kv.1 = area_name) areas2 = [(area_name, merged)]
    ∧ merged = od_set by_field (VInt (m1 + m2)) data1
    ∧ od_get by_field merged = Some (VInt (m1 + m2)).
Proof.
  intros Hnew Hm1 Hm2.
  set (areas0 := default [] (od_get cell (FeatureProcess.cells s))).
  assert (area_name ∉ areas0.*1) as Hfresh.
  { unfold areas0. destruct (od_get cell (FeatureProcess.cells s)); simpl in *.
    - by apply od_get_None.
    - apply not_elem_of_nil. }
  set (areas1 := areas0 ++ [(area_name, data1)]).
  set (merged := od_set by_field (VInt (m1 + m2)) data1).
  set (s1 := FeatureProcess.with_cells
               (od_set cell areas1 (FeatureProcess.cells s)) s).
  assert (od_get cell (FeatureProcess.cells s1) = Some areas1) as Hc1
    by apply od_get_set_eq.
  assert (od_get area_name areas1 = Some data1) as Ha1.
  { unfold areas1. rewrite <- (od_set_fresh _ _ _ Hfresh). apply od_get_set_eq. }
  eexists s1, _, areas1, (areas0 ++ [(area_name, merged)]), merged.
  split_and!.
  - by apply set_cell_new.
  - done.
  - unfold areas1. rewrite filter_app, filter_key_absent by done.
    by rewrite filter_cons_True.
  - rewrite (set_cell_existing _ _ _ _ _ _ _ _ _ Hc1 Ha1 Hm1 Hm2).
    unfold areas1 at 1. rewrite od_set_middle by done. reflexivity.
  - apply od_get_set_eq.
  - rewrite filter_app, filter_key_absent by done.
    by rewrite filter_cons_True.
  - done.
  - apply od_get_set_eq.
Qed.

Lemma set_cell_accumulates_metric_witness :
  ∃ s2 areas2,
    (FeatureProcess._set_cell example_cell "A" (candidate "A" "main" 1 3) "area"
       (example_state "CatchmentProcess" "catchment")
     ≫= FeatureProcess._set_cell example_cell "A" (candidate "A" "main" 1 4) "area")
    = Some s2
    ∧ od_get example_cell (FeatureProcess.cells s2) = Some areas2
    ∧ filter (λ kv, kv.1 = "A"%string) areas2
      = [("A"%string, candidate "A" "main" 1 7)].
Proof.
  destruct (set_cell_accumulates_metric example_cell "A"
              (candidate "A" "main" 1 3) (candidate "A" "main" 1 4) "area" 3 4
              (example_state "CatchmentProcess" "catchment"))
    as (s1 & s2 & areas1 & areas2 & merged & H1 & _ & _ & H2 & H3 & H4 & H5 & _);
    [reflexivity..|].
  exists s2, areas2. rewrite H1. simpl. rewrite H2, H3, H4, H5.
  split_and!; reflexivity.
Defined.

(** ** Resolution *)

Section resolution.
Variable criteria_func :
  Cell.t → list (Cell.t * list (string * Data)) → string → option (list Data).
Variable by_field : string.

Let record_of (cells_dict : list (Cell.t * list (string * Data)))
    (cell : Cell.t) : option (Cell.t * FeatureProcess.CellRecord) :=
  r ← FeatureProcess.cell_record criteria_func by_field cells_dict cell;
  Some (cell, r).

Lemma with_cell_ids_same s :
  FeatureProcess.with_cell_ids (FeatureProcess.cell_ids s) s = s.
Proof. by destruct s. Qed.

(** The loop writes, in order, the record of each cell it visits. *)
Lemma set_cell_by_criteria_loop ks s :
  for_each (FeatureProcess.set_cell_record criteria_func by_field) s ks
  = rs ← mapM (record_of (FeatureProcess.cells s)) ks;
    Some (FeatureProcess.with_cell_ids
            (foldl (λ d kv, od_set kv.1 kv.2 d) (FeatureProcess.cell_ids s) rs) s).
Proof.
  assert (∀ s c,
            FeatureProcess.set_cell_record criteria_func by_field s c
            = r ← FeatureProcess.cell_record criteria_func by_field
                    (FeatureProcess.cells s) c;
              Some (FeatureProcess.with_cell_ids
                      (od_set c r (FeatureProcess.cell_ids s)) s)) as Hbody
    by done.
  unfold record_of in *.
  revert s. induction ks as [|c ks IH]; intros s.
  - simpl. by rewrite with_cell_ids_same.
  - cbn [for_each mapM]. rewrite Hbody.
    destruct (FeatureProcess.cell_record criteria_func by_field
                (FeatureProcess.cells s) c) as [r|]; [|done].
    cbn [mbind option_bind]. rewrite IH.
    cbn [FeatureProcess.cells FeatureProcess.with_cell_ids].
    destruct (mapM _ ks); done.
Qed.

Lemma record_of_keys cells_dict ks rs :
  mapM (record_of cells_dict) ks = Some rs → rs.*1 = ks.
Proof.
  intros H%mapM_Some_1. induction H as [|c [c' r] ks rs Hc _ IH]; [done|].
  csimpl. rewrite IH. f_equal. unfold record_of in Hc.
  destruct (FeatureProcess.cell_record _ _ _ _); simpl in Hc; [|done].
  by injection Hc as <- _.
Qed.

Lemma record_of_elem cells_dict ks rs c r :
  mapM (record_of cells_dict) ks = Some rs → (c, r) ∈ rs →
  FeatureProcess.cell_record criteria_func by_field cells_dict c = Some r.
Proof.
  intros H%mapM_Some_1 Hin. induction H as [|c0 cr ks rs Hc _ IH].
  - by apply elem_of_nil in Hin.
  - apply elem_of_cons in Hin as [<-|Hin]; [|by apply IH].
    unfold record_of in Hc.
    destruct (FeatureProcess.cell_record _ _ _ c0) eqn:Hr; simpl in Hc; [|done].
    injection Hc as <- <-. exact Hr.
Qed.

Lemma set_cell_by_criteria_unfold s :
  FeatureProcess._set_cell_by_criteria criteria_func by_field s
  = rs ← mapM (record_of (FeatureProcess.cells s)) (FeatureProcess.cells s).*1;
    Some (FeatureProcess.with_cell_ids
            (foldl (λ d kv, od_set kv.1 kv.2 d) (FeatureProcess.cell_ids s) rs) s).
Proof. apply set_cell_by_criteria_loop. Qed.

(** Resolving a resolved state changes nothing. *)
Lemma set_cell_by_criteria_idempotent s s1 :
  FeatureProcess._set_cell_by_criteria criteria_func by_field s = Some s1 →
  FeatureProcess._set_cell_by_criteria criteria_func by_field s1 = Some s1.
Proof.
  rewrite !set_cell_by_criteria_unfold.
  destruct (mapM (record_of (FeatureProcess.cells s)) (FeatureProcess.cells s).*1)
    as [rs|] eqn:Hrs; simpl; [|done].
  intros [= <-]. simpl. rewrite Hrs. simpl. f_equal.
  rewrite foldl_od_set_fixed; [done|].
  intros c r Hin. apply foldl_od_set_all; [|done].
  intros c' r1 r2 H1 H2.
  pose proof (record_of_elem _ _ _ _ _ Hrs H1).
  pose proof (record_of_elem _ _ _ _ _ Hrs H2). congruence.
Qed.

(** From a state that satisfies the invariant, the resolved records are the
    records of the cells, whatever was resolved before. *)
Lemma set_cell_by_criteria_fresh s s1 :
  aggregator_inv s →
  FeatureProcess._set_cell_by_criteria criteria_func by_field s = Some s1 →
  mapM (record_of (FeatureProcess.cells s)) (FeatureProcess.cells s).*1
  = Some (FeatureProcess.cell_ids s1)
  ∧ s1 = FeatureProcess.with_cell_ids (FeatureProcess.cell_ids s1) s.
Proof.
  intros [Hnd Hpre]. rewrite set_cell_by_criteria_unfold.
  destruct (mapM (record_of (FeatureProcess.cells s)) (FeatureProcess.cells s).*1)
    as [rs|] eqn:Hrs; simpl; [|done].
  intros [= <-]. simpl.
  pose proof (record_of_keys _ _ _ Hrs) as Hk.
  pose proof (foldl_od_set_prefix rs [] (FeatureProcess.cell_ids s)) as Hf.
  simpl in Hf. rewrite Hf; [done| |]; by rewrite Hk.
Qed.
End resolution.

(** ** The record of a cell *)

Lemma py_getitem_0 {A : Type} (l : list A) : py_getitem l 0 = head l.
Proof.
  unfold py_getitem. destruct l as [|x l].
  - repeat case_bool_decide; try done; simpl in *; lia.
  - rewrite bool_decide_true by (rewrite length_cons; lia). done.
Qed.


(** With well-formed candidates the record of a cell exists. *)
Lemma cell_record_default_is_Some by_field cells_dict cell areas :
  od_get cell cells_dict = Some areas → areas ≠ [] →
  Forall (wf_candidate by_field) areas.*2 →
  ∃ r, FeatureProcess.cell_record FeatureProcess._cell_order_criteria_default
         by_field cells_dict cell = Some r
       ∧ FeatureProcess.data r ≡ₚ areas.*2.
Proof.
  intros Hget Hne Hwf.
  destruct (cell_order_criteria_default_is_Some cell cells_dict by_field areas)
    as (ordered & Hord & Hp); [done| |].
  { eapply Forall_impl; [exact Hwf|]. by intros d [? _]. }
  unfold FeatureProcess.cell_record. rewrite Hord. simpl. rewrite py_getitem_0.
  destruct ordered as [|first rest].
  - apply Permutation_nil_l in Hp. symmetry in Hp.
    apply fmap_nil_inv in Hp. done.
  - simpl.
    assert (first ∈ areas.*2) as Hin by (rewrite <- Hp; apply list_elem_of_here).
    rewrite Forall_forall in Hwf. destruct (Hwf _ Hin) as [_ [cid Hcid]].
    rewrite Hcid. simpl. eexists. split; [done|]. done.
Qed.

(** ** Invariants of the aggregator *)

Lemma od_set_nonempty {K V : Type} `{EqDecision K} (k : K) (v : V) d :
  od_set k v d ≠ [].
Proof. destruct d as [|[k' v'] d]; simpl; [done|]. by case_decide. Qed.

Lemma wf_candidate_merge by_field stored data :
  wf_candidate by_field stored → wf_candidate by_field data →
  ∃ m0 m,
    od_get by_field stored = Some (VInt m0)
    ∧ od_get by_field data = Some (VInt m)
    ∧ wf_candidate by_field (od_set by_field (VInt (m0 + m)) stored).
Proof.
  intros [[m0 Hm0] Hc0] [[m Hm] _]. exists m0, m. split_and!; [done..|].
  split.
  - eexists. apply od_get_set_eq.
  - destruct (decide (by_field = "cell_id"%string)) as [->|Hne].
    + rewrite od_get_set_eq. by eexists.
    + by rewrite od_get_set_ne.
Qed.

Lemma wf_cells_lookup by_field cells_dict cell areas :
  wf_cells by_field cells_dict → od_get cell cells_dict = Some areas →
  areas ≠ [] ∧ Forall (wf_candidate by_field) areas.*2.
Proof.
  intros Hwf Hget%od_get_Some_elem.
  unfold wf_cells in Hwf. rewrite Forall_forall in Hwf.
  apply (Hwf _ Hget).
Qed.

(** [_set_cell] returns on well-formed input, writes one cell of [cells] and
    keeps the invariants. *)
Lemma set_cell_ok by_field cell area_name data s :
  aggregator_inv s → wf_cells by_field (FeatureProcess.cells s) →
  wf_candidate by_field data →
  ∃ s' areas',
    FeatureProcess._set_cell cell area_name data by_field s = Some s'
    ∧ s' = FeatureProcess.with_cells
             (od_set cell areas' (FeatureProcess.cells s)) s
    ∧ aggregator_inv s' ∧ wf_cells by_field (FeatureProcess.cells s').
Proof.
  intros [Hnd Hpre] Hwf Hd.
  assert (∀ areas',
            areas' ≠ [] → Forall (wf_candidate by_field) areas'.*2 →
            let s' := FeatureProcess.with_cells
                        (od_set cell areas' (FeatureProcess.cells s)) s in
            aggregator_inv s' ∧ wf_cells by_field (FeatureProcess.cells s'))
    as Hkeep.
  { intros areas' Hne Hall. simpl. split; [split|]; simpl.
    - by apply od_set_NoDup.
    - rewrite od_set_keys_cases. case_decide; [done|]. by apply prefix_app_r.
    - apply od_set_Forall; [done|]. by split. }
  destruct (od_get cell (FeatureProcess.cells s)) as [areas|] eqn:Hc.
  - destruct (wf_cells_lookup _ _ _ _ Hwf Hc) as [Hne Hall].
    destruct (od_get area_name areas) as [stored|] eqn:Ha.
    + assert (wf_candidate by_field stored) as Hs.
      { rewrite Forall_forall in Hall. apply Hall.
        apply od_get_Some_elem in Ha.
        by apply (list_elem_of_fmap_2 snd) in Ha. }
      destruct (wf_candidate_merge _ _ _ Hs Hd) as (m0 & m & Hm0 & Hm & Hwfm).
      eexists _, _. split; [by eapply set_cell_existing|].
      split; [done|]. apply Hkeep; [apply od_set_nonempty|].
      rewrite Forall_fmap. apply od_set_Forall; [by rewrite <- Forall_fmap|done].
    + eexists _, _. split.
      { apply set_cell_new. by rewrite Hc. }
      rewrite Hc. simpl. split; [done|]. apply Hkeep.
      * by destruct areas.
      * rewrite fmap_app, Forall_app. split; [done|].
        csimpl. by constructor.
  - eexists _, _. split.
    { apply set_cell_new. by rewrite Hc. }
    rewrite Hc. simpl. split; [done|]. apply Hkeep; [done|].
    csimpl. by constructor.
Qed.

(** Resolution returns on a well-formed state and keeps the invariants; its
    records are those of the accumulated cells. *)
Lemma resolve_ok by_field s :
  aggregator_inv s → wf_cells by_field (FeatureProcess.cells s) →
  ∃ s',
    resolve by_field s = Some s'
    ∧ resolved_records by_field (FeatureProcess.cells s)
      = Some (FeatureProcess.cell_ids s')
    ∧ s' = FeatureProcess.with_cell_ids (FeatureProcess.cell_ids s') s
    ∧ aggregator_inv s' ∧ wf_cells by_field (FeatureProcess.cells s').
Proof.
  intros Hinv Hwf.
  assert (is_Some (resolve by_field s)) as [s' Hs'].
  { unfold resolve. rewrite set_cell_by_criteria_unfold.
    destruct (mapM_is_Some_2
                (λ cell,
                   r ← FeatureProcess.cell_record
                         FeatureProcess._cell_order_criteria_default by_field
                         (FeatureProcess.cells s) cell;
                   Some (cell, r))
                (FeatureProcess.cells s).*1) as [rs Hrs].
    - rewrite Forall_forall. intros c Hc. simpl.
      apply od_get_is_Some in Hc as [areas Hget].
      destruct (wf_cells_lookup _ _ _ _ Hwf Hget) as [Hne Hall].
      destruct (cell_record_default_is_Some _ _ _ _ Hget Hne Hall) as (r & -> & _).
      by eexists.
    - rewrite Hrs. by eexists. }
  exists s'. split; [done|].
  destruct (set_cell_by_criteria_fresh _ _ _ _ Hinv Hs') as [Hrec Heq].
  split; [exact Hrec|]. split; [exact Heq|].
  rewrite Heq. simpl. destruct Hinv as [Hnd _]. split; [split|]; simpl; [done| |done].
  apply record_of_keys in Hrec. by rewrite Hrec.
Qed.

Lemma for_each_app {S A : Type} (body : S → A → option S) s (l1 l2 : list A) :
  for_each body s (l1 ++ l2) = for_each body s l1 ≫= λ s', for_each body s' l2.
Proof.
  revert s. induction l1 as [|x l1 IH]; intros s; simpl; [done|].
  destruct (body s x) as [s'|]; simpl; [apply IH|done].
Qed.

Lemma od_get_elem_NoDup {K V : Type} `{EqDecision K} (k : K) (v : V) d :
  NoDup d.*1 → (k, v) ∈ d → od_get k d = Some v.
Proof.
  induction d as [|[k' v'] d IH]; csimpl; intros Hnd Hin.
  - by apply elem_of_nil in Hin.
  - apply NoDup_cons in Hnd as [Hk Hnd].
    apply elem_of_cons in Hin as [[= -> ->]|Hin].
    + by rewrite decide_True.
    + rewrite decide_False; [by apply IH|].
      intros ->. apply Hk. by apply (list_elem_of_fmap_2 fst) in Hin.
Qed.

Lemma accumulate_all_ok by_field frags s :
  aggregator_inv s → wf_cells by_field (FeatureProcess.cells s) →
  Forall (λ fr : Fragment, wf_candidate by_field fr.2) frags →
  ∃ s', accumulate_all by_field frags s = Some s'
        ∧ aggregator_inv s' ∧ wf_cells by_field (FeatureProcess.cells s').
Proof.
  intros Hinv Hwf Hfr. revert s Hinv Hwf.
  induction Hfr as [|[[c n] d] frags Hd _ IH]; intros s Hinv Hwf.
  - by exists s.
  - destruct (set_cell_ok by_field c n d s Hinv Hwf Hd)
      as (s' & areas' & Hs' & _ & Hinv' & Hwf').
    destruct (IH s' Hinv' Hwf') as (s'' & Hs'' & ? & ?).
    exists s''. split; [|done].
    unfold accumulate_all in *. simpl. rewrite Hs'. done.
Qed.

(** C4. Resolution is idempotent: resolving a second time returns the same
    state, records included. It is re-runnable: after further accumulation a
    new resolution returns, and its records are those the accumulated state
    alone determines, so every earlier record is replaced and each cell's
    record holds the cell's candidates with their updated data. *)
Theorem resolve_idempotent_and_rerunnable by_field s frags :
  aggregator_inv s → wf_cells by_field (FeatureProcess.cells s) →
  Forall (λ fr : Fragment, wf_candidate by_field fr.2) frags →
  ∃ s1 s2 s3,
    resolve by_field s = Some s1
    ∧ resolve by_field s1 = Some s1
    ∧ resolved_records by_field (FeatureProcess.cells s)
      = Some (FeatureProcess.cell_ids s1)
    ∧ accumulate_all by_field frags s1 = Some s2
    ∧ resolve by_field s2 = Some s3
    ∧ FeatureProcess.cells s3 = FeatureProcess.cells s2
    ∧ resolved_records by_field (FeatureProcess.cells s2)
      = Some (FeatureProcess.cell_ids s3)
    ∧ ∀ c areas,
        od_get c (FeatureProcess.cells s2) = Some areas →
        ∃ r, od_get c (FeatureProcess.cell_ids s3) = Some r
             ∧ FeatureProcess.data r ≡ₚ areas.*2.
Proof.
  intros Hinv Hwf Hfr.
  destruct (resolve_ok by_field s Hinv Hwf) as (s1 & Hs1 & Hrec1 & _ & Hinv1 & Hwf1).
  destruct (accumulate_all_ok by_field frags s1 Hinv1 Hwf1 Hfr)
    as (s2 & Hs2 & Hinv2 & Hwf2).
  destruct (resolve_ok by_field s2 Hinv2 Hwf2) as (s3 & Hs3 & Hrec3 & Heq3 & _ & _).
  exists s1, s2, s3. split_and!; try done.
  - by eapply set_cell_by_criteria_idempotent.
  - by rewrite Heq3.
  - intros c areas Hget.
    destruct (wf_cells_lookup _ _ _ _ Hwf2 Hget) as [Hne Hall].
    destruct (cell_record_default_is_Some _ _ _ _ Hget Hne Hall) as (r & Hr & Hp).
    exists r. split; [|done].
    pose proof (record_of_keys _ _ _ _ _ Hrec3) as Hkeys.
    assert (c ∈ (FeatureProcess.cell_ids s3).*1) as Hin.
    { rewrite Hkeys. apply od_get_is_Some. by eexists. }
    apply od_get_is_Some in Hin as [r' Hr'].
    rewrite Hr'. f_equal.
    pose proof (record_of_elem _ _ _ _ _ _ _ Hrec3 (od_get_Some_elem _ _ _ Hr')).
    congruence.
Qed.

Lemma example_accumulated_inv : aggregator_inv example_accumulated.
Proof.
  split; simpl.
  - apply NoDup_singleton.
  - apply prefix_nil.
Defined.

Lemma example_accumulated_wf : wf_cells "area" (FeatureProcess.cells example_accumulated).
Proof.
  repeat constructor; try done; simpl; by eexists.
Defined.

Lemma example_fragments_wf :
  Forall (λ fr : Fragment, wf_candidate "area" fr.2) example_fragments.
Proof.
  repeat constructor; simpl; by eexists.
Defined.

Lemma resolve_idempotent_and_rerunnable_witness :
  ∃ s1 s2 s3,
    resolve "area" example_accumulated = Some s1
    ∧ resolve "area" s1 = Some s1
    ∧ accumulate_all "area" example_fragments s1 = Some s2
    ∧ resolve "area" s2 = Some s3
    ∧ resolved_records "area" (FeatureProcess.cells s2)
      = Some (FeatureProcess.cell_ids s3).
Proof.
  destruct (resolve_idempotent_and_rerunnable "area" example_accumulated
              example_fragments example_accumulated_inv example_accumulated_wf
              example_fragments_wf)
    as (s1 & s2 & s3 & H1 & H2 & _ & H4 & H5 & _ & H7 & _).
  exists s1, s2, s3. split_and!; assumption.
Defined.

(** ** Cells of the resolved mapping *)





(** ** Queries of the resolved mapping *)

Lemma select_by_map_spec map_name records :
  Forall (λ d, is_Some (od_get "map_name"%string d)) records →
  FeatureProcess.select_by_map map_name records
  = Some (filter (λ d, od_get "map_name"%string d = Some (VStr map_name)) records).
Proof.
  induction 1 as [|d ds [m Hm] _ IH]; simpl; [done|].
  rewrite Hm, IH. simpl. f_equal. rewrite filter_cons, Hm.
  case_bool_decide as Hb; case_decide as Hd; try done.
  - by rewrite Hb in Hd.
  - by injection Hd as ->.
Qed.

(** C10. For a cell that is not in the resolved mapping,
    [get_cell_data_by_map] returns the empty list and [get_cell_id_data]
    returns [None]; neither raises, and both are functions of the state
    that return no new state. For a cell in the mapping whose candidates
    carry a map name, [get_cell_data_by_map] returns the candidates of the
    requested map, in resolved order. *)
Theorem cell_queries_total_on_unknown_cells map_name cell s :
  (cell ∉ (FeatureProcess.cell_ids s).*1 →
   FeatureProcess.get_cell_data_by_map map_name cell s = Some []
   ∧ FeatureProcess.get_cell_id_data cell s = None)
  ∧ (∀ r,
       od_get cell (FeatureProcess.cell_ids s) = Some r →
       Forall (λ d, is_Some (od_get "map_name"%string d)) (FeatureProcess.data r) →
       FeatureProcess.get_cell_data_by_map map_name cell s
       = Some (filter (λ d, od_get "map_name"%string d = Some (VStr map_name))
                 (FeatureProcess.data r))
       ∧ FeatureProcess.get_cell_id_data cell s = Some r).
Proof.
  unfold FeatureProcess.get_cell_data_by_map, FeatureProcess.get_cell_id_data.
  split.
  - intros Hnot%od_get_None. by rewrite Hnot.
  - intros r Hr Hall. rewrite Hr. split; [|done]. by apply select_by_map_spec.
Qed.

Lemma cell_queries_total_on_unknown_cells_witness :
  (FeatureProcess.get_cell_data_by_map "main" {| Cell.row := 5; Cell.col := 6 |}
     example_resolved = Some []
   ∧ FeatureProcess.get_cell_id_data {| Cell.row := 5; Cell.col := 6 |}
       example_resolved = None)
  ∧ FeatureProcess.get_cell_data_by_map "main" example_cell example_resolved
    = Some [candidate "B" "main" 1 8; candidate "A" "main" 1 3].
Proof.
  split.
  - apply (cell_queries_total_on_unknown_cells "main"
             {| Cell.row := 5; Cell.col := 6 |} example_resolved).
    apply (bool_decide_unpack _). by vm_compute.
  - destruct (cell_queries_total_on_unknown_cells "main" example_cell
                example_resolved) as [_ H].
    destruct (od_get example_cell (FeatureProcess.cell_ids example_resolved))
      as [r|] eqn:Hr; [|by vm_compute in Hr].
    destruct (H r eq_refl) as [-> _].
    + vm_compute in Hr. injection Hr as <-. repeat constructor; by eexists.
    + vm_compute in Hr. injection Hr as <-. by vm_compute.
Defined.

(** ** Main export columns *)

Lemma py_range_nat (n : Z) : py_range n = Z.of_nat <$> seq 0 (Z.to_nat n).
Proof.
  unfold py_range, seqZ. apply list_fmap_ext. intros _ i _. lia.
Qed.

Lemma py_getitem_nat {A : Type} (l : list A) (i : nat) :
  py_getitem l (Z.of_nat i) = l !! i.
Proof.
  unfold py_getitem. case_bool_decide as H1.
  - by rewrite Nat2Z.id.
  - rewrite bool_decide_false by lia. symmetry. apply lookup_ge_None. lia.
Qed.

(** The first [n] columns take the names of the first [n] candidates. *)
Lemma named_columns_take col_names col_data (n : Z) names :
  0 ≤ n → (Z.to_nat n ≤ length col_names)%nat →
  (Z.to_nat n ≤ length col_data)%nat →
  NoDup (take (Z.to_nat n) col_names) →
  Forall2 (λ d v, od_get "name"%string d = Some v)
    (take (Z.to_nat n) col_data) names →
  FeatureProcess.named_columns col_names col_data n
  = Some (zip (take (Z.to_nat n) col_names) names).
Proof.
  intros Hn Hcn Hcd Hnd Hnames.
  pose proof (Forall2_length _ _ _ Hnames) as Hlen.
  rewrite length_take_le in Hlen by done.
  unfold FeatureProcess.named_columns. rewrite py_range_nat.
  match goal with
  | |- mapM ?f ?l ≫= _ = _ =>
      assert (mapM f l = Some (zip (take (Z.to_nat n) col_names) names)) as ->
  end.
  { apply mapM_Some_2, Forall2_fmap_l, Forall2_same_length_lookup_2.
    - rewrite length_seq, length_zip, length_take_le by done. lia.
    - intros i j [c v] [-> Hi]%lookup_seq
        (c' & v' & [= -> ->] & Hc & Hv)%lookup_zip_with_Some.
      destruct (Forall2_lookup_r _ _ _ _ _ Hnames Hv) as (d & Hd & Hdv).
      rewrite lookup_take_lt in Hc by done.
      rewrite lookup_take_lt in Hd by done.
      unfold compose. cbn beta. rewrite Nat.add_0_l.
      rewrite !py_getitem_nat, Hd, Hc. simpl. by rewrite Hdv. }
  simpl. f_equal. apply od_of_list_NoDup.
  rewrite fst_zip; [done|]. rewrite length_take_le by done. lia.
Qed.





(** ** Name checks *)

Section ledger_facts.
Import ErrorManager.


Lemma has_errors_app types code (e1 e2 : ErrorManager.t) :
  has_errors types code (e1 ++ e2)
  = has_errors types code e1 || has_errors types code e2.
Proof.
  unfold has_errors. apply eq_true_iff_eq.
  rewrite orb_true_iff, !bool_decide_eq_true, Exists_app. done.
Qed.

Lemma has_errors_true types code (errs : ErrorManager.t) :
  has_errors types code errs = true
  ↔ ∃ e, e ∈ errs ∧ e_warn e = false ∧ type_matches types e
         ∧ code_matches code e.
Proof. unfold has_errors. by rewrite bool_decide_eq_true, Exists_exists. Qed.


End ledger_facts.





Section name_checks.
Context `{!FeatureProcess.Processor} `{!Interpreter}.






End name_checks.

Lemma filter_key_NoDup {V : Type} (k : string) (v : V) (d : list (string * V)) :
  NoDup d.*1 → (k, v) ∈ d → filter (λ kv, kv.1 = k) d = [(k, v)].
Proof.
  induction d as [|[k' v'] d IH]; csimpl; intros Hnd Hin.
  - by apply elem_of_nil in Hin.
  - apply NoDup_cons in Hnd as [Hk Hnd].
    apply elem_of_cons in Hin as [[= -> ->]|Hin].
    + rewrite filter_cons_True by done. by rewrite filter_key_absent.
    + rewrite filter_cons_False; [by apply IH|]. simpl. intros ->.
      apply Hk. by apply (list_elem_of_fmap_2 fst) in Hin.
Qed.



Section name_check_claims.
Context `{!FeatureProcess.Processor} `{!Interpreter}.


End name_check_claims.

Section name_check_examples.
#[local] Existing Instance example_interpreter.


End name_check_examples.

(** ** The process trail *)

Lemma foldl_snoc_fmap {A B : Type} (g : A → B) (acc : list B) (l : list A) :
  foldl (λ acc x, acc ++ [g x]) acc l = acc ++ (g <$> l).
Proof.
  revert acc. induction l as [|x l IH]; intros acc; csimpl.
  - by rewrite app_nil_r.
  - by rewrite IH, <- app_assoc.
Qed.

Lemma set_input_params_trail params s :
  SummaryInfo.process_lines (SummaryInfo.set_input_params params s)
  = SummaryInfo.process_lines s
  ∧ SummaryInfo.config (SummaryInfo.set_input_params params s)
    = SummaryInfo.config s.
Proof.
  unfold SummaryInfo.set_input_params. revert s.
  induction params as [|kv params IH]; intros s; simpl; [done|].
  destruct (IH (SummaryInfo.set_input_param kv.1 kv.2 s)) as [-> ->]. done.
Qed.

Lemma append_error_trail msg msgs typ is_warn code s :
  SummaryInfo.process_lines (SummaryInfo.append_error msg msgs typ is_warn code s)
  = SummaryInfo.process_lines s
  ∧ SummaryInfo.config (SummaryInfo.append_error msg msgs typ is_warn code s)
    = SummaryInfo.config s.
Proof.
  unfold SummaryInfo.append_error.
  destruct (match msg with Some m => _ | None => _ end); [done|].
  by destruct msgs.
Qed.

Section trail.
Context `{!Interpreter}.

(** A call leaves the trail as it is or appends its one line. *)
Lemma exec_trail c s s' :
  SummaryInfo.exec c s = Some s' →
  SummaryInfo.config s' = SummaryInfo.config s
  ∧ SummaryInfo.process_lines s'
    = SummaryInfo.process_lines s
      ++ option_list (SummaryInfo.line_of (SummaryInfo.config s) c).
Proof.
  destruct c as [n v|ps|n e kw|m ms ty w c]; simpl.
  - intros [= <-]. simpl. by rewrite app_nil_r.
  - intros [= <-]. destruct (set_input_params_trail ps s) as [-> ->].
    by rewrite app_nil_r.
  - unfold SummaryInfo.set_process_line.
    destruct (py_format _ _) as [m|]; simpl; [|done]. by intros [= <-].
  - intros [= <-]. destruct (append_error_trail m ms ty w c s) as [-> ->].
    by rewrite app_nil_r.
Qed.

(** C9. A [set_process_line] call whose template expands appends exactly
    one line, holding the expanded template and ERROR or OK according to the
    flag; when the template does not expand the call raises and appends
    nothing. Whatever sequence of calls runs on a summary, the trail
    afterwards is the trail before followed by the lines of the
    [set_process_line] calls in call order, so no line is ever reordered,
    removed or changed. Reading the trail returns all lines in append
    order, and the decorated reading keeps their number and order. *)
Theorem process_trail_append_only :
  (∀ msg_name check_error kwargs s msg,
      py_format (ConfigApp.get_process_msg (SummaryInfo.config s) msg_name)
        (od_of_list kwargs) = Some msg →
      SummaryInfo.set_process_line msg_name check_error kwargs s
      = Some (SummaryInfo.with_process_lines
                (SummaryInfo.process_lines s
                 ++ [{| SummaryInfo.line := msg;
                        SummaryInfo.status :=
                          if check_error then "ERROR" else "OK" |}]) s))
  ∧ (∀ msg_name check_error kwargs s,
       py_format (ConfigApp.get_process_msg (SummaryInfo.config s) msg_name)
         (od_of_list kwargs) = None →
       SummaryInfo.set_process_line msg_name check_error kwargs s = None)
  ∧ (∀ cs s s',
       SummaryInfo.run cs s = Some s' →
       SummaryInfo.process_lines s'
       = SummaryInfo.process_lines s
         ++ omap (SummaryInfo.line_of (SummaryInfo.config s)) cs)
  ∧ (∀ insert_ui s,
       SummaryInfo.get_process_lines insert_ui false s
       = SummaryInfo.process_lines s)
  ∧ (∀ insert_ui s,
       SummaryInfo.line <$> SummaryInfo.get_process_lines insert_ui true s
       = (λ l, insert_ui (SummaryInfo.line l) SummaryInfo.darkred)
           <$> SummaryInfo.process_lines s).
Proof.
  split_and!.
  - intros msg_name check_error kwargs s msg Hf.
    unfold SummaryInfo.set_process_line. unfold od_of_list in Hf.
    by rewrite Hf.
  - intros msg_name check_error kwargs s Hf.
    unfold SummaryInfo.set_process_line. unfold od_of_list in Hf.
    by rewrite Hf.
  - intros cs. induction cs as [|c cs IH]; intros s s'; simpl.
    + intros [= <-]. by rewrite app_nil_r.
    + destruct (SummaryInfo.exec c s) as [s1|] eqn:Hc; simpl; [|done].
      intros Hrun. apply exec_trail in Hc as [Hcfg Hl].
      rewrite (IH _ _ Hrun), Hl, Hcfg, <- app_assoc. f_equal.
      by destruct (SummaryInfo.line_of (SummaryInfo.config s) c).
  - done.
  - intros insert_ui s. unfold SummaryInfo.get_process_lines.
    rewrite foldl_snoc_fmap. simpl. by rewrite <- list_fmap_compose.
Qed.

End trail.

Section trail_examples.
#[local] Existing Instance example_interpreter.

Lemma process_trail_append_only_witness :
  SummaryInfo.process_lines
    <$> SummaryInfo.set_process_line "_inter_map_with_linkage" false
          [("map_name"%string, VStr "rivers");
           ("linkage_name"%string, VStr "grid");
           ("output_name"%string, VStr "rivers_inter")]
          (SummaryInfo.init "river" [] example_config)
  = Some [{| SummaryInfo.line := "Intersect [rivers] with [grid] into [rivers_inter]";
             SummaryInfo.status := "OK" |}].
Proof.
  rewrite (proj1 process_trail_append_only "_inter_map_with_linkage" false
             [("map_name"%string, VStr "rivers");
              ("linkage_name"%string, VStr "grid");
              ("output_name"%string, VStr "rivers_inter")]
             (SummaryInfo.init "river" [] example_config)
             "Intersect [rivers] with [grid] into [rivers_inter]").
  - reflexivity.
  - by vm_compute.
Defined.
End trail_examples.

(** ** The superposition check *)

Section superposition.
Import SuperpositionCheck.

Lemma set_connection_records b n s :
  check_connection (name b) (name n) (set_connection b n s) = true.
Proof.
  unfold check_connection, set_connection.
  destruct (connections s !! name b) as [[|x l]|]; simpl;
    rewrite lookup_insert_eq; apply bool_decide_eq_true.
  - apply list_elem_of_here.
  - apply list_elem_of_further, elem_of_app. right. apply list_elem_of_here.
  - apply list_elem_of_here.
Qed.

(** Recorded connections are never lost. *)
Lemma set_connection_keeps b n x y s :
  check_connection x y s = true →
  check_connection x y (set_connection b n s) = true.
Proof.
  unfold check_connection, set_connection. intros Hc.
  destruct (decide (name b = x)) as [<-|Hne].
  - destruct (connections s !! name b) as [[|x0 l]|]; [done| |done].
    simpl. rewrite lookup_insert_eq. simpl.
    apply bool_decide_eq_true in Hc. apply bool_decide_eq_true.
    change (y ∈ (x0 :: l) ++ [name n]). apply elem_of_app. by left.
  - destruct (connections s !! name b) as [[|x0 l]|]; simpl;
      by rewrite lookup_insert_ne.
Qed.

Lemma set_connection_static b n s :
  nodes (set_connection b n s) = nodes s
  ∧ base_feature_type_id (set_connection b n s) = base_feature_type_id s
  ∧ secondary_feature_type_id (set_connection b n s)
    = secondary_feature_type_id s
  ∧ connection_error (set_connection b n s) = connection_error s.
Proof.
  unfold set_connection. by destruct (connections s !! name b) as [[|? ?]|].
Qed.

Lemma arc_check_operation_static arc_id arc s :
  nodes (arc_check_operation arc_id arc s) = nodes s
  ∧ base_feature_type_id (arc_check_operation arc_id arc s)
    = base_feature_type_id s
  ∧ secondary_feature_type_id (arc_check_operation arc_id arc s)
    = secondary_feature_type_id s
  ∧ connection_error (arc_check_operation arc_id arc s) = connection_error s.
Proof.
  unfold arc_check_operation.
  repeat (case_match; try done); apply set_connection_static.
Qed.

Lemma arc_check_operation_keeps arc_id arc x y s :
  check_connection x y s = true →
  check_connection x y (arc_check_operation arc_id arc s) = true.
Proof.
  intros Hc. unfold arc_check_operation.
  repeat (case_match; try done); by apply set_connection_keeps.
Qed.

(** An edge between a base element and a secondary element records the
    connection, whichever way it points. *)
Lemma arc_check_operation_records arc_id arc src dst nsrc ndst s :
  src_id arc = Some src → dst_id arc = Some dst → src ≠ 0 → dst ≠ 0 →
  nodes s !! src = Some nsrc → nodes s !! dst = Some ndst →
  (type_id nsrc = base_feature_type_id s
   → type_id ndst = secondary_feature_type_id s
   → check_connection (name nsrc) (name ndst)
       (arc_check_operation arc_id arc s) = true)
  ∧ (type_id nsrc = secondary_feature_type_id s
     → type_id ndst = base_feature_type_id s
     → base_feature_type_id s ≠ secondary_feature_type_id s
     → check_connection (name ndst) (name nsrc)
         (arc_check_operation arc_id arc s) = true).
Proof.
  intros Hs Hd Hs0 Hd0 Hns Hnd. unfold arc_check_operation.
  rewrite Hs, Hd. simpl.
  rewrite !(proj2 (Z.eqb_neq _ _)) by done. simpl. rewrite Hns, Hnd.
  split.
  - intros -> ->. rewrite !bool_decide_true by done. simpl.
    apply set_connection_records.
  - intros H1 H2 Hne.
    rewrite (bool_decide_false (type_id nsrc = base_feature_type_id s))
      by congruence.
    simpl. rewrite !bool_decide_true by done. simpl.
    apply set_connection_records.
Qed.

Lemma edge_scan_static arcs s :
  let s' := foldl (λ s a, arc_check_operation a.1 a.2 s) s arcs in
  nodes s' = nodes s
  ∧ base_feature_type_id s' = base_feature_type_id s
  ∧ secondary_feature_type_id s' = secondary_feature_type_id s
  ∧ connection_error s' = connection_error s.
Proof.
  revert s. induction arcs as [|a arcs IH]; intros s; simpl; [done|].
  destruct (IH (arc_check_operation a.1 a.2 s)) as (-> & -> & -> & ->).
  apply arc_check_operation_static.
Qed.

Lemma edge_scan_keeps arcs x y s :
  check_connection x y s = true →
  check_connection x y (foldl (λ s a, arc_check_operation a.1 a.2 s) s arcs)
  = true.
Proof.
  revert s. induction arcs as [|a arcs IH]; intros s Hc; simpl; [done|].
  by apply IH, arc_check_operation_keeps.
Qed.
End superposition.

Section superposition_cells.
Import SuperpositionCheck.
Context {GridCell : Type}.
Variable get_cell_feature_names : GridCell → string → list string.

Lemma check_connection_ext x y s s' :
  connections s = connections s' →
  check_connection x y s = check_connection x y s'.
Proof. unfold check_connection. by intros ->. Qed.

Lemma add_error_reported b sec x y s :
  reported x y (add_error b sec s) ↔ reported x y s ∨ (x = b ∧ y = sec).
Proof.
  unfold reported, add_error. simpl.
  destruct (decide (x = b)) as [->|Hne].
  - rewrite od_get_set_eq.
    destruct (od_get b (connection_error s)) as [es|] eqn:Hes.
    + assert ((if bool_decide (es = ∅) then ∅ else es) = es) as ->
        by (by case_bool_decide).
      split.
      * intros (missing & [= <-] & [?| ->%elem_of_singleton]%elem_of_union);
          [left; by exists es | by right].
      * intros [(missing & [= <-] & ?)|[_ ->]]; eexists; split; try done;
          apply elem_of_union; [by left | right; by apply elem_of_singleton].
    + split.
      * intros (missing & [= <-] & [?%elem_of_empty| ->%elem_of_singleton]%elem_of_union);
          [done | by right].
      * intros [(missing & ? & ?)|[_ ->]]; [done|].
        eexists. split; [done|]. apply elem_of_union. right.
        by apply elem_of_singleton.
  - rewrite od_get_set_ne by done. split; [by left|].
    by intros [?|[? _]].
Qed.

(** The scan of the secondary names against one base name. *)
Lemma secondary_scan b secs s :
  let s' := foldl
              (λ s sec,
                 if negb (check_connection b sec s)
                 then add_error b sec s else s) s secs in
  connections s' = connections s
  ∧ base_feature s' = base_feature s
  ∧ secondary_feature s' = secondary_feature s
  ∧ ∀ x y, reported x y s'
           ↔ reported x y s
             ∨ (x = b ∧ y ∈ secs ∧ check_connection b y s = false).
Proof.
  revert s. induction secs as [|sec secs IH]; intros s; simpl.
  - split_and!; try done. intros x y. split; [by left|].
    by intros [?|(_ & ?%elem_of_nil & _)].
  - set (s1 := if negb (check_connection b sec s) then add_error b sec s else s).
    assert (connections s1 = connections s ∧ base_feature s1 = base_feature s
            ∧ secondary_feature s1 = secondary_feature s) as (Hc1 & Hb1 & Hs1).
    { unfold s1. by destruct (check_connection b sec s). }
    destruct (IH s1) as (Hc & Hb & Hs & Hr).
    split_and!; [congruence..|].
    intros x y. rewrite Hr. setoid_rewrite elem_of_cons.
    rewrite (check_connection_ext b y s1 s Hc1).
    unfold s1. destruct (check_connection b sec s) eqn:Hcs; simpl.
    + split; [intros [?|(? & ? & ?)]; auto|].
      intros [?|(-> & [->|?] & ?)]; [auto|congruence|auto].
    + rewrite add_error_reported. split.
      * intros [[?|[-> ->]]|(? & ? & ?)]; auto 10.
      * intros [?|(-> & [->|?] & ?)]; auto 10.
Qed.

(** The scan of all pairs of names of a cell. *)
Lemma pair_scan bases secs s :
  let s' := foldl
              (λ s b,
                 foldl
                   (λ s sec,
                      if negb (check_connection b sec s)
                      then add_error b sec s else s) s secs) s bases in
  connections s' = connections s
  ∧ base_feature s' = base_feature s
  ∧ secondary_feature s' = secondary_feature s
  ∧ ∀ x y, reported x y s'
           ↔ reported x y s
             ∨ (x ∈ bases ∧ y ∈ secs ∧ check_connection x y s = false).
Proof.
  revert s. induction bases as [|b bases IH]; intros s; simpl.
  - split_and!; try done. intros x y. split; [by left|].
    by intros [?|(?%elem_of_nil & _)].
  - destruct (secondary_scan b secs s) as (Hc1 & Hb1 & Hs1 & Hr1).
    set (s1 := foldl _ s secs) in *.
    destruct (IH s1) as (Hc & Hb & Hs & Hr).
    split_and!; [congruence..|].
    intros x y. rewrite Hr, Hr1. setoid_rewrite elem_of_cons.
    rewrite (check_connection_ext x y s1 s Hc1). split.
    + intros [[?|(-> & ? & ?)]|(? & ? & ?)]; auto 10.
    + intros [?|([->|?] & ? & ?)]; auto 10.
Qed.

Lemma cell_check_operation_spec cell_id cell s :
  let s' := cell_check_operation get_cell_feature_names cell_id cell s in
  connections s' = connections s
  ∧ base_feature s' = base_feature s
  ∧ secondary_feature s' = secondary_feature s
  ∧ ∀ x y, reported x y s'
           ↔ reported x y s
             ∨ (x ∈ get_cell_feature_names cell (base_feature s)
                ∧ y ∈ get_cell_feature_names cell (secondary_feature s)
                ∧ check_connection x y s = false).
Proof. apply pair_scan. Qed.

Lemma cell_scan_spec cells s :
  let s' := foldl
              (λ s c, cell_check_operation get_cell_feature_names c.1 c.2 s)
              s cells in
  connections s' = connections s
  ∧ base_feature s' = base_feature s
  ∧ secondary_feature s' = secondary_feature s
  ∧ ∀ x y, reported x y s'
           ↔ reported x y s
             ∨ ∃ c, c ∈ cells
                    ∧ x ∈ get_cell_feature_names c.2 (base_feature s)
                    ∧ y ∈ get_cell_feature_names c.2 (secondary_feature s)
                    ∧ check_connection x y s = false.
Proof.
  revert s. induction cells as [|c cells IH]; intros s; simpl.
  - split_and!; try done. intros x y. split; [by left|].
    by intros [?|(? & ?%elem_of_nil & _)].
  - destruct (cell_check_operation_spec c.1 c.2 s) as (Hc1 & Hb1 & Hs1 & Hr1).
    set (s1 := cell_check_operation _ _ _ s) in *.
    destruct (IH s1) as (Hc & Hb & Hs & Hr).
    split_and!; [congruence..|].
    intros x y. rewrite Hr, Hr1, Hb1, Hs1. setoid_rewrite elem_of_cons.
    setoid_rewrite (check_connection_ext x y s1 s Hc1). split.
    + intros [[?|(? & ? & ?)]|(c' & ? & ? & ? & ?)]; [auto|right..].
      * exists c. auto.
      * exists c'. auto.
    + intros [?|(c' & [->|?] & ? & ? & ?)]; [auto|auto|].
      right. exists c'. auto.
Qed.

(** C6. In the edge scan, an arc whose two endpoint ids are set and
    collected records a connection from the base element's name to the
    secondary element's name, whether the base element is its source or
    its destination, and the connection stays recorded. In the cell scan
    that follows, a pair of a base name and a secondary name is in the
    error set afterwards exactly when it was there before or the two
    names occur together in some cell and have no recorded connection;
    a pair with a recorded connection is not added. *)
Theorem superposition_edges_and_cells (s : SuperpositionCheck.t)
    (arcs : list (Z * Arc)) (cells : list (Z * GridCell)) :
  (∀ arc_id arc src dst nsrc ndst,
      (arc_id, arc) ∈ arcs →
      src_id arc = Some src → dst_id arc = Some dst → src ≠ 0 → dst ≠ 0 →
      nodes s !! src = Some nsrc → nodes s !! dst = Some ndst →
      (type_id nsrc = base_feature_type_id s
       → type_id ndst = secondary_feature_type_id s
       → check_connection (name nsrc) (name ndst)
           (foldl (λ s a, arc_check_operation a.1 a.2 s) s arcs) = true)
      ∧ (type_id nsrc = secondary_feature_type_id s
         → type_id ndst = base_feature_type_id s
         → base_feature_type_id s ≠ secondary_feature_type_id s
         → check_connection (name ndst) (name nsrc)
             (foldl (λ s a, arc_check_operation a.1 a.2 s) s arcs) = true))
  ∧ (∀ base_name secondary_name,
       reported base_name secondary_name
         (foldl (λ s c, cell_check_operation get_cell_feature_names c.1 c.2 s)
            (foldl (λ s a, arc_check_operation a.1 a.2 s) s arcs) cells)
       ↔ reported base_name secondary_name s
         ∨ ∃ c, c ∈ cells
                ∧ base_name ∈ get_cell_feature_names c.2 (base_feature s)
                ∧ secondary_name
                    ∈ get_cell_feature_names c.2 (secondary_feature s)
                ∧ check_connection base_name secondary_name
                    (foldl (λ s a, arc_check_operation a.1 a.2 s) s arcs)
                  = false).
Proof.
  split.
  - intros arc_id arc src dst nsrc ndst Hin Hs Hd Hs0 Hd0 Hns Hnd.
    apply list_elem_of_split in Hin as (l1 & l2 & ->).
    rewrite foldl_app. simpl.
    destruct (edge_scan_static l1 s) as (Hn & Hb & Hsec & _).
    set (s1 := foldl _ s l1) in *.
    destruct (arc_check_operation_records arc_id arc src dst nsrc ndst s1)
      as [H1 H2]; try done; try congruence.
    split.
    + intros Ht1 Ht2. apply edge_scan_keeps, H1; congruence.
    + intros Ht1 Ht2 Hne. apply edge_scan_keeps, H2; congruence.
  - intros x y.
    destruct (cell_scan_spec cells
                (foldl (λ s a, arc_check_operation a.1 a.2 s) s arcs))
      as (_ & _ & _ & Hr).
    rewrite Hr. unfold reported.
    destruct (edge_scan_static arcs s) as (_ & _ & _ & ->).
    assert (∀ s', base_feature
                    (foldl (λ s a, arc_check_operation a.1 a.2 s) s' arcs)
                  = base_feature s'
                  ∧ secondary_feature
                      (foldl (λ s a, arc_check_operation a.1 a.2 s) s' arcs)
                    = secondary_feature s') as Hf.
    { clear. induction arcs as [|a arcs IH]; intros s'; simpl; [done|].
      destruct (IH (arc_check_operation a.1 a.2 s')) as [-> ->].
      unfold arc_check_operation, set_connection.
      repeat (case_match; try done). }
    destruct (Hf s) as [-> ->]. done.
Qed.
End superposition_cells.

Lemma superposition_edges_and_cells_witness :
  SuperpositionCheck.check_connection "CatchA" "GW1"
    (foldl (λ s a, SuperpositionCheck.arc_check_operation a.1 a.2 s) example_check
       [(10, {| SuperpositionCheck.src_id := Some 2;
                SuperpositionCheck.dst_id := Some 1 |})]) = true
  ∧ reported "CatchA" "GW2"
      (foldl
         (λ s c, SuperpositionCheck.cell_check_operation
                   example_cell_feature_names c.1 c.2 s)
         (foldl (λ s a, SuperpositionCheck.arc_check_operation a.1 a.2 s)
            example_check
            [(10, {| SuperpositionCheck.src_id := Some 2;
                     SuperpositionCheck.dst_id := Some 1 |})])
         [(1, [("catchment"%string, ["CatchA"%string]);
               ("groundwater"%string, ["GW1"%string; "GW2"%string])])]).
Proof.
  pose proof (superposition_edges_and_cells example_cell_feature_names
                example_check
                [(10, {| SuperpositionCheck.src_id := Some 2;
                         SuperpositionCheck.dst_id := Some 1 |})]
                [(1, [("catchment"%string, ["CatchA"%string]);
                      ("groundwater"%string, ["GW1"%string; "GW2"%string])])])
    as [Hedge Hcell].
  split.
  - apply (Hedge 10 {| SuperpositionCheck.src_id := Some 2;
                       SuperpositionCheck.dst_id := Some 1 |} 2 1
             {| SuperpositionCheck.type_id := 3; SuperpositionCheck.name := "GW1" |}
             {| SuperpositionCheck.type_id := 21;
                SuperpositionCheck.name := "CatchA" |});
      try done; try (by vm_compute).
    apply list_elem_of_here.
  - apply Hcell. right. eexists. split; [apply list_elem_of_here|].
    split_and!.
    + apply (bool_decide_unpack _). by vm_compute.
    + apply (bool_decide_unpack _). by vm_compute.
    + by vm_compute.
Defined.

(** ** The scenarios of the specification, evaluated *)

Section scenarios.
#[local] Existing Instance example_interpreter.

(** A catchment and a groundwater element share a cell and no edge joins
    them: one message, naming the unmatched partner. *)
Example connectivity_without_edge :
  SuperpositionCheck.errors
    (SuperpositionCheck.run_phases example_cell_feature_names
       [(1, {| SuperpositionCheck.type_id := 21;
               SuperpositionCheck.name := "CatchA" |});
        (2, {| SuperpositionCheck.type_id := 3;
               SuperpositionCheck.name := "GW1" |})]
       []
       [(1, [("catchment"%string, ["CatchA"%string]);
             ("groundwater"%string, ["GW1"%string])])]
       example_check)
  = ["El elemento CatchA del tipo catchment no está conectado a los elementos {'GW1'} de tipo groundwater."%string].
Proof. by vm_compute. Qed.

(** With the edge in place the same run reports nothing. *)
Example connectivity_with_edge :
  SuperpositionCheck.errors
    (SuperpositionCheck.run_phases example_cell_feature_names
       [(1, {| SuperpositionCheck.type_id := 21;
               SuperpositionCheck.name := "CatchA" |});
        (2, {| SuperpositionCheck.type_id := 3;
               SuperpositionCheck.name := "GW1" |})]
       [(10, {| SuperpositionCheck.src_id := Some 1;
                SuperpositionCheck.dst_id := Some 2 |})]
       [(1, [("catchment"%string, ["CatchA"%string]);
             ("groundwater"%string, ["GW1"%string])])]
       example_check)
  = [].
Proof. by vm_compute. Qed.

(** Resolving an empty aggregator yields an empty mapping and no diagnostic. *)
Example resolve_empty :
  (λ s, (FeatureProcess.cell_ids s, FeatureProcess._err s))
    <$> resolve "area" (example_state "RiverProcess" "river")
  = Some ([], []).
Proof. by vm_compute. Qed.

(** A cell with two candidates for two columns fills both, best first. *)
Example main_columns_of_resolved_cell :
  fst <$> FeatureProcess.get_data_to_save example_cell true example_resolved
  = Some [("DS1"%string, VStr "B"); ("DS2"%string, VStr "A")].
Proof. by vm_compute. Qed.

(** A cell without record gets every column emptied. *)
Example main_columns_of_unknown_cell :
  fst <$> FeatureProcess.get_data_to_save {| Cell.row := 9; Cell.col := 9 |} true
            example_resolved
  = Some [("DS1"%string, VStr ""); ("DS2"%string, VStr "")].
Proof. by vm_compute. Qed.
End scenarios.

(** * Further properties of the code *)

(** ** Input parameters and diagnostics of the summary *)

Lemma set_input_params_lookup params k s :
  SummaryInfo.get_input_param k (SummaryInfo.set_input_params params s)
  = match last (filter (λ kv, kv.1 = k) params) with
    | Some kv => Some kv.2
    | None => SummaryInfo.get_input_param k s
    end.
Proof.
  unfold SummaryInfo.set_input_params. revert s.
  induction params as [|[k' v'] params IH]; intros s; [done|].
  cbn [foldl]. rewrite IH, filter_cons. simpl.
  unfold SummaryInfo.get_input_param, SummaryInfo.set_input_param. simpl.
  destruct (decide (k' = k)) as [->|Hne].
  - rewrite od_get_set_eq.
    destruct (filter (λ kv : string * pyval, kv.1 = k) params) as [|p l];
      [done|].
    change (last ((k, v') :: p :: l)) with (last (p :: l)).
    destruct (last (p :: l)) eqn:Hl; [done|]. by apply last_None in Hl.
  - by rewrite od_get_set_ne.
Qed.

(** X1. A parameter that was set reads back with the value it was given, a
    later value for the same name replaces the earlier one, the other
    parameters keep their values, and neither the trail nor the ledger is
    touched. Reading a name that was never set raises. *)
Theorem input_param_round_trip param_name param_value s :
  SummaryInfo.get_input_param param_name
    (SummaryInfo.set_input_param param_name param_value s) = Some param_value
  ∧ (∀ v', SummaryInfo.set_input_param param_name param_value
             (SummaryInfo.set_input_param param_name v' s)
           = SummaryInfo.set_input_param param_name param_value s)
  ∧ (∀ other, other ≠ param_name →
       SummaryInfo.get_input_param other
         (SummaryInfo.set_input_param param_name param_value s)
       = SummaryInfo.get_input_param other s)
  ∧ SummaryInfo.process_lines (SummaryInfo.set_input_param param_name param_value s)
    = SummaryInfo.process_lines s
  ∧ SummaryInfo.errors (SummaryInfo.set_input_param param_name param_value s)
    = SummaryInfo.errors s
  ∧ (∀ pre errs cfg,
       SummaryInfo.get_input_param param_name (SummaryInfo.init pre errs cfg) = None).
Proof.
  unfold SummaryInfo.get_input_param, SummaryInfo.set_input_param.
  split_and!; try done; simpl.
  - apply od_get_set_eq.
  - intros v'. unfold SummaryInfo.with_input_params. simpl. f_equal.
    generalize (SummaryInfo.input_params s). intros d.
    induction d as [|[k v] d IH]; simpl.
    + by rewrite decide_True.
    + destruct (decide (param_name = k)) as [->|Hne]; simpl.
      * by rewrite decide_True.
      * rewrite decide_False by done. by rewrite IH.
  - intros other Hne. by apply od_get_set_ne.
Qed.

(** X2. After [set_input_params] a name reads back with the last value the
    given parameters hold for it, and a name they do not mention keeps the
    value it had; the trail is untouched. *)
Theorem set_input_params_round_trip params s :
  (∀ k, SummaryInfo.get_input_param k (SummaryInfo.set_input_params params s)
        = match last (filter (λ kv, kv.1 = k) params) with
          | Some kv => Some kv.2
          | None => SummaryInfo.get_input_param k s
          end)
  ∧ (∀ k v, NoDup params.*1 → (k, v) ∈ params →
       SummaryInfo.get_input_param k (SummaryInfo.set_input_params params s)
       = Some v)
  ∧ SummaryInfo.process_lines (SummaryInfo.set_input_params params s)
    = SummaryInfo.process_lines s.
Proof.
  split_and!.
  - intros k. apply set_input_params_lookup.
  - intros k v Hnd Hin. rewrite set_input_params_lookup.
    by rewrite (filter_key_NoDup k v params).
  - apply set_input_params_trail.
Qed.

Lemma set_input_params_round_trip_witness :
  SummaryInfo.get_input_param "epsg"
    (SummaryInfo.set_input_params
       [("gisdb"%string, VStr "/tmp/grass"); ("epsg"%string, VInt 32719)]
       (SummaryInfo.init "river" [] example_config))
  = Some (VInt 32719).
Proof.
  apply (proj1 (proj2 (set_input_params_round_trip
                         [("gisdb"%string, VStr "/tmp/grass");
                          ("epsg"%string, VInt 32719)]
                         (SummaryInfo.init "river" [] example_config)))).
  - apply (bool_decide_unpack _). by vm_compute.
  - apply (list_elem_of_lookup_2 _ 1%nat). reflexivity.
Defined.

Lemma input_param_round_trip_witness :
  SummaryInfo.get_input_param "epsg"
    (SummaryInfo.set_input_param "gisdb" (VStr "/tmp/grass")
       (SummaryInfo.set_input_param "epsg" (VInt 32719)
          (SummaryInfo.init "river" [] example_config)))
  = Some (VInt 32719).
Proof.
  destruct (input_param_round_trip "gisdb" (VStr "/tmp/grass")
              (SummaryInfo.set_input_param "epsg" (VInt 32719)
                 (SummaryInfo.init "river" [] example_config)))
    as (_ & _ & Hother & _).
  rewrite Hother by done.
  apply (input_param_round_trip "epsg" (VInt 32719)
           (SummaryInfo.init "river" [] example_config)).
Defined.

Lemma foldl_append_entries typ is_warn code (ms : list string)
    (errs : ErrorManager.t) :
  foldl (λ e m, ErrorManager.append m typ is_warn code e) errs ms
  = errs
    ++ ((λ m, {| ErrorManager.e_typ := typ; ErrorManager.e_code := code;
                 ErrorManager.e_msg := m; ErrorManager.e_warn := is_warn |})
          <$> ms).
Proof.
  revert errs. induction ms as [|m ms IH]; intros errs; csimpl.
  - by rewrite app_nil_r.
  - rewrite IH. unfold ErrorManager.append. by rewrite <- app_assoc.
Qed.

(** X3. [append_error] records the single message when one is given and then
    ignores the list of messages; without a single message it records the
    messages of the list, in order; with neither it does nothing. The entries
    carry the given type, or the summary's prefix when none is given, and the
    trail and the input parameters stay as they are. *)
Theorem summary_append_error_records msg msgs typ is_warn code s :
  (∀ m, msg = Some m → m ≠ EmptyString →
     SummaryInfo.errors (SummaryInfo.append_error msg msgs typ is_warn code s)
     = SummaryInfo.errors s
       ++ [{| ErrorManager.e_typ := effective_typ typ s;
              ErrorManager.e_code := code;
              ErrorManager.e_msg := m;
              ErrorManager.e_warn := is_warn |}])
  ∧ (msg = None ∨ msg = Some EmptyString →
     SummaryInfo.errors (SummaryInfo.append_error msg msgs typ is_warn code s)
     = SummaryInfo.errors s
       ++ ((λ m, {| ErrorManager.e_typ := effective_typ typ s;
                    ErrorManager.e_code := code;
                    ErrorManager.e_msg := m;
                    ErrorManager.e_warn := is_warn |})
             <$> default [] msgs))
  ∧ SummaryInfo.process_lines (SummaryInfo.append_error msg msgs typ is_warn code s)
    = SummaryInfo.process_lines s
  ∧ SummaryInfo.input_params (SummaryInfo.append_error msg msgs typ is_warn code s)
    = SummaryInfo.input_params s.
Proof.
  split_and!.
  - intros m -> Hm. unfold SummaryInfo.append_error.
    by rewrite (bool_decide_false (m = _)).
  - intros Hmsg. unfold SummaryInfo.append_error.
    assert (match msg with
            | Some m => negb (bool_decide (m = EmptyString))
            | None => false
            end = false) as -> by (by destruct Hmsg as [-> | ->]).
    destruct msgs as [ms|]; simpl.
    + apply foldl_append_entries.
    + by rewrite app_nil_r.
  - apply append_error_trail.
  - unfold SummaryInfo.append_error.
    destruct (match msg with Some m => _ | None => _ end); [done|].
    by destruct msgs.
Qed.

Lemma summary_append_error_records_witness :
  ErrorManager.e_msg
    <$> SummaryInfo.errors
          (SummaryInfo.append_error (Some "no main column"%string)
             (Some ["ignored"%string]) None false "20"
             (SummaryInfo.init "river" [] example_config))
  = ["no main column"%string]
  ∧ ErrorManager.e_msg
      <$> SummaryInfo.errors
            (SummaryInfo.append_error None
               (Some ["first"%string; "second"%string]) None true "20"
               (SummaryInfo.init "river" [] example_config))
    = ["first"%string; "second"%string].
Proof.
  split.
  - rewrite (proj1 (summary_append_error_records (Some "no main column"%string)
                      (Some ["ignored"%string]) None false "20"
                      (SummaryInfo.init "river" [] example_config))
               "no main column"%string eq_refl); done.
  - rewrite (proj1 (proj2 (summary_append_error_records None
                             (Some ["first"%string; "second"%string]) None true
                             "20" (SummaryInfo.init "river" [] example_config)))
               (or_introl eq_refl)).
    done.
Defined.

(** ** Statuses of the trail *)

Section trail_statuses.
Context `{!Interpreter}.

Lemma exec_status c s s' :
  SummaryInfo.exec c s = Some s' →
  Forall trail_status (SummaryInfo.process_lines s) →
  Forall trail_status (SummaryInfo.process_lines s').
Proof.
  intros Hc Hs. apply exec_trail in Hc as [_ ->].
  apply Forall_app. split; [done|].
  destruct c as [| |n e kw|]; simpl; try constructor.
  destruct (py_format _ _); simpl; constructor; [|constructor].
  unfold trail_status. simpl. destruct e; auto.
Qed.

(** X4. Every line of a trail built by the calls of the class carries the
    status OK or ERROR. The decorated reading returns one line per line of
    the trail, in order, each with its text highlighted and its bracketed
    status coloured green when it is OK and red when it is ERROR. *)
Theorem trail_statuses_and_colours insert_ui cs s s' :
  Forall trail_status (SummaryInfo.process_lines s) →
  SummaryInfo.run cs s = Some s' →
  Forall trail_status (SummaryInfo.process_lines s')
  ∧ SummaryInfo.get_process_lines insert_ui true s'
    = (λ l, {| SummaryInfo.line := insert_ui (SummaryInfo.line l) SummaryInfo.darkred;
               SummaryInfo.status :=
                 insert_ui ("[" +:+ SummaryInfo.status l +:+ "]")
                   (if bool_decide (SummaryInfo.status l = "ERROR"%string)
                    then SummaryInfo.red else SummaryInfo.green) |})
        <$> SummaryInfo.process_lines s'.
Proof.
  intros Hs Hrun.
  assert (Forall trail_status (SummaryInfo.process_lines s')) as Hs'.
  { revert s Hs Hrun. induction cs as [|c cs IH]; intros s Hs; simpl.
    - by intros [= <-].
    - destruct (SummaryInfo.exec c s) as [s1|] eqn:Hc; simpl; [|done].
      apply IH. by eapply exec_status. }
  split; [done|].
  unfold SummaryInfo.get_process_lines. rewrite foldl_snoc_fmap. simpl.
  apply Forall_fmap_ext_1. eapply Forall_impl; [exact Hs'|].
  intros l [Hl|Hl]; rewrite Hl; done.
Qed.

End trail_statuses.

Section trail_statuses_examples.
#[local] Existing Instance example_interpreter.

Lemma trail_statuses_and_colours_witness :
  ∃ s',
    SummaryInfo.run
      [SummaryInfo.SetProcessLine "import_maps" false [];
       SummaryInfo.SetProcessLine "check_basic_columns" true []]
      (SummaryInfo.init "river" [] example_config) = Some s'
    ∧ SummaryInfo.status <$> SummaryInfo.get_process_lines example_insert_ui true s'
      = ["<g>[OK]</g>"%string; "<r>[ERROR]</r>"%string].
Proof.
  destruct (SummaryInfo.run
              [SummaryInfo.SetProcessLine "import_maps" false [];
               SummaryInfo.SetProcessLine "check_basic_columns" true []]
              (SummaryInfo.init "river" [] example_config))
    as [s'|] eqn:Hrun; [|by vm_compute in Hrun].
  exists s'. split; [done|].
  rewrite (proj2 (trail_statuses_and_colours example_insert_ui _
                    (SummaryInfo.init "river" [] example_config) s'
                    (Forall_nil_2 _) Hrun)).
  vm_compute in Hrun. injection Hrun as <-. by vm_compute.
Defined.
End trail_statuses_examples.

(** ** The name index *)




Section name_index.
Context `{!FeatureProcess.Processor}.



End name_index.


(** ** What accumulation touches *)

Lemma od_set_set {K V : Type} `{EqDecision K} (k : K) (v v' : V) d :
  od_set k v (od_set k v' d) = od_set k v d.
Proof.
  induction d as [|[k0 v0] d IH]; simpl.
  - by rewrite decide_True.
  - destruct (decide (k = k0)) as [->|Hne]; simpl.
    + by rewrite decide_True.
    + rewrite decide_False by done. by rewrite IH.
Qed.

Lemma od_set_keys_prefix {K V : Type} `{EqDecision K} (k : K) (v : V) d :
  d.*1 `prefix_of` (od_set k v d).*1.
Proof.
  rewrite od_set_keys_cases. case_decide; [done|]. by apply prefix_app_r.
Qed.

(** The shape of the state [_set_cell] returns. *)
Lemma set_cell_shape cell area_name data by_field s s' :
  FeatureProcess._set_cell cell area_name data by_field s = Some s' →
  ∃ entry,
    s' = FeatureProcess.with_cells
           (od_set cell
              (od_set area_name entry
                 (default [] (od_get cell (FeatureProcess.cells s))))
              (FeatureProcess.cells s)) s
    ∧ match candidate_at cell area_name s with
      | None => entry = data
      | Some stored =>
          ∃ current area_area total,
            od_get by_field stored = Some current
            ∧ od_get by_field data = Some area_area
            ∧ py_add current area_area = Some total
            ∧ entry = od_set by_field total stored
      end.
Proof.
  unfold FeatureProcess._set_cell, candidate_at.
  destruct (od_get cell (FeatureProcess.cells s)) as [areas|]; simpl.
  - destruct (od_get area_name areas) as [stored|].
    + destruct (od_get by_field data) as [add|]; simpl; [|done].
      destruct (od_get by_field stored) as [cur|]; simpl; [|done].
      destruct (py_add cur add) as [total|] eqn:Hadd; simpl; [|done].
      intros [= <-]. eexists. split; [done|]. by exists cur, add, total.
    + intros [= <-]. by eexists.
  - intros [= <-]. by eexists.
Qed.

Lemma candidate_at_set cell area_name entry c n s :
  candidate_at c n
    (FeatureProcess.with_cells
       (od_set cell
          (od_set area_name entry
             (default [] (od_get cell (FeatureProcess.cells s))))
          (FeatureProcess.cells s)) s)
  = if decide ((cell, area_name) = (c, n)) then Some entry
    else candidate_at c n s.
Proof.
  unfold candidate_at. simpl.
  destruct (decide (cell = c)) as [->|Hc].
  - rewrite od_get_set_eq. simpl.
    destruct (decide (area_name = n)) as [->|Hn].
    + rewrite decide_True by done. apply od_get_set_eq.
    + rewrite decide_False by congruence. rewrite od_get_set_ne by done.
      by destruct (od_get c (FeatureProcess.cells s)).
  - rewrite decide_False by congruence. by rewrite od_get_set_ne.
Qed.

(** X6. After a successful [_set_cell] there is a candidate for its cell and
    name; the cells known before keep their places, and so do the names
    known before at the cell, new ones going last. When the cell and name
    had no candidate before, no dictionary is updated in place: the
    candidate stored is the data given, the candidate of every other cell
    or name is as it was, and nothing outside [cells] changes, the records
    of earlier resolutions included. *)
Theorem set_cell_frame cell area_name data by_field s s' :
  FeatureProcess._set_cell cell area_name data by_field s = Some s' →
  is_Some (candidate_at cell area_name s')
  ∧ (FeatureProcess.cells s).*1 `prefix_of` (FeatureProcess.cells s').*1
  ∧ (∀ areas, od_get cell (FeatureProcess.cells s) = Some areas →
       ∃ areas', od_get cell (FeatureProcess.cells s') = Some areas'
                 ∧ areas.*1 `prefix_of` areas'.*1)
  ∧ (candidate_at cell area_name s = None →
     candidate_at cell area_name s' = Some data
     ∧ (∀ c n, (c, n) ≠ (cell, area_name) →
          candidate_at c n s' = candidate_at c n s)
     ∧ s' = FeatureProcess.with_cells (FeatureProcess.cells s') s).
Proof.
  intros (entry & -> & Hentry)%set_cell_shape. split_and!.
  - rewrite candidate_at_set, decide_True by done. by eexists.
  - apply od_set_keys_prefix.
  - intros areas Ha. simpl. rewrite od_get_set_eq, Ha. simpl.
    eexists. split; [done|]. apply od_set_keys_prefix.
  - intros Hnew. rewrite Hnew in Hentry. subst entry. split_and!.
    + by rewrite candidate_at_set, decide_True.
    + intros c n Hne.
      rewrite candidate_at_set, decide_False; [done|congruence].
    + done.
Qed.

Lemma set_cell_frame_witness :
  ∃ s',
    FeatureProcess._set_cell {| Cell.row := 5; Cell.col := 6 |} "C"
      (candidate "C" "main" 2 1) "area" example_accumulated = Some s'
    ∧ candidate_at example_cell "B" s' = Some (candidate "B" "main" 1 8).
Proof.
  destruct (FeatureProcess._set_cell {| Cell.row := 5; Cell.col := 6 |} "C"
              (candidate "C" "main" 2 1) "area" example_accumulated)
    as [s'|] eqn:Hs; [|by vm_compute in Hs].
  exists s'. split; [done|].
  destruct (set_cell_frame _ _ _ _ _ _ Hs) as (_ & _ & _ & Hnew).
  destruct Hnew as (_ & Hother & _); [by vm_compute|].
  by rewrite Hother.
Defined.

(** ** Totals of a stream of fragments *)

Lemma metric_of_set by_field z (d : Data) :
  metric_of by_field (od_set by_field (VInt z) d) = z.
Proof. unfold metric_of. by rewrite od_get_set_eq. Qed.

Lemma has_metric_of by_field (d : Data) :
  has_metric by_field d → od_get by_field d = Some (VInt (metric_of by_field d)).
Proof. intros [z Hz]. unfold metric_of. by rewrite Hz. Qed.

(** What one well-formed [_set_cell] makes of the candidate of any cell and
    name. *)
Lemma set_cell_candidate by_field cell area_name data c n s :
  aggregator_inv s → wf_cells by_field (FeatureProcess.cells s) →
  wf_candidate by_field data →
  ∃ s',
    FeatureProcess._set_cell cell area_name data by_field s = Some s'
    ∧ aggregator_inv s' ∧ wf_cells by_field (FeatureProcess.cells s')
    ∧ candidate_at c n s'
      = if decide ((cell, area_name) = (c, n))
        then merge_candidate by_field (candidate_at c n s) data
        else candidate_at c n s.
Proof.
  intros Hinv Hwf Hd.
  destruct (set_cell_ok by_field cell area_name data s Hinv Hwf Hd)
    as (s' & _ & Hs' & _ & Hinv' & Hwf').
  exists s'. split_and!; try done.
  destruct (set_cell_shape _ _ _ _ _ _ Hs') as (entry & -> & Hentry).
  rewrite candidate_at_set. case_decide as Heq; [|done].
  injection Heq as <- <-. unfold merge_candidate.
  destruct (candidate_at cell area_name s) as [stored|] eqn:Hst; [|by subst].
  destruct Hentry as (cur & add & total & Hcur & Hadd & Htot & ->).
  assert (wf_candidate by_field stored) as [Hms _].
  { unfold candidate_at in Hst.
    destruct (od_get cell (FeatureProcess.cells s)) as [areas|] eqn:Ha; [|done].
    destruct (wf_cells_lookup _ _ _ _ Hwf Ha) as [_ Hall].
    rewrite Forall_forall in Hall. apply Hall.
    apply od_get_Some_elem in Hst. by apply (list_elem_of_fmap_2 snd) in Hst. }
  destruct Hd as [Hmd _].
  rewrite (has_metric_of _ _ Hms) in Hcur. rewrite (has_metric_of _ _ Hmd) in Hadd.
  injection Hcur as <-. injection Hadd as <-. simpl in Htot. by injection Htot as <-.
Qed.

Lemma merge_candidate_sum by_field (st : Data) (ds : list Data) :
  has_metric by_field st →
  foldl (merge_candidate by_field) (Some st) ds
  = Some (od_set by_field
            (VInt (metric_of by_field st + sum_metrics by_field ds)) st).
Proof.
  revert st. induction ds as [|d ds IH]; intros st Hst; simpl.
  - rewrite Z.add_0_r. f_equal. symmetry. by apply od_set_id, has_metric_of.
  - rewrite IH.
    + rewrite metric_of_set, od_set_set. do 3 f_equal. lia.
    + eexists. apply od_get_set_eq.
Qed.

(** X7. From a state that holds no candidate for a cell and a name, a stream
    of well-formed fragments leaves none when no fragment falls on the pair,
    and otherwise leaves the data of the first such fragment with its metric
    replaced by the sum of the metrics of all of them. *)
Theorem accumulate_all_totals by_field frags cell area_name s :
  aggregator_inv s → wf_cells by_field (FeatureProcess.cells s) →
  Forall (λ fr : Fragment, wf_candidate by_field fr.2) frags →
  candidate_at cell area_name s = None →
  ∃ s',
    accumulate_all by_field frags s = Some s'
    ∧ candidate_at cell area_name s'
      = match fragments_for cell area_name frags with
        | [] => None
        | d :: ds =>
            Some (od_set by_field (VInt (sum_metrics by_field (d :: ds))) d)
        end.
Proof.
  intros Hinv Hwf Hfr Hnone.
  assert (∃ s',
            accumulate_all by_field frags s = Some s'
            ∧ candidate_at cell area_name s'
              = foldl (merge_candidate by_field) (candidate_at cell area_name s)
                  (fragments_for cell area_name frags)) as (s' & Hs' & Hc).
  { clear Hnone. revert s Hinv Hwf.
    induction Hfr as [|[[c n] d] frags Hd Hfr IH]; intros s Hinv Hwf.
    - by exists s.
    - destruct (set_cell_candidate by_field c n d cell area_name s Hinv Hwf Hd)
        as (s1 & Hs1 & Hinv1 & Hwf1 & Hc1).
      destruct (IH s1 Hinv1 Hwf1) as (s' & Hs' & Hc').
      exists s'. split.
      + unfold accumulate_all in *. simpl. by rewrite Hs1.
      + rewrite Hc', Hc1. unfold fragments_for. rewrite filter_cons. simpl.
        case_decide as Heq.
        * injection Heq as -> ->. by rewrite decide_True.
        * rewrite decide_False; [done|]. intros [? ?]. by subst. }
  exists s'. split; [done|]. rewrite Hc, Hnone.
  assert (Forall (has_metric by_field) (fragments_for cell area_name frags)) as Hm.
  { unfold fragments_for. rewrite Forall_fmap. apply Forall_forall.
    intros fr [_ Hin]%list_elem_of_filter.
    rewrite Forall_forall in Hfr. by destruct (Hfr _ Hin). }
  destruct (fragments_for cell area_name frags) as [|d ds]; [done|].
  simpl. apply Forall_cons in Hm as [Hd _].
  by rewrite merge_candidate_sum.
Qed.

Lemma accumulate_all_totals_witness :
  ∃ s',
    accumulate_all "area"
      [(example_cell, "A"%string, candidate "A" "main" 1 3);
       (example_cell, "B"%string, candidate "B" "main" 1 8);
       (example_cell, "A"%string, candidate "A" "main" 1 4)]
      (example_state "CatchmentProcess" "catchment") = Some s'
    ∧ candidate_at example_cell "A" s' = Some (candidate "A" "main" 1 7).
Proof.
  destruct (accumulate_all_totals "area"
              [(example_cell, "A"%string, candidate "A" "main" 1 3);
               (example_cell, "B"%string, candidate "B" "main" 1 8);
               (example_cell, "A"%string, candidate "A" "main" 1 4)]
              example_cell "A" (example_state "CatchmentProcess" "catchment"))
    as (s' & Hs' & Hc).
  - split; [constructor|apply prefix_nil].
  - constructor.
  - repeat constructor; simpl; by eexists.
  - reflexivity.
  - exists s'. split; [done|]. rewrite Hc. by vm_compute.
Defined.

(** ** A candidate without metric *)

Lemma set_cell_by_criteria_None criteria_func by_field s cell :
  cell ∈ (FeatureProcess.cells s).*1 →
  FeatureProcess.cell_record criteria_func by_field (FeatureProcess.cells s) cell
  = None →
  FeatureProcess._set_cell_by_criteria criteria_func by_field s = None.
Proof.
  intros Hin Hrec. rewrite set_cell_by_criteria_unfold.
  rewrite (mapM_None_2 _ (FeatureProcess.cells s).*1); [done|].
  apply Exists_exists. exists cell. split; [done|]. simpl. by rewrite Hrec.
Qed.

(** X8. [_set_cell] does not look at the data of a new candidate: one that
    lacks the metric field is stored as it is. The failure comes later: the
    ordering of its cell raises, so does every resolution, and so does any
    further fragment for the same cell and name. *)
Theorem candidate_without_metric_fails_late cell area_name data by_field s :
  candidate_at cell area_name s = None →
  od_get by_field data = None →
  ∃ s',
    FeatureProcess._set_cell cell area_name data by_field s = Some s'
    ∧ candidate_at cell area_name s' = Some data
    ∧ FeatureProcess._cell_order_criteria_default cell
        (FeatureProcess.cells s') by_field = None
    ∧ resolve by_field s' = None
    ∧ ∀ data2,
        FeatureProcess._set_cell cell area_name data2 by_field s' = None.
Proof.
  intros Hnew Hd.
  set (areas1 := default [] (od_get cell (FeatureProcess.cells s))
                   ++ [(area_name, data)]).
  set (s' := FeatureProcess.with_cells
               (od_set cell areas1 (FeatureProcess.cells s)) s).
  assert (area_name ∉ (default [] (od_get cell (FeatureProcess.cells s))).*1)
    as Hfresh.
  { unfold candidate_at in Hnew.
    destruct (od_get cell (FeatureProcess.cells s)); simpl in *.
    - by apply od_get_None.
    - apply not_elem_of_nil. }
  assert (od_get cell (FeatureProcess.cells s') = Some areas1) as Hc
    by apply od_get_set_eq.
  assert (od_get area_name areas1 = Some data) as Ha.
  { unfold areas1. rewrite <- (od_set_fresh _ _ _ Hfresh). apply od_get_set_eq. }
  assert (FeatureProcess._cell_order_criteria_default cell
            (FeatureProcess.cells s') by_field = None) as Hord.
  { unfold FeatureProcess._cell_order_criteria_default. rewrite Hc. simpl.
    unfold py_sorted_reverse.
    rewrite (mapM_None_2 _ areas1); [done|].
    apply Exists_exists. exists (area_name, data). split.
    - by apply od_get_Some_elem.
    - simpl. by rewrite Hd. }
  exists s'. split_and!.
  - by apply set_cell_new.
  - unfold candidate_at. rewrite Hc. simpl. exact Ha.
  - exact Hord.
  - apply (set_cell_by_criteria_None _ _ _ cell).
    + apply od_get_is_Some. by eexists.
    + unfold FeatureProcess.cell_record. by rewrite Hord.
  - intros data2. unfold FeatureProcess._set_cell. rewrite Hc, Ha.
    destruct (od_get by_field data2); simpl; by rewrite ?Hd.
Qed.

Lemma candidate_without_metric_fails_late_witness :
  ∃ s',
    FeatureProcess._set_cell example_cell "A"
      [("name"%string, VStr "A"); ("cell_id"%string, VInt 1)] "area"
      (example_state "CatchmentProcess" "catchment") = Some s'
    ∧ resolve "area" s' = None.
Proof.
  destruct (candidate_without_metric_fails_late example_cell "A"
              [("name"%string, VStr "A"); ("cell_id"%string, VInt 1)] "area"
              (example_state "CatchmentProcess" "catchment"))
    as (s' & Hs' & _ & _ & Hres & _); [reflexivity..|].
  by exists s'.
Defined.

(** ** The winner of a cell *)

(** X9. With integer metrics and at least one candidate, the first element of
    the default ordering is a candidate of the cell whose metric no other
    candidate exceeds, and among the candidates with that metric it is the
    one inserted first; the record of the cell takes its cell id and counts
    all the candidates. *)
Theorem default_order_winner cell cells_dict by_field areas :
  od_get cell cells_dict = Some areas → areas ≠ [] →
  Forall (has_metric by_field) areas.*2 →
  ∃ first rest,
    FeatureProcess._cell_order_criteria_default cell cells_dict by_field
    = Some (first :: rest)
    ∧ first ∈ areas.*2
    ∧ (∀ d, d ∈ areas.*2 → metric_of by_field d ≤ metric_of by_field first)
    ∧ head (filter (λ d, metric_of by_field d = metric_of by_field first) areas.*2)
      = Some first
    ∧ ∀ cid,
        od_get "cell_id"%string first = Some cid →
        FeatureProcess.cell_record FeatureProcess._cell_order_criteria_default
          by_field cells_dict cell
        = Some {| FeatureProcess.number_of_data := length areas;
                  FeatureProcess.cell_id := cid;
                  FeatureProcess.row := Cell.row cell;
                  FeatureProcess.col := Cell.col cell;
                  FeatureProcess.data := first :: rest |}.
Proof.
  intros Hget Hne Hm.
  assert (∃ ordered,
            FeatureProcess._cell_order_criteria_default cell cells_dict by_field
            = Some ordered
            ∧ ordered ≡ₚ areas.*2
            ∧ StronglySorted
                (λ a b, metric_of by_field b ≤ metric_of by_field a) ordered
            ∧ ∀ m, filter (λ d, metric_of by_field d = m) ordered
                   = filter (λ d, metric_of by_field d = m) areas.*2)
    as (ordered & Hord & Hp & Hs & Hst).
  { unfold FeatureProcess._cell_order_criteria_default. rewrite Hget. simpl.
    destruct (py_sorted_reverse_spec
                (λ x : string * Data, metric_of by_field x.2)
                (λ x : string * Data, od_get by_field x.2) areas)
      as (out & Hout & Hp & Hs & Hst).
    { rewrite Forall_fmap in Hm. eapply Forall_impl; [exact Hm|].
      intros [n d] Hd. by apply has_metric_of. }
    rewrite Hout. simpl. exists (out.*2). split_and!; [done| | |].
    - by rewrite Hp.
    - by apply (StronglySorted_fmap snd
                  (λ a b : string * Data,
                     metric_of by_field b.2 ≤ metric_of by_field a.2)).
    - intros m. rewrite !(filter_fmap snd (λ d, metric_of by_field d = m)).
      f_equal. apply Hst. }
  destruct ordered as [|first rest].
  { apply Permutation_nil_l in Hp. symmetry in Hp.
    by apply fmap_nil_inv in Hp. }
  exists first, rest. apply StronglySorted_inv in Hs as [_ Hall].
  split_and!.
  - done.
  - rewrite <- Hp. apply list_elem_of_here.
  - intros d Hd. rewrite <- Hp in Hd.
    apply elem_of_cons in Hd as [->|Hd]; [done|].
    rewrite Forall_forall in Hall. by apply Hall.
  - rewrite <- Hst. by rewrite filter_cons_True.
  - intros cid Hcid. unfold FeatureProcess.cell_record.
    rewrite Hord. cbn [mbind option_bind]. rewrite py_getitem_0.
    cbn [head mbind option_bind]. rewrite Hcid. cbn [mbind option_bind].
    do 2 f_equal. apply Permutation_length in Hp.
    rewrite length_fmap in Hp. simpl in Hp. done.
Qed.

Lemma default_order_winner_witness :
  ∃ rest,
    FeatureProcess._cell_order_criteria_default example_cell
      [(example_cell,
        [("x"%string, candidate "x" "main" 1 5);
         ("y"%string, candidate "y" "main" 2 9);
         ("z"%string, candidate "z" "main" 3 9)])] "area"
    = Some (candidate "y" "main" 2 9 :: rest).
Proof.
  destruct (default_order_winner example_cell
              [(example_cell,
                [("x"%string, candidate "x" "main" 1 5);
                 ("y"%string, candidate "y" "main" 2 9);
                 ("z"%string, candidate "z" "main" 3 9)])] "area"
              [("x"%string, candidate "x" "main" 1 5);
               ("y"%string, candidate "y" "main" 2 9);
               ("z"%string, candidate "z" "main" 3 9)])
    as (first & rest & Hord & _ & Hmax & Hhead & _).
  - reflexivity.
  - done.
  - repeat constructor; by eexists.
  - exists rest. rewrite Hord. do 2 f_equal.
    assert (metric_of "area" first = 9) as Hf.
    { assert (9 ≤ metric_of "area" first) as H9.
      { apply (Hmax (candidate "y" "main" 2 9)).
        apply (list_elem_of_lookup_2 _ 1%nat). reflexivity. }
      revert Hord H9. vm_compute. intros [= <- _]. done. }
    rewrite Hf in Hhead. by injection Hhead as <-.
Defined.

(** ** What resolution touches *)

Lemma foldl_od_set_other {K V : Type} `{EqDecision K} (rs : list (K * V)) d k :
  k ∉ rs.*1 →
  od_get k (foldl (λ d kv, od_set kv.1 kv.2 d) d rs) = od_get k d.
Proof.
  revert d. induction rs as [|[k' v'] rs IH]; intros d Hk; csimpl in *; [done|].
  apply not_elem_of_cons in Hk as [Hne Hk].
  rewrite IH by done. by apply od_get_set_ne.
Qed.

Lemma foldl_od_set_keys_prefix {K V : Type} `{EqDecision K} (rs : list (K * V)) d :
  d.*1 `prefix_of` (foldl (λ d kv, od_set kv.1 kv.2 d) d rs).*1.
Proof.
  revert d. induction rs as [|[k v] rs IH]; intros d; csimpl; [done|].
  etrans; [apply (od_set_keys_prefix k v)|apply IH].
Qed.

(** X10. For any ordering criteria, resolution returns exactly when the
    record of every accumulated cell can be built; one cell whose ordering
    raises, is empty or lacks a cell id makes the whole resolution raise.
    When it returns, the record of each accumulated cell is the one built
    from the accumulated state, a record of any other cell is left as it
    was, no record is removed or moved, and nothing but [cell_ids] changes. *)
Theorem set_cell_by_criteria_lookup criteria_func by_field s :
  (is_Some (FeatureProcess._set_cell_by_criteria criteria_func by_field s)
   ↔ Forall
       (λ c, is_Some (FeatureProcess.cell_record criteria_func by_field
                        (FeatureProcess.cells s) c))
       (FeatureProcess.cells s).*1)
  ∧ ∀ s',
      FeatureProcess._set_cell_by_criteria criteria_func by_field s = Some s' →
      s' = FeatureProcess.with_cell_ids (FeatureProcess.cell_ids s') s
      ∧ (∀ c, od_get c (FeatureProcess.cell_ids s')
              = if decide (c ∈ (FeatureProcess.cells s).*1)
                then FeatureProcess.cell_record criteria_func by_field
                       (FeatureProcess.cells s) c
                else od_get c (FeatureProcess.cell_ids s))
      ∧ (FeatureProcess.cell_ids s).*1 `prefix_of` (FeatureProcess.cell_ids s').*1.
Proof.
  rewrite set_cell_by_criteria_unfold. split.
  - destruct (mapM _ (FeatureProcess.cells s).*1) as [rs|] eqn:Hrs; simpl.
    + split; [intros _|by eexists].
      assert (is_Some (mapM
                         (λ cell,
                            r ← FeatureProcess.cell_record criteria_func by_field
                                  (FeatureProcess.cells s) cell;
                            Some (cell, r))
                         (FeatureProcess.cells s).*1)) as Hsome
        by (by eexists).
      apply mapM_is_Some_1 in Hsome. eapply Forall_impl; [exact Hsome|].
      intros c. simpl.
      by destruct (FeatureProcess.cell_record _ _ _ c); [eexists|intros [? ?]].
    + split; [by intros [? ?]|]. intros Hall.
      assert (is_Some (mapM
                         (λ cell,
                            r ← FeatureProcess.cell_record criteria_func by_field
                                  (FeatureProcess.cells s) cell;
                            Some (cell, r))
                         (FeatureProcess.cells s).*1)) as [rs Hrs'];
        [|congruence].
      apply mapM_is_Some_2. eapply Forall_impl; [exact Hall|].
      intros c [r Hr]. simpl. rewrite Hr. by eexists.
  - intros s'.
    destruct (mapM _ (FeatureProcess.cells s).*1) as [rs|] eqn:Hrs; simpl; [|done].
    intros [= <-]. simpl. split_and!; [done| |apply foldl_od_set_keys_prefix].
    pose proof (record_of_keys _ _ _ _ _ Hrs) as Hkeys.
    intros c. case_decide as Hin.
    + rewrite <- Hkeys in Hin.
      apply list_elem_of_fmap in Hin as ([c' r] & -> & Hin). simpl.
      rewrite (record_of_elem _ _ _ _ _ _ _ Hrs Hin).
      apply foldl_od_set_all; [|done].
      intros k r1 r2 H1 H2.
      pose proof (record_of_elem _ _ _ _ _ _ _ Hrs H1).
      pose proof (record_of_elem _ _ _ _ _ _ _ Hrs H2). congruence.
    + apply foldl_od_set_other. by rewrite Hkeys.
Qed.

Lemma set_cell_by_criteria_lookup_witness :
  ∃ s',
    resolve "area" example_accumulated = Some s'
    ∧ FeatureProcess.cells s' = FeatureProcess.cells example_accumulated
    ∧ od_get {| Cell.row := 5; Cell.col := 6 |} (FeatureProcess.cell_ids s') = None.
Proof.
  destruct (resolve "area" example_accumulated) as [s'|] eqn:Hs;
    [|by vm_compute in Hs].
  exists s'. split; [done|].
  destruct (proj2 (set_cell_by_criteria_lookup
                     FeatureProcess._cell_order_criteria_default "area"
                     example_accumulated) s' Hs) as (Heq & Hlook & _).
  split.
  - by rewrite Heq.
  - rewrite Hlook. by vm_compute.
Defined.

(** ** The export columns of a cell *)

Lemma mapM_fail {A B : Type} (f : A → option B) (l : list A) x :
  x ∈ l → f x = None → mapM f l = None.
Proof.
  intros Hx Hf. destruct (mapM f l) as [ys|] eqn:Hm; [|done].
  assert (is_Some (mapM f l)) as Hs by (by eexists).
  apply mapM_is_Some_1 in Hs. rewrite Forall_forall in Hs.
  destruct (Hs x Hx) as [y Hy]. congruence.
Qed.

Lemma py_range_elem (n i : Z) : 0 ≤ i < n → i ∈ py_range n.
Proof. intros Hi. unfold py_range. apply elem_of_seqZ. lia. Qed.

Lemma py_getitem_ge {A : Type} (l : list A) (i : Z) :
  Z.of_nat (length l) ≤ i → py_getitem l i = None.
Proof.
  intros Hi. unfold py_getitem.
  rewrite bool_decide_false by lia. by rewrite bool_decide_false by lia.
Qed.

Lemma for_each_mapM {S A B : Type} (f : A → option B) (g : S → B → S) s l :
  for_each (λ s x, y ← f x; Some (g s y)) s l
  = ys ← mapM f l; Some (foldl g s ys).
Proof.
  revert s. induction l as [|x l IH]; intros s; simpl; [done|].
  destruct (f x) as [y|]; simpl; [|done].
  rewrite IH. by destruct (mapM f l).
Qed.

Lemma blank_columns_keys names : (blank_columns names).*1 = names.
Proof.
  unfold blank_columns. rewrite <- list_fmap_compose.
  rewrite <- (list_fmap_id names) at 2. by apply list_fmap_ext.
Qed.

Lemma empty_columns_take col_names (n : Z) :
  (Z.to_nat n ≤ length col_names)%nat →
  NoDup (take (Z.to_nat n) col_names) →
  FeatureProcess.empty_columns col_names n
  = Some (blank_columns (take (Z.to_nat n) col_names)).
Proof.
  intros Hcn Hnd. unfold FeatureProcess.empty_columns. rewrite py_range_nat.
  match goal with
  | |- mapM ?f ?l ≫= _ = _ =>
      assert (mapM f l = Some (blank_columns (take (Z.to_nat n) col_names)))
        as ->
  end.
  { apply mapM_Some_2, Forall2_fmap_l, Forall2_same_length_lookup_2.
    - unfold blank_columns.
      rewrite length_seq, length_fmap, length_take_le by done. lia.
    - intros i j [c v] [-> Hi]%lookup_seq Hc.
      unfold blank_columns in Hc. rewrite list_lookup_fmap in Hc.
      destruct (take _ _ !! i) as [c'|] eqn:Hc'; simplify_eq/=.
      rewrite lookup_take_lt in Hc' by done.
      rewrite py_getitem_nat, Hc'. done. }
  simpl. f_equal. apply od_of_list_NoDup. by rewrite blank_columns_keys.
Qed.

(** The padding loop of [get_data_to_save] walks the column names from the
    last one down to the first unfilled one. *)
Lemma pad_loop col_names (cols : Z) (k : nat) data :
  (k ≤ Z.to_nat cols)%nat → (Z.to_nat cols ≤ length col_names)%nat →
  NoDup (data.*1 ++ reverse (drop k (take (Z.to_nat cols) col_names))) →
  for_each
    (λ data j,
       c ← py_getitem col_names (cols - (j + 1));
       Some (od_set c (VStr EmptyString) data))
    data (py_range (cols - Z.of_nat k))
  = Some (data
          ++ blank_columns
               (reverse (drop k (take (Z.to_nat cols) col_names)))).
Proof.
  intros Hk Hcn Hnd.
  rewrite (for_each_mapM (λ j, py_getitem col_names (cols - (j + 1)))
             (λ data c, od_set c (VStr EmptyString) data)).
  rewrite py_range_nat.
  assert (mapM (λ j, py_getitem col_names (cols - (j + 1)))
            (Z.of_nat <$> seq 0 (Z.to_nat (cols - Z.of_nat k)))
          = Some (reverse (drop k (take (Z.to_nat cols) col_names)))) as ->.
  { apply mapM_Some_2, Forall2_fmap_l, Forall2_same_length_lookup_2.
    - rewrite length_seq, length_reverse, length_drop, length_take_le by done.
      lia.
    - intros i j c [-> Hi]%lookup_seq [Hc Hlen]%reverse_lookup_Some.
      rewrite length_drop, length_take_le in Hc, Hlen by done.
      rewrite lookup_drop, lookup_take_lt in Hc by lia.
      unfold compose. cbn beta.
      replace (cols - (Z.of_nat (0 + i) + 1))
        with (Z.of_nat (k + (Z.to_nat cols - k - S i))) by lia.
      by rewrite py_getitem_nat. }
  simpl. f_equal. unfold blank_columns.
  rewrite <- (od_of_list_app_NoDup data).
  - by rewrite foldl_fmap.
  - by rewrite fmap_app, (blank_columns_keys _).
Qed.

(** X11. A cell with fewer main-map candidates than export columns: the
    first columns take the candidates' names in ranking order, and every
    remaining column is set to the empty string, the last column first, so
    the blank columns follow in reversed column order. All columns are
    present, and nothing is recorded in the ledger. *)
Theorem get_data_to_save_pads `{!FeatureProcess.Processor}
    cell s col_data names :
  FeatureProcess.get_cell_data_by_map (FeatureProcess.get_main_map_name s) cell s
    = Some col_data →
  col_data ≠ [] →
  Z.of_nat (length col_data) ≤ FeatureProcess.get_columns_to_save s →
  (Z.to_nat (FeatureProcess.get_columns_to_save s)
   ≤ length (FeatureProcess.get_column_to_export s))%nat →
  NoDup (take (Z.to_nat (FeatureProcess.get_columns_to_save s))
           (FeatureProcess.get_column_to_export s)) →
  Forall2 (λ d v, od_get "name"%string d = Some v) col_data names →
  FeatureProcess.get_data_to_save cell true s
  = Some (zip (take (length col_data) (FeatureProcess.get_column_to_export s))
            names
          ++ blank_columns
               (reverse
                  (drop (length col_data)
                     (take (Z.to_nat (FeatureProcess.get_columns_to_save s))
                        (FeatureProcess.get_column_to_export s)))),
          s)
  ∧ length (zip (take (length col_data) (FeatureProcess.get_column_to_export s))
              names
            ++ blank_columns
                 (reverse
                    (drop (length col_data)
                       (take (Z.to_nat (FeatureProcess.get_columns_to_save s))
                          (FeatureProcess.get_column_to_export s)))))
    = Z.to_nat (FeatureProcess.get_columns_to_save s).
Proof.
  unfold FeatureProcess.get_columns_to_save, FeatureProcess.get_feature_type.
  set (cols := ConfigApp.get_columns_to_save _ _).
  set (col_names := FeatureProcess.get_column_to_export s).
  intros Hget Hne Hle Hcn Hnd Hnames.
  pose proof (Forall2_length _ _ _ Hnames) as Hlen.
  set (k := length col_data) in *.
  assert (take k col_names = take k (take (Z.to_nat cols) col_names)) as Htk.
  { rewrite take_take. f_equal. lia. }
  split.
  - unfold FeatureProcess.get_data_to_save, FeatureProcess.get_feature_type.
    fold cols col_names. rewrite Hget. cbn [mbind option_bind].
    destruct col_data as [|d0 rest]; [done|].
    set (col_data := d0 :: rest) in *. fold k.
    rewrite (bool_decide_false (cols < _)) by lia.
    cbn [andb mbind option_bind]. rewrite Z.min_r by lia.
    rewrite (named_columns_take _ _ _ names); rewrite ?Nat2Z.id; fold k.
    + cbn [mbind option_bind]. rewrite pad_loop; [done|lia|done|].
      rewrite fst_zip by (rewrite length_take_le by lia; lia).
      rewrite Htk, reverse_Permutation, take_drop. done.
    + lia.
    + lia.
    + lia.
    + rewrite Htk. eapply sublist_NoDup; [exact Hnd|apply sublist_take].
    + by rewrite take_ge by (fold k; lia).
  - rewrite length_app, length_zip, length_take_le by lia.
    unfold blank_columns.
    rewrite length_fmap, length_reverse, length_drop, length_take_le by done.
    lia.
Qed.

Lemma get_data_to_save_pads_witness :
  FeatureProcess.get_data_to_save (H := example_wide) example_cell true
    example_wide_state
  = Some ([("C1"%string, VStr "a"); ("C4"%string, VStr "");
           ("C3"%string, VStr ""); ("C2"%string, VStr "")],
          example_wide_state).
Proof.
  destruct (get_data_to_save_pads (H := example_wide) example_cell
              example_wide_state [candidate "a" "main" 1 9] [VStr "a"])
    as [Hrun _].
  - by vm_compute.
  - done.
  - by vm_compute.
  - vm_compute. lia.
  - apply (bool_decide_unpack _). by vm_compute.
  - repeat constructor.
  - rewrite Hrun. by vm_compute.
Defined.

(** X12. A cell the processor has no record for, or whose record has no
    candidate of the main map, is exported with every column present and
    blank, in column order; the state is unchanged. *)
Theorem get_data_to_save_blank `{!FeatureProcess.Processor} cell s :
  (od_get cell (FeatureProcess.cell_ids s) = None
   ∨ FeatureProcess.get_cell_data_by_map (FeatureProcess.get_main_map_name s)
       cell s = Some []) →
  (Z.to_nat (FeatureProcess.get_columns_to_save s)
   ≤ length (FeatureProcess.get_column_to_export s))%nat →
  NoDup (take (Z.to_nat (FeatureProcess.get_columns_to_save s))
           (FeatureProcess.get_column_to_export s)) →
  FeatureProcess.get_data_to_save cell true s
  = Some (blank_columns
            (take (Z.to_nat (FeatureProcess.get_columns_to_save s))
               (FeatureProcess.get_column_to_export s)),
          s).
Proof.
  unfold FeatureProcess.get_columns_to_save, FeatureProcess.get_feature_type.
  intros Hcell Hcn Hnd.
  assert (FeatureProcess.get_cell_data_by_map
            (FeatureProcess.get_main_map_name s) cell s = Some []) as Hget.
  { destruct Hcell as [Hnone|Hemp]; [|done].
    unfold FeatureProcess.get_cell_data_by_map. by rewrite Hnone. }
  unfold FeatureProcess.get_data_to_save, FeatureProcess.get_feature_type.
  rewrite Hget. cbn [mbind option_bind].
  by rewrite empty_columns_take.
Qed.

Lemma get_data_to_save_blank_witness :
  FeatureProcess.get_data_to_save (H := example_wide)
    {| Cell.row := 8; Cell.col := 8 |} true example_wide_state
  = Some ([("C1"%string, VStr ""); ("C2"%string, VStr "");
           ("C3"%string, VStr ""); ("C4"%string, VStr "")],
          example_wide_state).
Proof.
  rewrite (get_data_to_save_blank (H := example_wide)).
  - by vm_compute.
  - left. by vm_compute.
  - vm_compute. lia.
  - apply (bool_decide_unpack _). by vm_compute.
Defined.

(** X13. When the processor exports fewer column names than the configured
    number of columns, the export of the main columns fails for every cell,
    with or without candidates: some column index is out of range. *)
Theorem get_data_to_save_too_few_names `{!FeatureProcess.Processor} cell s :
  (length (FeatureProcess.get_column_to_export s)
   < Z.to_nat (FeatureProcess.get_columns_to_save s))%nat →
  FeatureProcess.get_data_to_save cell true s = None.
Proof.
  unfold FeatureProcess.get_columns_to_save, FeatureProcess.get_feature_type.
  set (cols := ConfigApp.get_columns_to_save _ _).
  set (col_names := FeatureProcess.get_column_to_export s).
  intros Hlt.
  unfold FeatureProcess.get_data_to_save, FeatureProcess.get_feature_type.
  fold cols col_names.
  destruct (FeatureProcess.get_cell_data_by_map _ cell s) as [col_data|];
    [|done].
  cbn [mbind option_bind].
  destruct col_data as [|d0 rest].
  - unfold FeatureProcess.empty_columns.
    rewrite (mapM_fail _ _ (Z.of_nat (length col_names))); [done| |].
    + apply py_range_elem. lia.
    + by rewrite py_getitem_nat, lookup_ge_None_2.
  - set (col_data := d0 :: rest).
    match goal with |- (?m ≫= _) = None => destruct m as [s'|]; [|done] end.
    cbn [mbind option_bind].
    destruct (decide (cols ≤ Z.of_nat (length col_data))) as [Hle|Hgt].
    + rewrite Z.min_l by done. unfold FeatureProcess.named_columns.
      rewrite (mapM_fail _ _ (Z.of_nat (length col_names))); [done| |].
      * apply py_range_elem. lia.
      * cbn beta. rewrite (py_getitem_nat col_names).
        by rewrite (lookup_ge_None_2 col_names).
    + rewrite Z.min_r by lia.
      destruct (FeatureProcess.named_columns _ _ _) as [data|]; [|done].
      cbn [mbind option_bind].
      rewrite py_range_nat.
      destruct (Z.to_nat (cols - Z.of_nat (length col_data))) as [|n] eqn:Hn;
        [lia|].
      cbn [seq fmap list_fmap for_each].
      rewrite py_getitem_ge by lia. done.
Qed.

Lemma get_data_to_save_too_few_names_witness :
  FeatureProcess.get_data_to_save (H := example_processor) example_cell true
    example_wide_state = None.
Proof.
  apply (get_data_to_save_too_few_names (H := example_processor)).
  vm_compute. lia.
Defined.








(** ** The superposition check: what is collected and what is recorded *)

Section superposition_scans.
Import SuperpositionCheck.

Lemma node_init_operation_static node_id node s :
  base_feature_type_id (node_init_operation node_id node s)
  = base_feature_type_id s
  ∧ secondary_feature_type_id (node_init_operation node_id node s)
    = secondary_feature_type_id s
  ∧ connections (node_init_operation node_id node s) = connections s
  ∧ connection_error (node_init_operation node_id node s) = connection_error s
  ∧ errors (node_init_operation node_id node s) = errors s.
Proof. unfold node_init_operation. by case_match. Qed.

Lemma node_init_operation_lookup node_id node s i :
  nodes (node_init_operation node_id node s) !! i
  = if decide (i = node_id ∧ of_checked_type s node) then Some node
    else nodes s !! i.
Proof.
  unfold node_init_operation, of_checked_type.
  destruct (bool_decide (type_id node = base_feature_type_id s)
            || bool_decide (type_id node = secondary_feature_type_id s))
    eqn:Hrel.
  - apply orb_true_iff in Hrel.
    rewrite !bool_decide_eq_true in Hrel. simpl.
    destruct (decide (i = node_id)) as [->|Hne].
    + rewrite lookup_insert_eq. by rewrite decide_True.
    + rewrite lookup_insert_ne by done. rewrite decide_False; [done|tauto].
  - apply orb_false_iff in Hrel.
    rewrite !bool_decide_eq_false in Hrel.
    rewrite decide_False; [done|tauto].
Qed.

(** X15. The initialisation pass collects exactly the nodes of the two
    feature types of the check: a node of the base or of the secondary type
    is stored under its id, an id that only nodes of other types carry is
    left as it was, and nothing but the node table changes. *)
Theorem node_init_collects (s : t) (node_list : list (Z * Node)) :
  NoDup node_list.*1 →
  let s' := foldl (λ s n, node_init_operation n.1 n.2 s) s node_list in
  (∀ i n, (i, n) ∈ node_list → of_checked_type s n → nodes s' !! i = Some n)
  ∧ (∀ i, (∀ n, (i, n) ∈ node_list → ¬ of_checked_type s n) →
          nodes s' !! i = nodes s !! i)
  ∧ connections s' = connections s
  ∧ connection_error s' = connection_error s
  ∧ errors s' = errors s
  ∧ base_feature_type_id s' = base_feature_type_id s
  ∧ secondary_feature_type_id s' = secondary_feature_type_id s.
Proof.
  intros Hnd. revert s.
  induction node_list as [|[i0 n0] l IH]; intros s; cbn zeta.
  { split_and!; try done. by intros i n ?%elem_of_nil. }
  apply NoDup_cons in Hnd as [Hi0 Hnd]. cbn [foldl fst snd].
  destruct (node_init_operation_static i0 n0 s) as (Hb & Hs & Hc & He & Hr).
  destruct (IH Hnd (node_init_operation i0 n0 s))
    as (Hin & Hout & -> & -> & -> & -> & ->).
  assert (∀ n, of_checked_type (node_init_operation i0 n0 s) n
               ↔ of_checked_type s n) as Hty.
  { intros n. unfold of_checked_type. by rewrite Hb, Hs. }
  split_and!; try done.
  - intros i n [[= -> ->]|Hl]%elem_of_cons Hn.
    + rewrite Hout.
      * rewrite node_init_operation_lookup. by rewrite decide_True.
      * intros n Hl. destruct Hi0.
        by apply (list_elem_of_fmap_2 fst) in Hl.
    + apply Hin; [done|]. by apply Hty.
  - intros i Hnone. rewrite Hout.
    + rewrite node_init_operation_lookup. rewrite decide_False; [done|].
      intros [-> Hn0]. apply (Hnone n0); [apply list_elem_of_here|done].
    + intros n Hl Hn. apply (Hnone n); [by apply list_elem_of_further|].
      by apply Hty.
Qed.

Lemma node_init_collects_witness :
  nodes
    (foldl (λ s n, node_init_operation n.1 n.2 s) example_check
       [(5, {| type_id := 21; name := "CatchB" |});
        (6, {| type_id := 9; name := "Well" |})]) !! 5
  = Some {| type_id := 21; name := "CatchB" |}
  ∧ nodes
      (foldl (λ s n, node_init_operation n.1 n.2 s) example_check
         [(5, {| type_id := 21; name := "CatchB" |});
          (6, {| type_id := 9; name := "Well" |})]) !! 6
    = None.
Proof.
  destruct (node_init_collects example_check
              [(5, {| type_id := 21; name := "CatchB" |});
               (6, {| type_id := 9; name := "Well" |})])
    as (Hin & Hout & _).
  - apply (bool_decide_unpack _). by vm_compute.
  - split.
    + apply Hin; [apply list_elem_of_here|]. left. by vm_compute.
    + rewrite Hout; [by vm_compute|].
      intros n [[=]|[[= ->]|[]%elem_of_nil]%elem_of_cons]%elem_of_cons.
      intros [Hb|Hb]; vm_compute in Hb; done.
Defined.

Lemma set_connection_only b n x y s :
  check_connection x y (set_connection b n s) = true →
  check_connection x y s = true ∨ (x = name b ∧ y = name n).
Proof.
  unfold check_connection, set_connection.
  destruct (decide (name b = x)) as [<-|Hne].
  - destruct (connections s !! name b) as [[|x0 l]|]; simpl;
      rewrite lookup_insert_eq; simpl; intros Hc%bool_decide_eq_true.
    + apply list_elem_of_singleton in Hc. by right.
    + change (y ∈ (x0 :: l) ++ [name n]) in Hc.
      apply elem_of_app in Hc as [Hc|Hc%list_elem_of_singleton].
      * left. by apply bool_decide_eq_true.
      * by right.
    + apply list_elem_of_singleton in Hc. by right.
  - destruct (connections s !! name b) as [[|x0 l]|]; simpl;
      rewrite lookup_insert_ne by done; by left.
Qed.

Lemma id_set_Some i : id_set i = true → ∃ z, i = Some z ∧ z ≠ 0.
Proof.
  destruct i as [z|]; simpl; [|done]. intros Hz. exists z. split; [done|].
  intros ->. done.
Qed.

(** What one arc can record. *)
Lemma arc_check_operation_only arc_id arc x y s :
  check_connection x y (arc_check_operation arc_id arc s) = true →
  check_connection x y s = true
  ∨ ∃ src dst nsrc ndst,
      src_id arc = Some src ∧ dst_id arc = Some dst ∧ src ≠ 0 ∧ dst ≠ 0
      ∧ nodes s !! src = Some nsrc ∧ nodes s !! dst = Some ndst
      ∧ ((type_id nsrc = base_feature_type_id s
          ∧ type_id ndst = secondary_feature_type_id s
          ∧ x = name nsrc ∧ y = name ndst)
         ∨ (type_id nsrc = secondary_feature_type_id s
            ∧ type_id ndst = base_feature_type_id s
            ∧ x = name ndst ∧ y = name nsrc)).
Proof.
  unfold arc_check_operation.
  destruct (id_set (src_id arc) && id_set (dst_id arc)) eqn:Hids; [|by left].
  apply andb_true_iff in Hids as [(src & Hs & Hs0)%id_set_Some
                                    (dst & Hd & Hd0)%id_set_Some].
  rewrite Hs, Hd. simpl.
  destruct (nodes s !! src) as [nsrc|] eqn:Hns; [|by left].
  destruct (nodes s !! dst) as [ndst|] eqn:Hnd; [|by left].
  destruct (bool_decide (type_id nsrc = base_feature_type_id s)
            && bool_decide (type_id ndst = secondary_feature_type_id s))
    eqn:Hfwd.
  - apply andb_true_iff in Hfwd as [H1%bool_decide_eq_true H2%bool_decide_eq_true].
    intros [?|[-> ->]]%set_connection_only; [by left|].
    right. exists src, dst, nsrc, ndst. split_and!; try done. by left.
  - destruct (bool_decide (type_id nsrc = secondary_feature_type_id s)
              && bool_decide (type_id ndst = base_feature_type_id s))
      eqn:Hbwd; [|by left].
    apply andb_true_iff in Hbwd as [H1%bool_decide_eq_true H2%bool_decide_eq_true].
    intros [?|[-> ->]]%set_connection_only; [by left|].
    right. exists src, dst, nsrc, ndst. split_and!; try done. by right.
Qed.

(** X16. The edge scan records no connection of its own: a connection that
    holds after the scan held before it, or some arc of the scan has both
    endpoint ids set, both endpoints collected, and joins a node of the
    base type to a node of the secondary type, in one direction or the
    other, whose names are the connected pair. Arcs with a missing or
    uncollected endpoint, or between other types, record nothing. *)
Theorem edge_scan_sound (s : t) (arcs : list (Z * Arc)) x y :
  check_connection x y (foldl (λ s a, arc_check_operation a.1 a.2 s) s arcs)
  = true →
  check_connection x y s = true
  ∨ ∃ a src dst nsrc ndst,
      a ∈ arcs
      ∧ src_id a.2 = Some src ∧ dst_id a.2 = Some dst ∧ src ≠ 0 ∧ dst ≠ 0
      ∧ nodes s !! src = Some nsrc ∧ nodes s !! dst = Some ndst
      ∧ ((type_id nsrc = base_feature_type_id s
          ∧ type_id ndst = secondary_feature_type_id s
          ∧ x = name nsrc ∧ y = name ndst)
         ∨ (type_id nsrc = secondary_feature_type_id s
            ∧ type_id ndst = base_feature_type_id s
            ∧ x = name ndst ∧ y = name nsrc)).
Proof.
  revert s. induction arcs as [|a arcs IH]; intros s; cbn [foldl]; [by left|].
  intros Hc. destruct (arc_check_operation_static a.1 a.2 s) as (Hn & Hb & Hs & _).
  apply IH in Hc as [Hc|(a' & src & dst & nsrc & ndst & Hin & Hrest)].
  - apply arc_check_operation_only in Hc
      as [?|(src & dst & nsrc & ndst & Hrest)]; [by left|].
    right. exists a, src, dst, nsrc, ndst. split; [apply list_elem_of_here|done].
  - right. exists a', src, dst, nsrc, ndst.
    split; [by apply list_elem_of_further|].
    by rewrite Hn, Hb, Hs in Hrest.
Qed.

Lemma edge_scan_sound_witness :
  check_connection "CatchA" "GW1" example_check = true
  ∨ ∃ a src dst nsrc ndst,
      a ∈ [(10, {| src_id := Some 2; dst_id := Some 1 |});
           (11, {| src_id := Some 1; dst_id := None |})]
      ∧ src_id a.2 = Some src ∧ dst_id a.2 = Some dst ∧ src ≠ 0 ∧ dst ≠ 0
      ∧ nodes example_check !! src = Some nsrc
      ∧ nodes example_check !! dst = Some ndst
      ∧ ((type_id nsrc = base_feature_type_id example_check
          ∧ type_id ndst = secondary_feature_type_id example_check
          ∧ "CatchA"%string = name nsrc ∧ "GW1"%string = name ndst)
         ∨ (type_id nsrc = secondary_feature_type_id example_check
            ∧ type_id ndst = base_feature_type_id example_check
            ∧ "CatchA"%string = name ndst ∧ "GW1"%string = name nsrc)).
Proof.
  apply (edge_scan_sound example_check
           [(10, {| src_id := Some 2; dst_id := Some 1 |});
            (11, {| src_id := Some 1; dst_id := None |})]).
  by vm_compute.
Defined.
End superposition_scans.

Section superposition_report.
Import SuperpositionCheck.
Context {GridCell : Type}.
Variable get_cell_feature_names : GridCell → string → list string.

(** X17. The pairs the cell scan reports depend on the cells scanned, not
    on their order or on how often a cell is visited: two scans from the
    same state over cell lists with the same cells report the same pairs,
    and scanning the cells a second time reports nothing new. *)
Theorem cell_scan_order_irrelevant (cells1 cells2 : list (Z * GridCell)) s :
  (∀ c, c ∈ cells1.*2 ↔ c ∈ cells2.*2) →
  ∀ x y,
    (reported x y
       (foldl (λ s c, cell_check_operation get_cell_feature_names c.1 c.2 s)
          s cells1)
     ↔ reported x y
         (foldl (λ s c, cell_check_operation get_cell_feature_names c.1 c.2 s)
            s cells2))
    ∧ (reported x y
         (foldl (λ s c, cell_check_operation get_cell_feature_names c.1 c.2 s)
            (foldl
               (λ s c, cell_check_operation get_cell_feature_names c.1 c.2 s)
               s cells1)
            cells1)
       ↔ reported x y
           (foldl
              (λ s c, cell_check_operation get_cell_feature_names c.1 c.2 s)
              s cells1)).
Proof.
  intros Hsame x y.
  assert (∀ cells : list (Z * GridCell),
            (∃ c, c ∈ cells
                  ∧ x ∈ get_cell_feature_names c.2 (base_feature s)
                  ∧ y ∈ get_cell_feature_names c.2 (secondary_feature s)
                  ∧ check_connection x y s = false)
            ↔ ∃ g, g ∈ cells.*2
                   ∧ x ∈ get_cell_feature_names g (base_feature s)
                   ∧ y ∈ get_cell_feature_names g (secondary_feature s)
                   ∧ check_connection x y s = false) as Hcells.
  { intros cells. split.
    - intros (c & Hc & ?). exists c.2. split; [|done].
      by apply (list_elem_of_fmap_2 snd).
    - intros (g & Hg & ?).
      apply list_elem_of_fmap in Hg as (c & -> & Hc). by exists c. }
  split.
  - destruct (cell_scan_spec get_cell_feature_names cells1 s) as (_ & _ & _ & ->).
    destruct (cell_scan_spec get_cell_feature_names cells2 s) as (_ & _ & _ & ->).
    rewrite !Hcells. by setoid_rewrite Hsame.
  - destruct (cell_scan_spec get_cell_feature_names cells1 s)
      as (Hconn & Hb & Hsec & Hr).
    destruct (cell_scan_spec get_cell_feature_names cells1
                (foldl
                   (λ s c, cell_check_operation get_cell_feature_names c.1 c.2 s)
                   s cells1)) as (_ & _ & _ & ->).
    rewrite Hb, Hsec, (check_connection_ext x y _ s Hconn), Hr. tauto.
Qed.
End superposition_report.

Lemma cell_scan_order_irrelevant_witness :
  reported "CatchA" "GW2"
    (foldl
       (λ s c, SuperpositionCheck.cell_check_operation
                 example_cell_feature_names c.1 c.2 s)
       example_check
       [(1, [("catchment"%string, ["CatchA"%string]);
             ("groundwater"%string, ["GW2"%string])]);
        (2, [("catchment"%string, ["CatchA"%string])])])
  ↔ reported "CatchA" "GW2"
      (foldl
         (λ s c, SuperpositionCheck.cell_check_operation
                   example_cell_feature_names c.1 c.2 s)
         example_check
         [(7, [("catchment"%string, ["CatchA"%string])]);
          (8, [("catchment"%string, ["CatchA"%string]);
               ("groundwater"%string, ["GW2"%string])]);
          (9, [("catchment"%string, ["CatchA"%string])])]).
Proof.
  apply (cell_scan_order_irrelevant example_cell_feature_names
           [(1, [("catchment"%string, ["CatchA"%string]);
                 ("groundwater"%string, ["GW2"%string])]);
            (2, [("catchment"%string, ["CatchA"%string])])]
           [(7, [("catchment"%string, ["CatchA"%string])]);
            (8, [("catchment"%string, ["CatchA"%string]);
                 ("groundwater"%string, ["GW2"%string])]);
            (9, [("catchment"%string, ["CatchA"%string])])]
           example_check).
  intros c. csimpl. rewrite !elem_of_cons, !elem_of_nil. tauto.
Defined.

Section superposition_messages.
Import SuperpositionCheck.
Context `{!Interpreter} {GridCell : Type}.
Variable get_cell_feature_names : GridCell → string → list string.

(** Whatever [add_error] preserves, the cell scan preserves. *)
Lemma cell_scan_invariant (P : t → Prop) (cells : list (Z * GridCell)) s :
  (∀ b sec s, P s → P (add_error b sec s)) →
  P s →
  P (foldl (λ s c, cell_check_operation get_cell_feature_names c.1 c.2 s)
       s cells).
Proof.
  intros Hadd.
  assert (∀ b secs s, P s →
            P (foldl
                 (λ s sec,
                    if negb (check_connection b sec s)
                    then add_error b sec s else s) s secs)) as Hsecs.
  { intros b secs. induction secs as [|sec secs IH]; intros s0 Hs0; [done|].
    cbn [foldl]. apply IH. destruct (negb _); [by apply Hadd|done]. }
  assert (∀ bases secs s, P s →
            P (foldl
                 (λ s b,
                    foldl
                      (λ s sec,
                         if negb (check_connection b sec s)
                         then add_error b sec s else s) s secs)
                 s bases)) as Hbases.
  { intros bases secs. induction bases as [|b bases IH]; intros s0 Hs0; [done|].
    cbn [foldl]. by apply IH, Hsecs. }
  revert s. induction cells as [|c cells IH]; intros s Hs; [done|].
  cbn [foldl]. apply IH. unfold cell_check_operation. by apply Hbases.
Qed.

Lemma add_error_keys b sec s :
  NoDup (connection_error s).*1 →
  Forall (λ bs, bs.2 ≠ ∅) (connection_error s) →
  NoDup (connection_error (add_error b sec s)).*1
  ∧ Forall (λ bs, bs.2 ≠ ∅) (connection_error (add_error b sec s)).
Proof.
  intros Hnd Hne. unfold add_error. simpl. split.
  - by apply od_set_NoDup.
  - apply od_set_Forall; [done|]. simpl.
    intros Hempty. apply (elem_of_empty (C := gset string) sec).
    rewrite <- Hempty. apply elem_of_union. right. by apply elem_of_singleton.
Qed.

Lemma make_errors_dict_messages s :
  make_errors_dict s
  = with_errors
      (errors s
       ++ (error_message (base_feature s) (secondary_feature s)
             <$> connection_error s)) s.
Proof.
  unfold make_errors_dict.
  assert (∀ (l : list (string * gset string)) s0,
            foldl
              (λ s bs,
                 with_errors
                   (errors s
                    ++ ["El elemento " +:+ bs.1 +:+ " del tipo "
                        +:+ base_feature s
                        +:+ " no está conectado a los elementos "
                        +:+ py_str_set bs.1 bs.2
                        +:+ " de tipo " +:+ secondary_feature s +:+ "."]) s)
              s0 l
            = with_errors
                (errors s0
                 ++ (error_message (base_feature s0) (secondary_feature s0)
                       <$> l)) s0) as Hloop.
  { induction l as [|bs l IH]; intros s0.
    - csimpl. rewrite app_nil_r. by destruct s0.
    - cbn [foldl]. rewrite IH. csimpl. by rewrite <- app_assoc. }
  apply Hloop.
Qed.

(** X18. The error set keeps one entry per base name, with a non-empty set
    of partners: after a cell scan from such a state the keys are still
    distinct, and a base name is a key exactly when some pair is reported
    for it. [make_errors_dict] then appends exactly one message per key, in
    the order of the keys, after the messages already present, and leaves
    the error set in place, so a second call appends the same messages
    again. *)
Theorem make_errors_dict_one_message_per_base (cells : list (Z * GridCell)) s :
  NoDup (connection_error s).*1 →
  Forall (λ bs, bs.2 ≠ ∅) (connection_error s) →
  let s1 := foldl
              (λ s c, cell_check_operation get_cell_feature_names c.1 c.2 s)
              s cells in
  let msgs := error_message (base_feature s) (secondary_feature s)
                <$> connection_error s1 in
  NoDup (connection_error s1).*1
  ∧ (∀ b, b ∈ (connection_error s1).*1 ↔ ∃ y, reported b y s1)
  ∧ errors (make_errors_dict s1) = errors s ++ msgs
  ∧ length (errors (make_errors_dict s1))
    = (length (errors s) + length (connection_error s1).*1)%nat
  ∧ connection_error (make_errors_dict s1) = connection_error s1
  ∧ errors (make_errors_dict (make_errors_dict s1)) = errors s ++ msgs ++ msgs.
Proof.
  intros Hnd Hne s1 msgs.
  assert (NoDup (connection_error s1).*1
          ∧ Forall (λ bs, bs.2 ≠ ∅) (connection_error s1)
          ∧ errors s1 = errors s) as (Hnd1 & Hne1 & Herr1).
  { apply (cell_scan_invariant
             (λ s', NoDup (connection_error s').*1
                    ∧ Forall (λ bs, bs.2 ≠ ∅) (connection_error s')
                    ∧ errors s' = errors s)); [|done].
    intros b sec s' (H1 & H2 & H3).
    destruct (add_error_keys b sec s' H1 H2). done. }
  destruct (cell_scan_spec get_cell_feature_names cells s)
    as (_ & Hb & Hsec & _).
  fold s1 in Hb, Hsec.
  assert (errors (make_errors_dict s1) = errors s ++ msgs) as Hmsgs.
  { rewrite make_errors_dict_messages. simpl. by rewrite Herr1, Hb, Hsec. }
  split_and!.
  - done.
  - intros b. unfold reported. split.
    + intros [es Hes]%od_get_is_Some. pose proof Hes as Hin%od_get_Some_elem.
      rewrite Forall_forall in Hne1. specialize (Hne1 _ Hin). simpl in Hne1.
      apply set_choose_L in Hne1 as [y Hy]. by exists y, es.
    + intros (y & es & Hes & _). apply od_get_is_Some. by exists es.
  - done.
  - rewrite Hmsgs. unfold msgs. by rewrite length_app, !length_fmap.
  - by rewrite make_errors_dict_messages.
  - rewrite (make_errors_dict_messages (make_errors_dict s1)).
    rewrite Hmsgs. rewrite !make_errors_dict_messages. simpl.
    by rewrite Hb, Hsec, <- app_assoc.
Qed.
End superposition_messages.

Section superposition_messages_examples.
#[local] Existing Instance example_interpreter.

Lemma make_errors_dict_one_message_per_base_witness :
  SuperpositionCheck.errors
    (SuperpositionCheck.make_errors_dict
       (foldl
          (λ s c, SuperpositionCheck.cell_check_operation
                    example_cell_feature_names c.1 c.2 s)
          example_check
          [(1, [("catchment"%string, ["CatchA"%string]);
                ("groundwater"%string, ["GW2"%string])])]))
  = ["El elemento CatchA del tipo catchment no está conectado a los elementos {'GW2'} de tipo groundwater."%string].
Proof.
  destruct (make_errors_dict_one_message_per_base example_cell_feature_names
              [(1, [("catchment"%string, ["CatchA"%string]);
                    ("groundwater"%string, ["GW2"%string])])]
              example_check)
    as (_ & _ & Hmsgs & _).
  - constructor.
  - constructor.
  - rewrite Hmsgs. by vm_compute.
Defined.
End superposition_messages_examples.

(** ** Building the grid cells *)

Section make_grid_cell_facts.
Variable get_imported_map_keys : FeatureProcess.t → list string.
Variable get_main_map_key : FeatureProcess.t → string.
Variable get_inter_map_name : string → FeatureProcess.t → string.
Variable get_inter_map_geo_type : string → FeatureProcess.t → string.
Variable make_cell_data_by_main_map :
  string → string → string → FeatureProcess.t → option FeatureProcess.t.
Variable make_cell_data_by_secondary_maps :
  string → string → string → FeatureProcess.t → option FeatureProcess.t.
Variable by_field : string.

Hypothesis main_step_ok :
  ∀ m i g s, grid_inv by_field s →
             ∃ s1, make_cell_data_by_main_map m i g s = Some s1
                   ∧ grid_inv by_field s1.
Hypothesis secondary_step_ok :
  ∀ m i g s, grid_inv by_field s →
             ∃ s1, make_cell_data_by_secondary_maps m i g s = Some s1
                   ∧ grid_inv by_field s1.

Lemma grid_resolve_ok s :
  grid_inv by_field s →
  ∃ s', FeatureProcess._set_cell_by_criteria
          FeatureProcess._cell_order_criteria_default
          (FeatureProcess.get_order_criteria_name s) s = Some s'
        ∧ grid_inv by_field s'
        ∧ resolved_records by_field (FeatureProcess.cells s')
          = Some (FeatureProcess.cell_ids s').
Proof.
  intros (Hinv & Hwf & Hby). rewrite Hby.
  destruct (resolve_ok by_field s Hinv Hwf)
    as (s' & Hs' & Hrec & Heq & Hinv' & Hwf').
  exists s'. split; [exact Hs'|].
  assert (FeatureProcess.cells s' = FeatureProcess.cells s) as Hcells
    by (by rewrite Heq).
  assert (FeatureProcess.get_order_criteria_name s'
          = FeatureProcess.get_order_criteria_name s) as Hcrit
    by (by rewrite Heq).
  split; [split_and!; [done|done|congruence]|]. by rewrite Hcells.
Qed.

Lemma grid_loop main_map_name (map_names : list string) s :
  grid_inv by_field s →
  ∃ s',
    for_each
      (λ s map_name,
         let inter_map_name := get_inter_map_name map_name s in
         let inter_map_geo_type := get_inter_map_geo_type map_name s in
         s ← (if bool_decide (map_name = main_map_name)
              then make_cell_data_by_main_map map_name inter_map_name
                     inter_map_geo_type s
              else make_cell_data_by_secondary_maps map_name inter_map_name
                     inter_map_geo_type s);
         FeatureProcess._set_cell_by_criteria
           FeatureProcess._cell_order_criteria_default
           (FeatureProcess.get_order_criteria_name s) s)
      s map_names = Some s'
    ∧ grid_inv by_field s'
    ∧ (map_names ≠ [] →
       resolved_records by_field (FeatureProcess.cells s')
       = Some (FeatureProcess.cell_ids s'))
    ∧ (map_names = [] → s' = s).
Proof.
  intros Hs. induction map_names as [|m l IH] using rev_ind.
  - exists s. by split_and!.
  - destruct IH as (s1 & Hrun & Hs1 & _).
    rewrite for_each_app, Hrun. cbn [mbind option_bind for_each]. cbv zeta.
    assert (∃ s2,
              (if bool_decide (m = main_map_name)
               then make_cell_data_by_main_map m (get_inter_map_name m s1)
                      (get_inter_map_geo_type m s1) s1
               else make_cell_data_by_secondary_maps m (get_inter_map_name m s1)
                      (get_inter_map_geo_type m s1) s1) = Some s2
              ∧ grid_inv by_field s2) as (s2 & -> & Hs2).
    { case_bool_decide; [apply main_step_ok|apply secondary_step_ok]; done. }
    cbn [mbind option_bind].
    destruct (grid_resolve_ok s2 Hs2) as (s3 & -> & Hs3 & Hrec).
    exists s3. cbn [mbind option_bind]. split_and!; [done..|].
    by intros [_ [=]]%app_eq_nil.
Qed.

(** X19. [make_grid_cell] keeps the records in step with the candidates.
    When every step that accumulates the candidates of a map returns and
    keeps the accumulator well formed, [make_grid_cell] returns; with at
    least one imported map the records it leaves are exactly the records
    of the accumulated cells, one per cell in the order of the cells, even
    though the records are rebuilt after each map; with no imported map the
    state is returned as it was and no record is built. The flag and the
    messages returned are those of the ledger of the final state. *)
Theorem make_grid_cell_in_sync s :
  grid_inv by_field s →
  ∃ flag msgs s',
    FeatureProcess.make_grid_cell get_imported_map_keys get_main_map_key
      get_inter_map_name get_inter_map_geo_type
      make_cell_data_by_main_map make_cell_data_by_secondary_maps s
    = Some (flag, msgs, s')
    ∧ grid_inv by_field s'
    ∧ (get_imported_map_keys s ≠ [] →
       resolved_records by_field (FeatureProcess.cells s')
       = Some (FeatureProcess.cell_ids s')
       ∧ (FeatureProcess.cell_ids s').*1 = (FeatureProcess.cells s').*1)
    ∧ (get_imported_map_keys s = [] → s' = s)
    ∧ flag = ErrorManager.has_errors
               (Some [FeatureProcess.get_feature_type s']) EmptyString
               (FeatureProcess._err s')
    ∧ msgs = ErrorManager.get_errors (FeatureProcess.get_feature_type s')
               EmptyString (FeatureProcess._err s').
Proof.
  intros Hs. unfold FeatureProcess.make_grid_cell.
  destruct (grid_loop (get_main_map_key s) (get_imported_map_keys s) s Hs)
    as (s' & Hrun & Hs' & Hrec & Hnil).
  cbv zeta in Hrun |- *. rewrite Hrun. cbn [mbind option_bind].
  eexists _, _, s'. split; [done|]. split_and!; try done.
  intros Hne. split; [by apply Hrec|].
  specialize (Hrec Hne). unfold resolved_records in Hrec.
  apply mapM_Some_1 in Hrec.
  clear -Hrec. induction Hrec as [|c [c' r] ks rs Hc _ IH]; [done|].
  csimpl. rewrite IH. f_equal.
  destruct (FeatureProcess.cell_record _ _ _ c); simpl in Hc; [|done].
  by injection Hc as <- _.
Qed.
End make_grid_cell_facts.

Lemma example_step_ok cell area_name data s :
  wf_candidate "area" data → grid_inv "area" s →
  ∃ s1, FeatureProcess._set_cell cell area_name data "area" s = Some s1
        ∧ grid_inv "area" s1.
Proof.
  intros Hd (Hinv & Hwf & Hby).
  destruct (set_cell_ok "area" cell area_name data s Hinv Hwf Hd)
    as (s1 & areas' & Hs1 & Heq & Hinv1 & Hwf1).
  exists s1. split; [done|]. split_and!; [done..|]. by rewrite Heq.
Qed.

Lemma make_grid_cell_in_sync_witness :
  ∃ flag msgs s',
    FeatureProcess.make_grid_cell
      (λ _, ["main"%string; "soil"%string]) (λ _, "main"%string)
      (λ m _, m +:+ "_inter") (λ _ _, "areas"%string)
      example_main_step example_secondary_step
      (example_state "CatchmentProcess" "catchment")
    = Some (flag, msgs, s')
    ∧ (FeatureProcess.cell_ids s').*1 = (FeatureProcess.cells s').*1.
Proof.
  destruct (make_grid_cell_in_sync
              (λ _, ["main"%string; "soil"%string]) (λ _, "main"%string)
              (λ m _, m +:+ "_inter") (λ _ _, "areas"%string)
              example_main_step example_secondary_step "area")
    with (s := example_state "CatchmentProcess" "catchment")
    as (flag & msgs & s' & Hrun & _ & Hsync & _).
  - intros m i g s. apply example_step_ok.
    split; [by exists 9|by exists (VInt 1)].
  - intros m i g s. apply example_step_ok.
    split; [by exists 2|by exists (VInt 1)].
  - split_and!.
    + split; [constructor|done].
    + constructor.
    + done.
  - exists flag, msgs, s'. split; [exact Hrun|]. by apply Hsync.
Defined.

(** ** The steps that call GRASS *)

Lemma same_frame_refl s : same_frame s s.
Proof. by repeat split. Qed.

Lemma same_frame_trans s1 s2 s3 :
  same_frame s1 s2 → same_frame s2 s3 → same_frame s1 s3.
Proof.
  unfold same_frame. intros H1 H2. destruct_and!. split_and!; congruence.
Qed.

(** Recording a list of messages for the processor's feature type. *)
Lemma append_msgs_spec ms is_warn code s :
  SummaryInfo.prefix (FeatureProcess.summary s)
  = FeatureProcess.get_feature_type s →
  FeatureProcess._err
    (FeatureProcess.append_error None (Some ms)
       (Some (FeatureProcess.get_feature_type s)) is_warn code s)
  = FeatureProcess._err s
    ++ (ledger_entry (FeatureProcess.get_feature_type s) code is_warn <$> ms)
  ∧ trail
      (FeatureProcess.append_error None (Some ms)
         (Some (FeatureProcess.get_feature_type s)) is_warn code s)
    = trail s
  ∧ same_frame s
      (FeatureProcess.append_error None (Some ms)
         (Some (FeatureProcess.get_feature_type s)) is_warn code s).
Proof.
  intros Hpre.
  unfold FeatureProcess.append_error, SummaryInfo.append_error, trail,
    FeatureProcess._err.
  simpl. split_and!; [|done|by repeat split].
  rewrite foldl_append_entries. f_equal.
  apply list_fmap_ext. intros _ m _. unfold ledger_entry. f_equal.
  case_bool_decide; congruence.
Qed.

(** Writing a line of the trail. *)
Lemma set_process_line_spec `{!Interpreter} msg_name (flag : bool) kwargs s text :
  NoDup kwargs.*1 →
  py_format
    (ConfigApp.get_process_msg (SummaryInfo.config (FeatureProcess.summary s))
       msg_name) kwargs = Some text →
  ∃ sm,
    SummaryInfo.set_process_line msg_name flag kwargs (FeatureProcess.summary s)
    = Some sm
    ∧ FeatureProcess._err (FeatureProcess.with_summary sm s)
      = FeatureProcess._err s
    ∧ trail (FeatureProcess.with_summary sm s)
      = trail s
        ++ [{| SummaryInfo.line := text;
               SummaryInfo.status := if flag then "ERROR" else "OK" |}]
    ∧ same_frame s (FeatureProcess.with_summary sm s).
Proof.
  intros Hnd Hfmt. unfold SummaryInfo.set_process_line.
  change (foldl _ [] kwargs) with (od_of_list kwargs).
  rewrite od_of_list_NoDup by done. cbv zeta. rewrite Hfmt.
  eexists. split; [done|]. split_and!; [done|done|by repeat split].
Qed.

Section linkage_facts.
Context `{!Interpreter}.
Variable get_main_field_name : string → option string.
Variable grass_inter_map_with_linkage :
  string → string → string → string → bool * list string.
Variable get_imported_maps : FeatureProcess.t → list (string * string).
Variables linkage_name snap template : string.

Hypothesis template_ok :
  ∀ m l o, is_Some (py_format template
                      [("map_name"%string, VStr m);
                       ("linkage_name"%string, VStr l);
                       ("output_name"%string, VStr o)]).

Lemma inter_step m s :
  SummaryInfo.prefix (FeatureProcess.summary s)
  = FeatureProcess.get_feature_type s →
  ConfigApp.get_process_msg (SummaryInfo.config (FeatureProcess.summary s))
    "_inter_map_with_linkage" = template →
  ∃ r s' l,
    FeatureProcess._inter_map_with_linkage get_main_field_name
      grass_inter_map_with_linkage m.1 linkage_name m.2 snap s = Some (r, s')
    ∧ FeatureProcess._err s'
      = FeatureProcess._err s
        ++ linkage_entries get_main_field_name grass_inter_map_with_linkage
             linkage_name snap (FeatureProcess.get_feature_type s) m
    ∧ trail s' = trail s ++ [l]
    ∧ SummaryInfo.status l
      = (if ErrorManager.has_errors
              (Some [FeatureProcess.get_feature_type s]) EmptyString
              (FeatureProcess._err s')
         then "ERROR" else "OK")%string
    ∧ same_frame s s'.
Proof.
  intros Hpre Htpl.
  unfold FeatureProcess._inter_map_with_linkage, linkage_entries.
  set (map_name := match get_main_field_name _ with
                   | Some _ => _ | None => _ end).
  destruct (grass_inter_map_with_linkage map_name linkage_name m.2 snap)
    as [e ms].
  destruct (template_ok map_name linkage_name m.2) as [text Htext].
  set (s1 := if e
             then FeatureProcess.append_error None (Some ms)
                    (Some (FeatureProcess.get_feature_type s)) false
                    EmptyString s
             else s).
  assert (FeatureProcess._err s1
          = FeatureProcess._err s
            ++ (if e
                then ledger_entry (FeatureProcess.get_feature_type s)
                       EmptyString false <$> ms
                else [])
          ∧ trail s1 = trail s ∧ same_frame s s1) as (Herr1 & Htr1 & Hfr1).
  { subst s1. destruct e.
    - by apply append_msgs_spec.
    - rewrite app_nil_r. split_and!; [done..|apply same_frame_refl]. }
  assert (FeatureProcess.get_feature_type s1 = FeatureProcess.get_feature_type s)
    as Hft1 by apply Hfr1.
  destruct (set_process_line_spec "_inter_map_with_linkage"
              (FeatureProcess.check_errors
                 (Some [FeatureProcess.get_feature_type s1]) EmptyString s1)
              [("map_name"%string, VStr map_name);
               ("linkage_name"%string, VStr linkage_name);
               ("output_name"%string, VStr m.2)] s1 text)
    as (sm & Hsm & Herr2 & Htr2 & Hfr2).
  { apply (bool_decide_unpack _). by vm_compute. }
  { destruct Hfr1 as (_ & _ & _ & _ & _ & _ & _ & _ & -> & _).
    by rewrite Htpl. }
  cbv zeta. fold s1. rewrite Hsm. cbn [mbind option_bind].
  eexists _, _, _. split; [done|]. simpl in Herr1, Herr2 |- *.
  split_and!.
  - by rewrite Herr2, Herr1.
  - by rewrite Htr2, Htr1.
  - cbn [SummaryInfo.status]. unfold FeatureProcess.check_errors.
    by rewrite Herr2, Hft1.
  - by eapply same_frame_trans.
Qed.

Lemma linkage_loop (maps : list (string * string)) s :
  SummaryInfo.prefix (FeatureProcess.summary s)
  = FeatureProcess.get_feature_type s →
  ConfigApp.get_process_msg (SummaryInfo.config (FeatureProcess.summary s))
    "_inter_map_with_linkage" = template →
  ∃ s' new,
    for_each
      (λ s '(map_name, inter_name),
         r ← FeatureProcess._inter_map_with_linkage get_main_field_name
               grass_inter_map_with_linkage map_name linkage_name inter_name
               snap s;
         Some r.2)
      s maps = Some s'
    ∧ FeatureProcess._err s'
      = FeatureProcess._err s
        ++ (maps ≫= linkage_entries get_main_field_name
                      grass_inter_map_with_linkage linkage_name snap
                      (FeatureProcess.get_feature_type s))
    ∧ trail s' = trail s ++ new
    ∧ length new = length maps
    ∧ (∀ i l,
         new !! i = Some l →
         SummaryInfo.status l
         = (if ErrorManager.has_errors
                 (Some [FeatureProcess.get_feature_type s]) EmptyString
                 (FeatureProcess._err s
                  ++ (take (S i) maps
                        ≫= linkage_entries get_main_field_name
                             grass_inter_map_with_linkage linkage_name snap
                             (FeatureProcess.get_feature_type s)))
            then "ERROR" else "OK")%string)
    ∧ same_frame s s'.
Proof.
  revert s. induction maps as [|m maps IH]; intros s Hpre Htpl.
  - exists s, []. rewrite !app_nil_r.
    split_and!; [done..| |apply same_frame_refl]. by intros i l ?.
  - destruct (inter_step m s Hpre Htpl)
      as (r & s1 & l1 & Hrun1 & Herr1 & Htr1 & Hst1 & Hfr1).
    assert (FeatureProcess.get_feature_type s1 = FeatureProcess.get_feature_type s)
      as Hft1 by apply Hfr1.
    destruct (IH s1) as (s' & new & Hrun & Herr & Htr & Hlen & Hst & Hfr).
    { destruct Hfr1 as (_ & _ & Hft & _ & _ & _ & _ & -> & _).
      unfold FeatureProcess.get_feature_type. by rewrite Hft. }
    { destruct Hfr1 as (_ & _ & _ & _ & _ & _ & _ & _ & -> & _). done. }
    exists s', (l1 :: new). cbn [for_each].
    destruct m as [map_name inter_name]. simpl in Hrun1. rewrite Hrun1.
    cbn [mbind option_bind snd]. split; [exact Hrun|].
    rewrite Hft1 in Herr, Hst.
    split_and!.
    + rewrite Herr, Herr1. csimpl. by rewrite <- app_assoc.
    + rewrite Htr, Htr1. by rewrite <- app_assoc.
    + simpl. by rewrite Hlen.
    + intros [|i] l Hl; simpl in Hl.
      * injection Hl as <-. rewrite Hst1, Herr1. csimpl.
        by rewrite app_nil_r.
      * rewrite (Hst i l Hl), Herr1. csimpl. by rewrite <- app_assoc.
    + by eapply same_frame_trans.
Qed.

(** X20. [inter_map_with_linkage] writes one line of the trail per imported
    map, in map order, and records the messages of each failed overlay as
    errors of the processor's feature type. The status of a line is ERROR
    exactly when the ledger holds an error of the feature type once the
    map's messages are recorded: an error recorded before the call, or for
    an earlier map, marks the line of every later map as ERROR, also where
    the overlay itself succeeded, so the statuses are a run of OK followed
    by a run of ERROR. Cells and records are left as they were. *)
Theorem inter_map_with_linkage_trail s :
  SummaryInfo.prefix (FeatureProcess.summary s)
  = FeatureProcess.get_feature_type s →
  ConfigApp.get_process_msg (SummaryInfo.config (FeatureProcess.summary s))
    "_inter_map_with_linkage" = template →
  ∃ flag msgs s' new,
    FeatureProcess.inter_map_with_linkage get_main_field_name
      grass_inter_map_with_linkage get_imported_maps linkage_name snap s
    = Some ((flag, msgs), s')
    ∧ FeatureProcess._err s'
      = FeatureProcess._err s
        ++ (get_imported_maps s
              ≫= linkage_entries get_main_field_name
                   grass_inter_map_with_linkage linkage_name snap
                   (FeatureProcess.get_feature_type s))
    ∧ trail s' = trail s ++ new
    ∧ length new = length (get_imported_maps s)
    ∧ (∀ i l,
         new !! i = Some l →
         SummaryInfo.status l
         = (if ErrorManager.has_errors
                 (Some [FeatureProcess.get_feature_type s]) EmptyString
                 (FeatureProcess._err s
                  ++ (take (S i) (get_imported_maps s)
                        ≫= linkage_entries get_main_field_name
                             grass_inter_map_with_linkage linkage_name snap
                             (FeatureProcess.get_feature_type s)))
            then "ERROR" else "OK")%string)
    ∧ (∀ i j li lj,
         (i ≤ j)%nat → new !! i = Some li → new !! j = Some lj →
         SummaryInfo.status li = "ERROR"%string →
         SummaryInfo.status lj = "ERROR"%string)
    ∧ flag = ErrorManager.has_errors
               (Some [FeatureProcess.get_feature_type s]) EmptyString
               (FeatureProcess._err s')
    ∧ msgs = ErrorManager.get_errors (FeatureProcess.get_feature_type s)
               EmptyString (FeatureProcess._err s')
    ∧ FeatureProcess.cells s' = FeatureProcess.cells s
    ∧ FeatureProcess.cell_ids s' = FeatureProcess.cell_ids s.
Proof.
  intros Hpre Htpl.
  destruct (linkage_loop (get_imported_maps s) s Hpre Htpl)
    as (s' & new & Hrun & Herr & Htr & Hlen & Hst & Hfr).
  assert (FeatureProcess.get_feature_type s' = FeatureProcess.get_feature_type s)
    as Hft by apply Hfr.
  unfold FeatureProcess.inter_map_with_linkage. cbv zeta.
  rewrite Hrun. cbn [mbind option_bind].
  eexists _, _, s', new. split; [done|].
  split_and!; try done.
  - intros i j li lj Hij Hi Hj. rewrite (Hst i li Hi), (Hst j lj Hj).
    destruct (ErrorManager.has_errors _ _
                (_ ++ (take (S i) _ ≫= _))) eqn:Hei; [|done].
    intros _.
    assert (take (S j) (get_imported_maps s)
            = take (S i) (get_imported_maps s)
              ++ take (S j - S i) (drop (S i) (get_imported_maps s))) as ->.
    { rewrite take_take_drop. f_equal. lia. }
    rewrite bind_app, app_assoc, has_errors_app, Hei. done.
  - unfold FeatureProcess.check_errors. by rewrite Hft.
  - unfold FeatureProcess.get_errors. by rewrite Hft.
  - apply Hfr.
  - apply Hfr.
Qed.
End linkage_facts.

Section linkage_examples.
#[local] Existing Instance example_interpreter.

Lemma inter_map_with_linkage_trail_witness :
  ∃ flag msgs s' new,
    FeatureProcess.inter_map_with_linkage (λ _, None) example_overlay
      (λ _, [("a"%string, "a_i"%string); ("b"%string, "b_i"%string);
             ("c"%string, "c_i"%string)])
      "grid" "1e-12" (example_state "RiverProcess" "river")
    = Some ((flag, msgs), s')
    ∧ trail s' = new
    ∧ SummaryInfo.status <$> new = ["OK"%string; "ERROR"%string; "ERROR"%string]
    ∧ flag = true
    ∧ msgs = ["overlay of b failed"%string].
Proof.
  destruct (inter_map_with_linkage_trail (λ _, None) example_overlay
              (λ _, [("a"%string, "a_i"%string); ("b"%string, "b_i"%string);
                     ("c"%string, "c_i"%string)])
              "grid" "1e-12"
              "Intersect [{map_name}] with [{linkage_name}] into [{output_name}]")
    with (s := example_state "RiverProcess" "river")
    as (flag & msgs & s' & new & Hrun & Herr & Htr & Hlen & Hst & _ & Hflag
        & Hmsgs & _).
  - intros m l o. eexists. reflexivity.
  - reflexivity.
  - reflexivity.
  - exists flag, msgs, s', new. split; [exact Hrun|].
    cbn [length] in Hlen.
    destruct new as [|l0 [|l1 [|l2 [|l3 new]]]]; cbn [length] in Hlen;
      try discriminate Hlen.
    split; [exact Htr|]. split_and!.
    + csimpl. rewrite (Hst 0%nat l0 eq_refl), (Hst 1%nat l1 eq_refl),
        (Hst 2%nat l2 eq_refl). by vm_compute.
    + rewrite Hflag, Herr. by vm_compute.
    + rewrite Hmsgs, Herr. by vm_compute.
Defined.
End linkage_examples.

Section basic_columns_facts.
Context `{!Interpreter}.
Variable get_needed_field_names :
  string → list (string * option (string * bool)).
Variable grass_check_basic_columns :
  string → string → bool → bool * list string.
Variables map_name template : string.

Hypothesis template_ok :
  ∀ m c, is_Some (py_format template
                    [("map_name"%string, VStr m); ("columns"%string, VStr c)]).

(** The keys of the non-empty fields, looked up again, give the fields. *)
Lemma needed_fields_lookup (fields : list (string * option (string * bool))) :
  NoDup fields.*1 →
  Forall2 (λ k f, od_get k fields ≫= id = Some f)
    (filter (λ f, is_Some f.2) fields).*1 (omap snd fields).
Proof.
  intros Hnd.
  assert (∀ l : list (string * option (string * bool)),
            l ⊆ fields →
            Forall2 (λ k f, od_get k fields ≫= id = Some f)
              (filter (λ f, is_Some f.2) l).*1 (omap snd l)) as Hsub.
  { induction l as [|[k o] l IH]; intros Hl; [constructor|].
    assert (l ⊆ fields) as Hl' by (intros x Hx; apply Hl; by right).
    change (omap snd ((k, o) :: l))
      with (match o with Some f => f :: omap snd l | None => omap snd l end).
    destruct o as [f|].
    - rewrite filter_cons_True by (by eexists). csimpl.
      constructor; [|by apply IH].
      rewrite (od_get_elem_NoDup k (Some f) fields Hnd); [done|].
      apply Hl. by left.
    - rewrite filter_cons_False by (by intros [? ?]). by apply IH. }
  by apply Hsub.
Qed.

Lemma columns_loop fields (ks : list string) (specs : list (string * bool)) s :
  Forall2 (λ k f, od_get k fields ≫= id = Some f) ks specs →
  SummaryInfo.prefix (FeatureProcess.summary s)
  = FeatureProcess.get_feature_type s →
  ConfigApp.get_process_msg (SummaryInfo.config (FeatureProcess.summary s))
    "check_basic_columns" = template →
  ∃ s' new,
    for_each
      (λ s field_key,
         field ← od_get field_key fields ≫= id;
         let field_name := field.1 in
         let needed := field.2 in
         let '(__err, __errors) :=
           grass_check_basic_columns map_name field_name needed in
         sm ← SummaryInfo.set_process_line "check_basic_columns" __err
                [("map_name"%string, VStr map_name);
                 ("columns"%string, VStr field_name)]
                (FeatureProcess.summary s);
         let s := FeatureProcess.with_summary sm s in
         Some (if needed
               then FeatureProcess.append_error None (Some __errors)
                      (Some (FeatureProcess.get_feature_type s)) false "20" s
               else FeatureProcess.append_error None (Some __errors)
                      (Some (FeatureProcess.get_feature_type s)) true "20" s))
      s ks = Some s'
    ∧ FeatureProcess._err s'
      = FeatureProcess._err s
        ++ (specs ≫= column_entries grass_check_basic_columns map_name
                       (FeatureProcess.get_feature_type s))
    ∧ trail s' = trail s ++ new
    ∧ SummaryInfo.status <$> new
      = (λ f, if (grass_check_basic_columns map_name f.1 f.2).1
              then "ERROR" else "OK")%string <$> specs
    ∧ same_frame s s'.
Proof.
  intros Hks. revert s.
  induction Hks as [|k [c needed] ks specs Hk _ IH]; intros s Hpre Htpl.
  - exists s, []. rewrite !app_nil_r.
    split_and!; [done..|apply same_frame_refl].
  - cbn [for_each]. rewrite Hk. cbn [mbind option_bind fst snd]. cbv zeta.
    destruct (grass_check_basic_columns map_name c needed) as [e ms] eqn:Hg.
    destruct (template_ok map_name c) as [text Htext].
    destruct (set_process_line_spec "check_basic_columns" e
                [("map_name"%string, VStr map_name);
                 ("columns"%string, VStr c)] s text)
      as (sm & Hsm & Herr1 & Htr1 & Hfr1).
    { apply (bool_decide_unpack _). by vm_compute. }
    { by rewrite Htpl. }
    rewrite Hsm. cbn [mbind option_bind].
    set (s1 := FeatureProcess.with_summary sm s) in *.
    assert (FeatureProcess.get_feature_type s1
            = FeatureProcess.get_feature_type s) as Hft1 by apply Hfr1.
    assert (SummaryInfo.prefix (FeatureProcess.summary s1)
            = FeatureProcess.get_feature_type s1) as Hpre1.
    { destruct Hfr1 as (_ & _ & _ & _ & _ & _ & _ & -> & _). by rewrite Hft1. }
    assert ((if needed
             then FeatureProcess.append_error None (Some ms)
                    (Some (FeatureProcess.get_feature_type s1)) false "20" s1
             else FeatureProcess.append_error None (Some ms)
                    (Some (FeatureProcess.get_feature_type s1)) true "20" s1)
            = FeatureProcess.append_error None (Some ms)
                (Some (FeatureProcess.get_feature_type s1)) (negb needed) "20"
                s1) as -> by (by destruct needed).
    destruct (append_msgs_spec ms (negb needed) "20" s1 Hpre1)
      as (Herr2 & Htr2 & Hfr2).
    set (s2 := FeatureProcess.append_error _ _ _ _ _ s1) in *.
    assert (same_frame s s2) as Hfr by (by eapply same_frame_trans).
    assert (FeatureProcess.get_feature_type s2
            = FeatureProcess.get_feature_type s) as Hft2 by apply Hfr.
    destruct (IH s2) as (s' & new & Hrun & Herr & Htr & Hst & Hfr').
    { destruct Hfr as (_ & _ & _ & _ & _ & _ & _ & -> & _). by rewrite Hft2. }
    { destruct Hfr as (_ & _ & _ & _ & _ & _ & _ & _ & -> & _). done. }
    exists s', ({| SummaryInfo.line := text;
                   SummaryInfo.status := if e then "ERROR" else "OK" |} :: new).
    split; [exact Hrun|]. split_and!.
    + rewrite Herr, Herr2, Herr1, Hft2, Hft1. csimpl.
      unfold column_entries at 2. simpl. rewrite Hg. simpl.
      by rewrite <- app_assoc.
    + rewrite Htr, Htr2, Htr1. by rewrite <- app_assoc.
    + csimpl. rewrite Hst, Hg. done.
    + by eapply same_frame_trans.
Qed.

(** X21. [check_basic_columns] queries one column per non-empty field of
    the feature type, in field order, and writes one line of the trail per
    query, with the status GRASS reported for it. The messages of every
    query are recorded with code 20: as errors when the column is needed,
    as warnings otherwise. The flag returned is raised exactly when the
    ledger already held an error of code 20 or a needed column produced a
    message: a column that is not needed never raises it. Cells and records
    are left as they were. *)
Theorem check_basic_columns_records s :
  NoDup (get_needed_field_names (FeatureProcess.get_feature_type s)).*1 →
  SummaryInfo.prefix (FeatureProcess.summary s)
  = FeatureProcess.get_feature_type s →
  ConfigApp.get_process_msg (SummaryInfo.config (FeatureProcess.summary s))
    "check_basic_columns" = template →
  ∃ flag msgs s' new,
    FeatureProcess.check_basic_columns get_needed_field_names
      grass_check_basic_columns map_name s = Some ((flag, msgs), s')
    ∧ FeatureProcess._err s'
      = FeatureProcess._err s
        ++ (omap snd (get_needed_field_names (FeatureProcess.get_feature_type s))
              ≫= column_entries grass_check_basic_columns map_name
                   (FeatureProcess.get_feature_type s))
    ∧ trail s' = trail s ++ new
    ∧ SummaryInfo.status <$> new
      = (λ f, if (grass_check_basic_columns map_name f.1 f.2).1
              then "ERROR" else "OK")%string
          <$> omap snd (get_needed_field_names (FeatureProcess.get_feature_type s))
    ∧ (flag = true
       ↔ ErrorManager.has_errors None "20" (FeatureProcess._err s) = true
         ∨ ∃ c, (c, true)
                  ∈ omap snd
                      (get_needed_field_names (FeatureProcess.get_feature_type s))
                ∧ (grass_check_basic_columns map_name c true).2 ≠ [])
    ∧ msgs = ErrorManager.get_errors (FeatureProcess.get_feature_type s) "20"
               (FeatureProcess._err s')
    ∧ FeatureProcess.cells s' = FeatureProcess.cells s
    ∧ FeatureProcess.cell_ids s' = FeatureProcess.cell_ids s.
Proof.
  intros Hnd Hpre Htpl.
  set (fields := get_needed_field_names (FeatureProcess.get_feature_type s)) in *.
  destruct (columns_loop fields _ _ s (needed_fields_lookup fields Hnd) Hpre Htpl)
    as (s' & new & Hrun & Herr & Htr & Hst & Hfr).
  assert (FeatureProcess.get_feature_type s' = FeatureProcess.get_feature_type s)
    as Hft by apply Hfr.
  unfold FeatureProcess.check_basic_columns. cbv zeta in Hrun |- *.
  fold fields. rewrite Hrun. cbn [mbind option_bind].
  eexists _, _, s', new. split; [done|]. split_and!; try done.
  - unfold FeatureProcess.check_errors.
    rewrite Herr, has_errors_app, orb_true_iff.
    apply or_iff_compat_l. rewrite has_errors_true. split.
    + intros (e & He & Hw & _ & _).
      apply list_elem_of_bind in He as ([c needed] & He & Hf).
      unfold column_entries in He. simpl in He.
      apply list_elem_of_fmap in He as (msg & -> & Hmsg). simpl in Hw.
      destruct needed; [|done]. exists c. split; [done|].
      intros Hnil. rewrite Hnil in Hmsg. by apply elem_of_nil in Hmsg.
    + intros (c & Hc & Hne).
      destruct (grass_check_basic_columns map_name c true).2 as [|msg ms] eqn:Hg;
        [done|].
      exists (ledger_entry (FeatureProcess.get_feature_type s) "20" false msg).
      split_and!; [|done|done|by right].
      apply list_elem_of_bind. exists (c, true). split; [|done].
      unfold column_entries. simpl. rewrite Hg. apply list_elem_of_here.
  - unfold FeatureProcess.get_errors. by rewrite Hft.
  - apply Hfr.
  - apply Hfr.
Qed.
End basic_columns_facts.

Section basic_columns_examples.
#[local] Existing Instance example_interpreter.

Lemma check_basic_columns_records_witness :
  ∃ flag msgs s' new,
    FeatureProcess.check_basic_columns
      (λ _, [("main"%string, Some ("name"%string, true));
             ("aux"%string, None);
             ("kind"%string, Some ("type"%string, false))])
      example_column_query "rivers" example_columns_state
    = Some ((flag, msgs), s')
    ∧ trail s' = new
    ∧ SummaryInfo.status <$> new = ["ERROR"%string; "ERROR"%string]
    ∧ flag = true
    ∧ msgs = ["column name missing in rivers"%string]
    ∧ ErrorManager.get_warnings "river" "20" (FeatureProcess._err s')
      = ["column type missing in rivers"%string].
Proof.
  destruct (check_basic_columns_records
              (λ _, [("main"%string, Some ("name"%string, true));
                     ("aux"%string, None);
                     ("kind"%string, Some ("type"%string, false))])
              example_column_query "rivers"
              "Check columns [{columns}] in [{map_name}]")
    with (s := example_columns_state)
    as (flag & msgs & s' & new & Hrun & Herr & Htr & Hst & Hflag & Hmsgs & _).
  - intros m c. eexists. reflexivity.
  - apply (bool_decide_unpack _). by vm_compute.
  - reflexivity.
  - reflexivity.
  - exists flag, msgs, s', new. split; [exact Hrun|].
    split; [exact Htr|]. split_and!.
    + rewrite Hst. by vm_compute.
    + apply Hflag. right. exists "name"%string. split; [|by vm_compute].
      apply (bool_decide_unpack _). by vm_compute.
    + rewrite Hmsgs, Herr. by vm_compute.
    + rewrite Herr. by vm_compute.
Defined.
End basic_columns_examples.
